(** * LitGNN: the CMPNN message-passing model and the PNA wrapper

    A shallow embedding of [src/litgnn/nn/models/cmpnn/model.py] and
    [src/litgnn/models/pna.py].

    A 1-D tensor is a [row] (a list), a 2-D tensor a [matrix]: its rows
    together with its column count, which an empty tensor still has.
    The scalar type is kept abstract behind the [Scalar] interface (the code
    runs on floating point; nothing proved below uses a law of arithmetic),
    with executable instances on [Z] and [Q].  Every call that the tensor
    runtime can reject returns a [result]. *)

From Stdlib Require Import ZArith QArith Sorted.
From stdpp Require Import base decidable list strings gmap.

Local Open Scope nat_scope.
Local Open Scope string_scope.

(** ** Errors *)

Inductive error : Type :=
| AssertionError (msg : string)
| RuntimeError
| IndexError
| TypeError
| ValueError
| ZeroDivisionError
| UnboundLocalError.

Inductive result (A : Type) : Type :=
| Ok (a : A)
| Err (e : error).
Arguments Ok {A} a.
Arguments Err {A} e.

Definition bind {A B} (m : result A) (k : A -> result B) : result B :=
  match m with
  | Ok a => k a
  | Err e => Err e
  end.

Notation "'let*' x ':=' m 'in' k" := (bind m (fun x => k))
  (at level 10, x pattern, m at level 100, k at level 200).

Fixpoint mapM {A B} (f : A -> result B) (l : list A) : result (list B) :=
  match l with
  | [] => Ok []
  | a :: l' => let* b := f a in let* bs := mapM f l' in Ok (b :: bs)
  end.

Definition is_ok {A} (m : result A) : bool :=
  match m with Ok _ => true | Err _ => false end.

(** ** Scalars *)

Class Scalar (T : Type) : Type := {
  szero : T;
  sadd : T -> T -> T;
  ssub : T -> T -> T;
  smul : T -> T -> T;
  smax : T -> T -> T
}.

#[export] Instance Z_scalar : Scalar Z :=
  {| szero := 0%Z; sadd := Z.add; ssub := Z.sub; smul := Z.mul; smax := Z.max |}.

Definition Qmax (a b : Q) : Q := if Qle_bool a b then b else a.

#[export] Instance Q_scalar : Scalar Q :=
  {| szero := 0%Q; sadd := Qplus; ssub := Qminus; smul := Qmult; smax := Qmax |}.

(** ** Tensors *)

Abbreviation row := list (only parsing).

Section Tensors.
Context {T : Type} `{Scalar T}.

Record matrix : Type := Mat { ncols : nat; rows : list (row T) }.

Definition nrows (A : matrix) : nat := length (rows A).

(** The rows of a tensor really have its column count. *)
Definition wf (A : matrix) : Prop := Forall (fun r => length r = ncols A) (rows A).

Definition wfb (A : matrix) : bool := forallb (fun r => Nat.eqb (length r) (ncols A)) (rows A).

Definition zeros (n : nat) : row T := replicate n szero.
Definition zeros2 (n m : nat) : matrix := Mat m (replicate n (zeros m)).

(** The runtime's broadcasting rule for one dimension: the sizes are equal,
    or one of them is 1. *)
Definition bsize (a b : nat) : result nat :=
  if decide (a = b) then Ok a
  else if decide (a = 1) then Ok b
  else if decide (b = 1) then Ok a
  else Err RuntimeError.

(** A dimension of size [have] brought to the size [want]: a dimension of
    size 1 is repeated. *)
Definition expand {A} (have want : nat) (l : list A) : list A :=
  if decide (have = want) then l
  else match l with
       | [x] => replicate want x
       | _ => l
       end.

Definition broadcast_row (op : T -> T -> T) (a b : row T) : result (row T) :=
  let* n := bsize (length a) (length b) in
  Ok (zip_with op (expand (length a) n a) (expand (length b) n b)).

Definition broadcast_matrix (op : T -> T -> T) (A B : matrix) : result matrix :=
  let* c := bsize (ncols A) (ncols B) in
  let* n := bsize (nrows A) (nrows B) in
  Ok (Mat c (zip_with (fun a b => zip_with op (expand (ncols A) c a) (expand (ncols B) c b))
                      (expand (nrows A) n (rows A)) (expand (nrows B) n (rows B)))).

(** A 1-D tensor seen as a tensor of one row. *)
Definition as_matrix (b : row T) : matrix := Mat (length b) [b].

(** Broadcasting the right-hand side of a slice assignment to the shape of
    the slice. *)
Definition to_size (have want : nat) : result nat :=
  if decide (have = want) then Ok want
  else if decide (have = 1) then Ok want
  else Err RuntimeError.

Definition broadcast_to (n c : nat) (A : matrix) : result matrix :=
  let* c' := to_size (ncols A) c in
  let* n' := to_size (nrows A) n in
  Ok (Mat c' (map (expand (ncols A) c') (expand (nrows A) n' (rows A)))).

Definition relu_row (r : row T) : row T := map (fun v => smax v szero) r.
Definition relu (A : matrix) : matrix := Mat (ncols A) (map relu_row (rows A)).

(** [F.dropout(A, p, training)]: the identity when not training ([mask] is
    [None]); in training every entry is multiplied by the entry of the mask
    the runtime draws ([0] or [1/(1-p)]).  A probability outside [0,1] is
    rejected. *)
Definition valid_p (p : Q) : bool := Qle_bool 0 p && Qle_bool p 1.

Definition mask_row (mask : option (nat -> nat -> T)) (i : nat) (r : row T) : row T :=
  match mask with
  | None => r
  | Some m => imap (fun j v => smul v (m i j)) r
  end.

Definition apply_mask (mask : option (nat -> nat -> T)) (A : matrix) : matrix :=
  match mask with
  | None => A
  | Some m => Mat (ncols A) (imap (fun i r => imap (fun j v => smul v (m i j)) r) (rows A))
  end.

Definition dropout (p : Q) (mask : option (nat -> nat -> T)) (A : matrix) : result matrix :=
  if valid_p p then Ok (apply_mask mask A) else Err ValueError.

(** [A[idx]] with a list of row indices. *)
Definition index_rows (A : matrix) (idx : list nat) : result matrix :=
  let* rs := mapM (fun i => match rows A !! i with
                           | Some r => Ok r
                           | None => Err IndexError
                           end) idx in
  Ok (Mat (ncols A) rs).

(** [A.max(0)[0]]: the column-wise maximum; an empty reduction is refused. *)
Definition max0 (A : matrix) : result (row T) :=
  match rows A with
  | [] => Err RuntimeError
  | r :: rs => Ok (fold_left (zip_with smax) rs r)
  end.

(** [counts.max().item()]. *)
Definition max_item (l : list nat) : result nat :=
  match l with
  | [] => Err RuntimeError
  | n :: l' => Ok (fold_left Nat.max l' n)
  end.

(** [nn.Linear]: the parameter tensors are read by index. *)
Record Linear : Type := {
  in_features : nat;
  out_features : nat;
  weight : nat -> nat -> T;
  lin_bias : option (nat -> T)
}.

Definition dot (w : nat -> T) (r : row T) : T :=
  fold_left sadd (imap (fun k v => smul v (w k)) r) szero.

Definition linear_row (l : Linear) (r : row T) : row T :=
  map (fun j => match lin_bias l with
                | Some b => sadd (dot (weight l j) r) (b j)
                | None => dot (weight l j) r
                end) (seq 0 (out_features l)).

Definition linear (l : Linear) (A : matrix) : result matrix :=
  if decide (ncols A = in_features l)
  then Ok (Mat (out_features l) (map (linear_row l) (rows A)))
  else Err RuntimeError.

(** [torch.cat(tensors, dim=1)]. *)
Fixpoint cat1 (Ms : list matrix) : result matrix :=
  match Ms with
  | [] => Err RuntimeError
  | A :: rest =>
      match rest with
      | [] => Ok A
      | _ :: _ =>
          let* B := cat1 rest in
          if decide (nrows A = nrows B)
          then Ok (Mat (ncols A + ncols B) (zip_with app (rows A) (rows B)))
          else Err RuntimeError
      end
  end.

(** [nn.GRUCell(input_size, hidden_size)]: the gate arithmetic is the
    runtime's and is taken as [gc_step input hx]. *)
Record GRUCell : Type := {
  gc_input_size : nat;
  gc_hidden_size : nat;
  gc_step : row T -> row T -> row T
}.

Definition gru_cell (c : GRUCell) (input hx : matrix) : result matrix :=
  if decide (ncols input = gc_input_size c) then
    if decide (ncols hx = gc_hidden_size c) then
      if decide (nrows input = nrows hx)
      then Ok (Mat (gc_hidden_size c) (zip_with (gc_step c) (rows input) (rows hx)))
      else Err RuntimeError
    else Err RuntimeError
  else Err RuntimeError.

End Tensors.

Arguments matrix T : clear implicits.
Arguments Linear T : clear implicits.
Arguments GRUCell T : clear implicits.

(** The aggregation module of a message-passing layer:
    [aggregate inputs index dim_size]. *)
Definition Aggregation (T : Type) : Type :=
  matrix T -> list nat -> nat -> result (matrix T).

(** A directed edge index of shape 2 x E, column by column:
    [edge_index[0]] is [edge_index.*1], [edge_index[1]] is [edge_index.*2]. *)
Abbreviation Adj := (list (nat * nat)) (only parsing).

(** ** NodeEdgeMessageCommunicator *)

Module NodeEdgeMessageCommunicator.
Section Defs.
Context {T : Type} `{Scalar T}.

Definition names : list string := ["additive"; "inner_product"; "gru"; "mlp"].

Inductive submodule : Type :=
| SubGRUCell (c : GRUCell T)
| SubMlp (l : Linear T).

Record t : Type := {
  name : string;
  hidden_channels : nat;
  communicator : option submodule
}.

(** The values a constructor draws for the learned parameters are supplied
    by the caller. *)
Record init_params : Type := {
  ip_gru_step : row T -> row T -> row T;
  ip_mlp_weight : nat -> nat -> T;
  ip_mlp_bias : nat -> T
}.

Definition __init__ (ip : init_params) (name : string) (hidden_channels : nat) : result t :=
  if decide (name ∈ names) then
    Ok {| name := name;
          hidden_channels := hidden_channels;
          communicator :=
            if decide (name = "gru") then
              Some (SubGRUCell {| gc_input_size := hidden_channels;
                                  gc_hidden_size := hidden_channels;
                                  gc_step := ip_gru_step ip |})
            else if decide (name = "mlp") then
              Some (SubMlp {| in_features := hidden_channels * 2;
                              out_features := hidden_channels;
                              weight := ip_mlp_weight ip;
                              lin_bias := Some (ip_mlp_bias ip) |})
            else None |}
  else Err (AssertionError ("Invalid communicator '" ++ name ++ "'!")).

Definition forward (c : t) (message hidden_state : matrix T) : result (matrix T) :=
  if decide (name c = "additive") then broadcast_matrix sadd hidden_state message
  else if decide (name c = "inner_product") then broadcast_matrix smul hidden_state message
  else if decide (name c = "gru") then
    match communicator c with
    | Some (SubGRUCell g) => gru_cell g hidden_state message
    | Some (SubMlp l) => Err TypeError
    | None => Err TypeError
    end
  else if decide (name c = "mlp") then
    let* message' := cat1 [hidden_state; message] in
    match communicator c with
    | Some (SubMlp l) => let* m := linear l message' in Ok (relu m)
    | Some (SubGRUCell g) => Err TypeError
    | None => Err TypeError
    end
  else Err UnboundLocalError.

End Defs.
Arguments t T : clear implicits.
Arguments init_params T : clear implicits.
End NodeEdgeMessageCommunicator.

(** ** Aggregation with [aggr=[SumAggregation(), MaxAggregation()]] *)

Section Booster.
Context {T : Type} `{Scalar T}.

(** The rows of [inputs] whose index is [i], in edge order. *)
Definition incoming (inputs : list (row T)) (index : list nat) (i : nat) : list (row T) :=
  (filter (fun p => p.1 = i) (zip index inputs)).*2.

Definition sum_rows (c : nat) (rs : list (row T)) : row T :=
  fold_left (zip_with sadd) rs (zeros c).

Definition max_rows (c : nat) (rs : list (row T)) : row T :=
  match rs with
  | [] => zeros c
  | r :: rs' => fold_left (zip_with smax) rs' r
  end.

(** Modelled from the spec: the fusion mode [message_booster] of the two
    aggregates is not part of the sources; section 4.2 asks for the sum and
    the elementwise maximum of the incoming messages fused into one vector
    (here by elementwise multiplication), zero for a node without incoming
    edge, and an index outside [dim_size] is refused. *)
Definition message_booster : Aggregation T := fun inputs index dim_size =>
  if decide (length index = nrows inputs) then
    if forallb (fun i => Nat.ltb i dim_size) index then
      Ok (Mat (ncols inputs)
              (map (fun i => let rs := incoming (rows inputs) index i in
                             zip_with smul (sum_rows (ncols inputs) rs)
                                           (max_rows (ncols inputs) rs))
                   (seq 0 dim_size)))
    else Err RuntimeError
  else Err RuntimeError.

End Booster.

(** ** MessagePassing.propagate

    As the two layers use it: [message] forwards [edge_attr], the messages
    are aggregated at [edge_index[1]] (the default flow) into [x.size(0)]
    rows, and [update] receives the aggregate and [x]. *)

Definition propagate {T} (aggr_module : Aggregation T)
    (update : matrix T -> matrix T -> result (matrix T))
    (edge_index : Adj) (x edge_attr : matrix T) : result (matrix T) :=
  let message := edge_attr in
  let* aggregated := aggr_module message (edge_index.*2) (nrows x) in
  update aggregated x.

(** ** GCNEConv *)

(** The mate of an edge in the layout of consecutive pairs: [2k] and [2k+1]
    are each other's. *)
Definition mate (e : nat) : nat := if Nat.even e then e + 1 else e - 1.

Module GCNEConv.
Section Defs.
Context {T : Type} `{Scalar T}.

Record t : Type := {
  in_channels : nat;
  out_channels : nat;
  communicator_name : string;
  dropout_p : Q;
  communicator : NodeEdgeMessageCommunicator.t T;
  lin : Linear T;
  aggr_module : Aggregation T
}.

Record init_params : Type := {
  ip_communicator : NodeEdgeMessageCommunicator.init_params T;
  ip_lin_weight : nat -> nat -> T;
  ip_lin_bias : nat -> T;
  ip_aggr : Aggregation T
}.

Definition __init__ (ip : init_params) (in_channels out_channels : nat)
    (communicator_name : string) (dropout : Q) (bias : bool) : result t :=
  let* c := NodeEdgeMessageCommunicator.__init__ (ip_communicator ip)
              communicator_name in_channels in
  Ok {| in_channels := in_channels;
        out_channels := out_channels;
        communicator_name := communicator_name;
        dropout_p := dropout;
        communicator := c;
        lin := {| in_features := in_channels;
                  out_features := out_channels;
                  weight := ip_lin_weight ip;
                  lin_bias := if bias then Some (ip_lin_bias ip) else None |};
        aggr_module := ip_aggr ip |}.

(** [int(num_edges / 2)] is the floor of the quotient for every row count a
    tensor can have. *)
Definition get_reverse_edge_index (num_edges : nat) : list nat :=
  fold_left (fun l i => (l ++ [i * 2 + 1; i * 2])%list) (seq 0 (num_edges / 2)) [].

Definition update (c : t) (message x : matrix T) : result (matrix T) :=
  NodeEdgeMessageCommunicator.forward (communicator c) message x.

Definition edge_update (c : t) (mask : option (nat -> nat -> T))
    (x : matrix T) (edge_index : Adj) (edge_attr init_edge_embed : matrix T)
    : result (matrix T) :=
  let rev_edge_index := get_reverse_edge_index (nrows edge_attr) in
  let* x_src := index_rows x (edge_index.*1) in
  let* e_rev := index_rows edge_attr rev_edge_index in
  let* edge_attr := broadcast_matrix ssub x_src e_rev in
  let* edge_attr := linear (lin c) edge_attr in
  let* s := broadcast_matrix sadd init_edge_embed edge_attr in
  dropout (dropout_p c) mask (relu s).

Definition forward (c : t) (mask : option (nat -> nat -> T))
    (x edge_attr : matrix T) (edge_index : Adj) (init_edge_embed : matrix T)
    : result (matrix T * matrix T) :=
  let* x := propagate (aggr_module c) (update c) edge_index x edge_attr in
  let* edge_attr := edge_update c mask x edge_index edge_attr init_edge_embed in
  Ok (x, edge_attr).

(** One row of the edge update: from the embedding [x_node] of a node, the
    embedding [e_mate] of the paired edge and the initial embedding [e_init]
    of the edge [e]. *)
Definition edge_row (c : t) (mask : option (nat -> nat -> T)) (e : nat)
    (x_node e_mate e_init : row T) : row T :=
  mask_row mask e
    (relu_row (zip_with sadd e_init (linear_row (lin c) (zip_with ssub x_node e_mate)))).

(** The row of edge [e = (src, dst)] with the node embedding read at the
    first entry of the edge, [edge_index[0]]. *)
Definition edge_row_at_src (c : t) (mask : option (nat -> nat -> T))
    (x : matrix T) (edge_index : Adj) (edge_attr init_edge_embed : matrix T) (e : nat)
    : option (row T) :=
  match edge_index !! e with
  | Some (src, dst) =>
      match rows x !! src, rows edge_attr !! mate e, rows init_edge_embed !! e with
      | Some x_node, Some e_mate, Some e_init => Some (edge_row c mask e x_node e_mate e_init)
      | _, _, _ => None
      end
  | None => None
  end.


End Defs.
Arguments t T : clear implicits.
Arguments init_params T : clear implicits.
End GCNEConv.

(** ** GCNConv *)

Module GCNConv.
Section Defs.
Context {T : Type} `{Scalar T}.

Record t : Type := {
  in_channels : nat;
  out_channels : nat;
  communicator_name : string;
  communicator : NodeEdgeMessageCommunicator.t T;
  aggr_module : Aggregation T
}.

Record init_params : Type := {
  ip_communicator : NodeEdgeMessageCommunicator.init_params T;
  ip_aggr : Aggregation T
}.

Definition __init__ (ip : init_params) (in_channels out_channels : nat)
    (communicator_name : string) : result t :=
  let* c := NodeEdgeMessageCommunicator.__init__ (ip_communicator ip)
              communicator_name in_channels in
  Ok {| in_channels := in_channels;
        out_channels := out_channels;
        communicator_name := communicator_name;
        communicator := c;
        aggr_module := ip_aggr ip |}.

Definition update (c : t) (message x : matrix T) : result (matrix T) :=
  NodeEdgeMessageCommunicator.forward (communicator c) message x.

Definition forward (c : t) (x edge_attr : matrix T) (edge_index : Adj)
    : result (matrix T) :=
  propagate (aggr_module c) (update c) edge_index x edge_attr.

End Defs.
Arguments t T : clear implicits.
Arguments init_params T : clear implicits.
End GCNConv.

(** ** BatchGRU *)

Fixpoint foldM {A St} (f : St -> A -> result St) (l : list A) (s : St) : result St :=
  match l with
  | [] => Ok s
  | a :: l' => let* s' := f s a in foldM f l' s'
  end.

Definition enumerate {A} (l : list A) : list (nat * A) := zip (seq 0 (length l)) l.

(** [torch.unique(batch, return_counts=True)]: the distinct values in
    increasing order, and how often each occurs.  Graph ids, like node ids,
    are natural numbers. *)
Fixpoint insert_sorted (v : nat) (l : list nat) : list nat :=
  match l with
  | [] => [v]
  | u :: l' =>
      if Nat.ltb v u then v :: l
      else if Nat.eqb v u then l
      else u :: insert_sorted v l'
  end.

Definition unique (batch : list nat) : list nat := foldr insert_sorted [] batch.

Definition eq_mask (batch : list nat) (value : nat) : list bool :=
  map (fun b => Nat.eqb b value) batch.

Definition count_true (mask : list bool) : nat := length (filter (fun b => b = true) mask).

Definition unique_counts (batch : list nat) : list nat :=
  map (fun v => count_true (eq_mask batch v)) (unique batch).

(** [mask.nonzero().squeeze(1)]: the positions that hold [True]. *)
Fixpoint nonzero_from (k : nat) (mask : list bool) : list nat :=
  match mask with
  | [] => []
  | b :: mask' =>
      if b then k :: nonzero_from (S k) mask' else nonzero_from (S k) mask'
  end.

Definition nonzero (mask : list bool) : list nat := nonzero_from 0 mask.

(** [dst[mask, :] = src], row by row. *)
Fixpoint scatter_rows {A} (mask : list bool) (src dst : list A) : list A :=
  match mask, dst with
  | b :: mask', d :: dst' =>
      if b then
        match src with
        | s :: src' => s :: scatter_rows mask' src' dst'
        | [] => d :: scatter_rows mask' [] dst'
        end
      else d :: scatter_rows mask' src dst'
  | _, _ => dst
  end.

Module BatchGRU.
Section Defs.
Context {T : Type} `{Scalar T}.

(** [nn.GRU(hidden_channels, hidden_channels, num_layers=1, batch_first=True,
    bidirectional=True)]: one recurrent cell per direction, each taken as
    [cell input state]; and the bias parameter. *)
Record t : Type := {
  hidden_channels : nat;
  gru_fwd : row T -> row T -> row T;
  gru_bwd : row T -> row T -> row T;
  bias : row T
}.

Record init_params : Type := {
  ip_gru_fwd : row T -> row T -> row T;
  ip_gru_bwd : row T -> row T -> row T;
  ip_bias : nat -> T
}.

(** [1.0 / math.sqrt(self.hidden_channels)] divides by zero for a zero
    width. *)
Definition __init__ (ip : init_params) (hidden_channels : nat) : result t :=
  if decide (hidden_channels = 0) then Err ZeroDivisionError
  else Ok {| hidden_channels := hidden_channels;
             gru_fwd := ip_gru_fwd ip;
             gru_bwd := ip_gru_bwd ip;
             bias := map (ip_bias ip) (seq 0 hidden_channels) |}.

(** The forward direction: the state after each step, first step first. *)
Fixpoint scan_fwd (cell : row T -> row T -> row T) (xs : list (row T)) (h : row T)
    : list (row T) :=
  match xs with
  | [] => []
  | x :: xs' => let h' := cell x h in h' :: scan_fwd cell xs' h'
  end.

(** The backward direction starts from the last position of the sequence;
    the second component is the state reached at the front. *)
Fixpoint scan_bwd (cell : row T -> row T -> row T) (xs : list (row T)) (h : row T)
    : list (row T) * row T :=
  match xs with
  | [] => ([], h)
  | x :: xs' =>
      let r := scan_bwd cell xs' h in
      let h' := cell x r.2 in (h' :: r.1, h')
  end.

Definition gru_seq (g : t) (xs : list (row T)) (hf hb : row T) : list (row T) :=
  zip_with app (scan_fwd (gru_fwd g) xs hf) (scan_bwd (gru_bwd g) xs hb).1.

(** [self.gru(messages, hidden_states)]: every sequence of the batch is run
    on its own, from its own pair of initial states. *)
Definition gru (g : t) (input h0 : list (matrix T)) : result (list (matrix T)) :=
  match h0 with
  | [Hf; Hb] =>
      if decide (ncols Hf = hidden_channels g /\ ncols Hb = hidden_channels g
                 /\ nrows Hf = length input /\ nrows Hb = length input) then
        mapM (fun iX =>
                if decide (ncols iX.2 = hidden_channels g) then
                  match rows Hf !! iX.1, rows Hb !! iX.1 with
                  | Some hf, Some hb =>
                      Ok (Mat (hidden_channels g * 2) (gru_seq g (rows iX.2) hf hb))
                  | _, _ => Err RuntimeError
                  end
                else Err RuntimeError)
             (enumerate input)
      else Err RuntimeError
  | _ => Err RuntimeError
  end.

(** [messages[i, :num_samples] = rhs]. *)
Definition assign_head (messages : list (matrix T)) (i num_samples : nat)
    (rhs : matrix T) : result (list (matrix T)) :=
  match messages !! i with
  | None => Err IndexError
  | Some D =>
      let n := Nat.min num_samples (nrows D) in
      let* R := broadcast_to n (ncols D) rhs in
      Ok (<[i := Mat (ncols D) (rows R ++ drop n (rows D))]> messages)
  end.

(** [hidden_states[:, i, :] = v]. *)
Definition assign_state (hidden_states : list (matrix T)) (i : nat) (v : row T)
    : result (list (matrix T)) :=
  mapM (fun D =>
          if decide (i < nrows D) then
            let* c := to_size (length v) (ncols D) in
            Ok (Mat (ncols D) (<[i := expand (length v) c v]> (rows D)))
          else Err IndexError)
       hidden_states.

(** [dst[mask, :] = src]. *)
Definition masked_assign (dst : matrix T) (mask : list bool) (src : matrix T)
    : result (matrix T) :=
  if decide (length mask = nrows dst) then
    let* R := broadcast_to (count_true mask) (ncols dst) src in
    Ok (Mat (ncols dst) (scatter_rows mask (rows R) (rows dst)))
  else Err IndexError.

Definition pack_step (h_atom message : matrix T) (batch counts : list nat)
    (st : list (matrix T) * list (matrix T)) (iv : nat * nat)
    : result (list (matrix T) * list (matrix T)) :=
  let indices := nonzero (eq_mask batch iv.2) in
  let num_samples := default 0 (counts !! iv.1) in
  let* rhs := index_rows message indices in
  let* messages := assign_head st.1 iv.1 num_samples rhs in
  let* sel := index_rows h_atom indices in
  let* mx := max0 sel in
  let* hidden_states := assign_state st.2 iv.1 mx in
  Ok (messages, hidden_states).

Definition unpad_step (g : t) (batch counts : list nat) (h_messages : list (matrix T))
    (unpadded_messages : matrix T) (iv : nat * nat) : result (matrix T) :=
  let num_samples := default 0 (counts !! iv.1) in
  match h_messages !! iv.1 with
  | None => Err IndexError
  | Some Hm =>
      masked_assign unpadded_messages (eq_mask batch iv.2)
        (Mat (hidden_channels g * 2) (take num_samples (rows Hm)))
  end.

(** The two tensors handed to the recurrent layer: the padded sequences and
    the initial states. *)
Definition pack (g : t) (h_atom : matrix T) (batch : list nat)
    : result (list (matrix T) * list (matrix T)) :=
  let* s := broadcast_matrix sadd h_atom (as_matrix (bias g)) in
  let message := relu s in
  let unique_values := unique batch in
  let counts := unique_counts batch in
  let dim_1 := length unique_values in
  let* dim_2 := max_item counts in
  let dim_3 := hidden_channels g in
  let messages := replicate dim_1 (zeros2 dim_2 dim_3) in
  let hidden_states := replicate 2 (zeros2 dim_1 dim_3) in
  foldM (pack_step h_atom message batch counts) (enumerate unique_values)
        (messages, hidden_states).

Definition forward (g : t) (h_atom : matrix T) (batch : list nat) : result (matrix T) :=
  let num_atoms := nrows h_atom in
  let* packed := pack g h_atom batch in
  let* h_messages := gru g packed.1 packed.2 in
  let unpadded_messages := zeros2 num_atoms (hidden_channels g * 2) in
  foldM (unpad_step g batch (unique_counts batch) h_messages) (enumerate (unique batch))
        unpadded_messages.

End Defs.
Arguments t T : clear implicits.
Arguments init_params T : clear implicits.
End BatchGRU.

(** ** The readout, position by position

    The vocabulary in which the results on [BatchGRU.forward] are stated. *)

Section ReadoutVocabulary.
Context {T : Type} `{Scalar T}.

(** The positions of the nodes of graph [v], in node order, and their number. *)
Definition members (batch : list nat) (v : nat) : list nat := nonzero (eq_mask batch v).
Definition members_count (batch : list nat) (v : nat) : nat := count_true (eq_mask batch v).

(** The rows of [A] at the given positions. *)
Definition gather (A : list (row T)) (idx : list nat) : list (row T) :=
  map (fun i => default [] (A !! i)) idx.

(** The elementwise maximum of a list of rows. *)
Definition colmax (rs : list (row T)) : row T :=
  match rs with
  | [] => []
  | r :: rs' => fold_left (zip_with smax) rs' r
  end.

(** [relu(h_atom + bias)], row by row. *)
Definition message_rows (g : BatchGRU.t T) (h_atom : matrix T) : list (row T) :=
  map (fun r => relu_row (zip_with sadd r (BatchGRU.bias g))) (rows h_atom).

(** The padded sequence of graph [v] and its initial state. *)
Definition padded_sequence (g : BatchGRU.t T) (h_atom : matrix T) (batch : list nat)
    (M v : nat) : list (row T) :=
  (gather (message_rows g h_atom) (members batch v)
   ++ replicate (M - members_count batch v) (zeros (BatchGRU.hidden_channels g)))%list.

Definition initial_state (h_atom : matrix T) (batch : list nat) (v : nat) : row T :=
  colmax (gather (rows h_atom) (members batch v)).

(** How many nodes of the same graph come before position [p]. *)
Definition rank (batch : list nat) (p : nat) : nat :=
  count_true (take p (eq_mask batch (default 0 (batch !! p)))).

(** The output row of the node at position [p], of graph [v]. *)
Definition readout_row (g : BatchGRU.t T) (h_atom : matrix T) (batch : list nat)
    (M p v : nat) : row T :=
  default []
    (take (members_count batch v)
       (BatchGRU.gru_seq g (padded_sequence g h_atom batch M v)
          (initial_state h_atom batch v) (initial_state h_atom batch v))
     !! rank batch p).

(** The state of the packing loop after [k] graphs: the padded sequences and
    the initial states written so far, zeros elsewhere. *)
Definition packed_messages (g : BatchGRU.t T) (h_atom : matrix T) (batch : list nat)
    (M k : nat) : list (matrix T) :=
  (map (fun v => Mat (BatchGRU.hidden_channels g) (padded_sequence g h_atom batch M v))
       (take k (unique batch))
   ++ replicate (length (unique batch) - k) (zeros2 M (BatchGRU.hidden_channels g)))%list.

Definition packed_states (g : BatchGRU.t T) (h_atom : matrix T) (batch : list nat)
    (k : nat) : list (matrix T) :=
  replicate 2
    (Mat (BatchGRU.hidden_channels g)
       (map (initial_state h_atom batch) (take k (unique batch))
        ++ replicate (length (unique batch) - k) (zeros (BatchGRU.hidden_channels g)))%list).

(** What the recurrent layer returns for the packed batch. *)
Definition gru_outputs (g : BatchGRU.t T) (h_atom : matrix T) (batch : list nat)
    (M : nat) : list (matrix T) :=
  map (fun v => Mat (BatchGRU.hidden_channels g * 2)
                    (BatchGRU.gru_seq g (padded_sequence g h_atom batch M v)
                       (initial_state h_atom batch v) (initial_state h_atom batch v)))
      (unique batch).

(** The state of the unpadding loop after [k] graphs. *)
Definition unpadded (g : BatchGRU.t T) (h_atom : matrix T) (batch : list nat)
    (M k : nat) : matrix T :=
  Mat (BatchGRU.hidden_channels g * 2)
      (imap (fun p b => if decide (b ∈ take k (unique batch))
                        then readout_row g h_atom batch M p b
                        else zeros (BatchGRU.hidden_channels g * 2))
            batch).

End ReadoutVocabulary.

(** ** CMPNN *)

Module CMPNN.
Section Defs.
Context {T : Type} `{Scalar T}.

Inductive conv : Type :=
| ConvE (c : GCNEConv.t T)
| ConvN (c : GCNConv.t T).

(** [atom_proj] and [bond_proj] are a linear layer followed by [ReLU];
    [seq_out] is a linear layer, [ReLU] and [Dropout(p=seq_out_p)]. *)
Record t : Type := {
  in_channels : nat;
  hidden_channels : nat;
  out_channels : nat;
  edge_dim : nat;
  num_layers : Z;
  communicator_name : string;
  dropout_p : Q;
  atom_proj : Linear T;
  bond_proj : Linear T;
  convs : list conv;
  lin : Linear T;
  gru : BatchGRU.t T;
  seq_out : Linear T;
  seq_out_p : Q
}.

(** The values the constructors draw for the parameters.  A supplied weight
    stands for the value left by the last initialiser that writes it. *)
Record init_params : Type := {
  ip_atom_weight : nat -> nat -> T;
  ip_bond_weight : nat -> nat -> T;
  ip_conv : nat -> GCNEConv.init_params T;
  ip_last : GCNConv.init_params T;
  ip_lin_weight : nat -> nat -> T;
  ip_gru : BatchGRU.init_params T;
  ip_seq_weight : nat -> nat -> T;
  ip_bias : nat -> T
}.

(** [_init_weights] on a linear layer: the weight is redrawn, a bias is set
    to the constant 0. *)
Definition _init_weights (l : Linear T) : Linear T :=
  {| in_features := in_features l;
     out_features := out_features l;
     weight := weight l;
     lin_bias := (fun _ => fun _ : nat => szero) <$> lin_bias l |}.

Definition init_communicator (c : NodeEdgeMessageCommunicator.t T)
    : NodeEdgeMessageCommunicator.t T :=
  {| NodeEdgeMessageCommunicator.name := NodeEdgeMessageCommunicator.name c;
     NodeEdgeMessageCommunicator.hidden_channels :=
       NodeEdgeMessageCommunicator.hidden_channels c;
     NodeEdgeMessageCommunicator.communicator :=
       match NodeEdgeMessageCommunicator.communicator c with
       | Some (NodeEdgeMessageCommunicator.SubMlp l) =>
           Some (NodeEdgeMessageCommunicator.SubMlp (_init_weights l))
       | other => other
       end |}.

Definition init_conv (c : conv) : conv :=
  match c with
  | ConvE e =>
      ConvE {| GCNEConv.in_channels := GCNEConv.in_channels e;
               GCNEConv.out_channels := GCNEConv.out_channels e;
               GCNEConv.communicator_name := GCNEConv.communicator_name e;
               GCNEConv.dropout_p := GCNEConv.dropout_p e;
               GCNEConv.communicator := init_communicator (GCNEConv.communicator e);
               GCNEConv.lin := _init_weights (GCNEConv.lin e);
               GCNEConv.aggr_module := GCNEConv.aggr_module e |}
  | ConvN n =>
      ConvN {| GCNConv.in_channels := GCNConv.in_channels n;
               GCNConv.out_channels := GCNConv.out_channels n;
               GCNConv.communicator_name := GCNConv.communicator_name n;
               GCNConv.communicator := init_communicator (GCNConv.communicator n);
               GCNConv.aggr_module := GCNConv.aggr_module n |}
  end.

Definition new_linear (i o : nat) (w : nat -> nat -> T) (b : nat -> T) (bias : bool)
    : Linear T :=
  {| in_features := i; out_features := o; weight := w;
     lin_bias := if bias then Some b else None |}.

Definition __init__ (ip : init_params)
    (in_channels hidden_channels out_channels edge_dim : nat) (num_layers : Z)
    (communicator_name : string) (dropout : Q) (bias : bool) : result t :=
  let atom_proj := new_linear in_channels hidden_channels (ip_atom_weight ip) (ip_bias ip) bias in
  let bond_proj := new_linear edge_dim hidden_channels (ip_bond_weight ip) (ip_bias ip) bias in
  let* convs_e :=
    mapM (fun k => let* c := GCNEConv.__init__ (ip_conv ip k) hidden_channels
                               hidden_channels communicator_name dropout bias in
                   Ok (ConvE c))
         (seq 0 (Z.to_nat (num_layers - 1))) in
  let* last := GCNConv.__init__ (ip_last ip) hidden_channels hidden_channels
                 communicator_name in
  let convs := (convs_e ++ [ConvN last])%list in
  let lin := new_linear (hidden_channels * 3) out_channels (ip_lin_weight ip) (ip_bias ip) bias in
  let* gru := BatchGRU.__init__ (ip_gru ip) hidden_channels in
  let seq_out := new_linear (hidden_channels * 2) hidden_channels (ip_seq_weight ip)
                   (ip_bias ip) true in
  if valid_p dropout then
    Ok {| in_channels := in_channels;
          hidden_channels := hidden_channels;
          out_channels := out_channels;
          edge_dim := edge_dim;
          num_layers := num_layers;
          communicator_name := communicator_name;
          dropout_p := dropout;
          atom_proj := _init_weights atom_proj;
          bond_proj := _init_weights bond_proj;
          convs := map init_conv convs;
          lin := _init_weights lin;
          gru := gru;
          seq_out := _init_weights seq_out;
          seq_out_p := dropout |}
  else Err ValueError.

(** The state of the loop over [self.convs]: [atom_embed], [bond_embed] and
    [aggr_message], which is unbound until the last position is reached. *)
Record loop_state : Type := {
  atom_embed : matrix T;
  bond_embed : matrix T;
  aggr_message : option (matrix T)
}.

(** [training] is [None] in evaluation mode; in training it gives the
    dropout mask drawn at each dropout site. *)
Definition conv_step (training : option (nat -> nat -> nat -> T)) (len : nat)
    (edge_index : Adj) (init_bond_embed : matrix T)
    (st : loop_state) (il : nat * conv) : result loop_state :=
  if decide (il.1 = len - 1) then
    match il.2 with
    | ConvN c =>
        let* a := GCNConv.forward c (atom_embed st) (bond_embed st) edge_index in
        Ok {| atom_embed := atom_embed st; bond_embed := bond_embed st;
              aggr_message := Some a |}
    | ConvE _ => Err TypeError
    end
  else
    match il.2 with
    | ConvE c =>
        let* ab := GCNEConv.forward c ((fun f => f il.1) <$> training)
                     (atom_embed st) (bond_embed st) edge_index init_bond_embed in
        Ok {| atom_embed := ab.1; bond_embed := ab.2;
              aggr_message := aggr_message st |}
    | ConvN _ => Err TypeError
    end.

Definition forward (m : t) (training : option (nat -> nat -> nat -> T))
    (x : matrix T) (edge_index : Adj) (edge_attr : matrix T) (batch : list nat)
    : result (matrix T) :=
  let* a := linear (atom_proj m) x in
  let init_atom_embed := relu a in
  let* b := linear (bond_proj m) edge_attr in
  let init_bond_embed := relu b in
  let* st := foldM (conv_step training (length (convs m)) edge_index init_bond_embed)
               (enumerate (convs m))
               {| atom_embed := init_atom_embed; bond_embed := init_bond_embed;
                  aggr_message := None |} in
  match aggr_message st with
  | None => Err UnboundLocalError
  | Some aggr =>
      let* c := cat1 [aggr; atom_embed st; init_atom_embed] in
      let* h := linear (lin m) c in
      let* h := BatchGRU.forward (gru m) h batch in
      let* o := linear (seq_out m) h in
      dropout (seq_out_p m) ((fun f => f (length (convs m))) <$> training) (relu o)
  end.

End Defs.
Arguments t T : clear implicits.
Arguments init_params T : clear implicits.
End CMPNN.

(** ** Shapes of a well-built model *)

Section Shapes.
Context {T : Type} `{Scalar T}.

(** What is asked of the aggregation module: one row per node, of the
    width of the messages, whenever every message has an index inside
    [dim_size]. *)
Definition aggr_shaped (a : Aggregation T) : Prop :=
  forall (inputs : matrix T) (index : list nat) (dim_size : nat),
    length index = nrows inputs -> Forall (fun i => i < dim_size) index ->
    exists out, a inputs index dim_size = Ok out
                /\ nrows out = dim_size /\ ncols out = ncols inputs.

(** The sizes the constructors give to the parts of a model of hidden width
    [hc]. *)
Definition communicator_shaped (hc : nat) (c : NodeEdgeMessageCommunicator.t T) : Prop :=
  NodeEdgeMessageCommunicator.name c ∈ NodeEdgeMessageCommunicator.names
  /\ (NodeEdgeMessageCommunicator.name c = "gru" ->
      exists g, NodeEdgeMessageCommunicator.communicator c
                = Some (NodeEdgeMessageCommunicator.SubGRUCell g)
                /\ gc_input_size g = hc /\ gc_hidden_size g = hc)
  /\ (NodeEdgeMessageCommunicator.name c = "mlp" ->
      exists l, NodeEdgeMessageCommunicator.communicator c
                = Some (NodeEdgeMessageCommunicator.SubMlp l)
                /\ in_features l = hc * 2 /\ out_features l = hc).

Definition conve_shaped (hc : nat) (e : GCNEConv.t T) : Prop :=
  communicator_shaped hc (GCNEConv.communicator e)
  /\ in_features (GCNEConv.lin e) = hc /\ out_features (GCNEConv.lin e) = hc
  /\ aggr_shaped (GCNEConv.aggr_module e)
  /\ valid_p (GCNEConv.dropout_p e) = true.

Definition convn_shaped (hc : nat) (n : GCNConv.t T) : Prop :=
  communicator_shaped hc (GCNConv.communicator n)
  /\ aggr_shaped (GCNConv.aggr_module n).

Definition shaped (m : CMPNN.t T) : Prop :=
  in_features (CMPNN.atom_proj m) = CMPNN.in_channels m
  /\ out_features (CMPNN.atom_proj m) = CMPNN.hidden_channels m
  /\ in_features (CMPNN.bond_proj m) = CMPNN.edge_dim m
  /\ out_features (CMPNN.bond_proj m) = CMPNN.hidden_channels m
  /\ (exists es n, CMPNN.convs m = (map CMPNN.ConvE es ++ [CMPNN.ConvN n])%list
                   /\ Forall (conve_shaped (CMPNN.hidden_channels m)) es
                   /\ convn_shaped (CMPNN.hidden_channels m) n)
  /\ in_features (CMPNN.lin m) = CMPNN.hidden_channels m * 3
  /\ out_features (CMPNN.lin m) = CMPNN.out_channels m
  /\ BatchGRU.hidden_channels (CMPNN.gru m) = CMPNN.hidden_channels m
  /\ length (BatchGRU.bias (CMPNN.gru m)) = CMPNN.hidden_channels m
  /\ in_features (CMPNN.seq_out m) = CMPNN.hidden_channels m * 2
  /\ out_features (CMPNN.seq_out m) = CMPNN.hidden_channels m
  /\ valid_p (CMPNN.seq_out_p m) = true.

End Shapes.

(** ** PNA *)

Module PNA.
Section Defs.
(** [Tensor] and [Dataloader] are the runtime's; [Instance] is what the
    parent class builds. *)
Context {Tensor Dataloader Instance : Type}.

(** A keyword argument value. *)
Inductive value : Type :=
| VNone
| VInt (z : Z)
| VStr (s : string)
| VTensor (t : Tensor).

(** [PNAConv.get_degree_histogram] and the parent's [__init__]. *)
Variable get_degree_histogram : Dataloader -> Tensor.
Variable super_init : gmap string value -> result Instance.

(** The class attribute [deg], shared by all instances. *)
Record class_state : Type := { deg : option Tensor }.

Definition initial : class_state := {| deg := None |}.

Definition compute_degree (dataloader : Dataloader) (cls : class_state) : class_state :=
  {| deg := Some (get_degree_histogram dataloader) |}.

Definition __init__ (kwargs : gmap string value) (cls : class_state) : result Instance :=
  match deg cls with
  | None =>
      Err (AssertionError
             "`deg` cannot be None. Please call `PNA.compute_degree` before instantiating the class.")
  | Some d => super_init (<["deg" := VTensor d]> kwargs)
  end.

(** A program against the class: the calls, in order; [run] returns the
    final class state and what each construction gave. *)
Inductive call : Type :=
| ComputeDegree (dataloader : Dataloader)
| New (kwargs : gmap string value).

Fixpoint run (calls : list call) (cls : class_state)
    : class_state * list (result Instance) :=
  match calls with
  | [] => (cls, [])
  | ComputeDegree dl :: rest => run rest (compute_degree dl cls)
  | New kwargs :: rest =>
      let r := run rest cls in (r.1, __init__ kwargs cls :: r.2)
  end.

End Defs.
Arguments value Tensor : clear implicits.
Arguments class_state Tensor : clear implicits.
Arguments call Tensor Dataloader : clear implicits.
End PNA.

(** ** Concrete parameters, for evaluating the model on [Z] *)

Module Samples.

Definition ones : nat -> nat -> Z := fun _ _ => 1%Z.
Definition keep_state : row Z -> row Z -> row Z := fun _ h => h.

Definition comm_ip : NodeEdgeMessageCommunicator.init_params Z :=
  {| NodeEdgeMessageCommunicator.ip_gru_step := keep_state;
     NodeEdgeMessageCommunicator.ip_mlp_weight := ones;
     NodeEdgeMessageCommunicator.ip_mlp_bias := fun _ => 0%Z |}.

Definition conve_ip : GCNEConv.init_params Z :=
  {| GCNEConv.ip_communicator := comm_ip;
     GCNEConv.ip_lin_weight := ones;
     GCNEConv.ip_lin_bias := fun _ => 0%Z;
     GCNEConv.ip_aggr := message_booster |}.

Definition convn_ip : GCNConv.init_params Z :=
  {| GCNConv.ip_communicator := comm_ip;
     GCNConv.ip_aggr := message_booster |}.

Definition gru_ip : BatchGRU.init_params Z :=
  {| BatchGRU.ip_gru_fwd := keep_state;
     BatchGRU.ip_gru_bwd := keep_state;
     BatchGRU.ip_bias := fun _ => 0%Z |}.

Definition cmpnn_ip : CMPNN.init_params Z :=
  {| CMPNN.ip_atom_weight := ones;
     CMPNN.ip_bond_weight := ones;
     CMPNN.ip_conv := fun _ => conve_ip;
     CMPNN.ip_last := convn_ip;
     CMPNN.ip_lin_weight := ones;
     CMPNN.ip_gru := gru_ip;
     CMPNN.ip_seq_weight := ones;
     CMPNN.ip_bias := fun _ => 0%Z |}.

(** The layers [GCNEConv(1, 1, 'additive')] and [GCNConv(1, 1, 'additive')]. *)
Definition conve : GCNEConv.t Z :=
  {| GCNEConv.in_channels := 1;
     GCNEConv.out_channels := 1;
     GCNEConv.communicator_name := "additive";
     GCNEConv.dropout_p := 0;
     GCNEConv.communicator :=
       {| NodeEdgeMessageCommunicator.name := "additive";
          NodeEdgeMessageCommunicator.hidden_channels := 1;
          NodeEdgeMessageCommunicator.communicator := None |};
     GCNEConv.lin := {| in_features := 1; out_features := 1; weight := ones;
                        lin_bias := None |};
     GCNEConv.aggr_module := message_booster |}.

Definition convn : GCNConv.t Z :=
  {| GCNConv.in_channels := 1;
     GCNConv.out_channels := 1;
     GCNConv.communicator_name := "additive";
     GCNConv.communicator :=
       {| NodeEdgeMessageCommunicator.name := "additive";
          NodeEdgeMessageCommunicator.hidden_channels := 1;
          NodeEdgeMessageCommunicator.communicator := None |};
     GCNConv.aggr_module := message_booster |}.

(** A readout of width 1 on [Z] whose cells keep their state, and one on [Q]
    whose cells halve it whatever the input: what a recurrent cell computes
    when all its weights and biases are zero (both gates sit at
    sigmoid(0) = 1/2, the candidate state at tanh(0) = 0). *)
Definition readout : BatchGRU.t Z :=
  {| BatchGRU.hidden_channels := 1;
     BatchGRU.gru_fwd := keep_state;
     BatchGRU.gru_bwd := keep_state;
     BatchGRU.bias := [0%Z] |}.

Definition halve : row Q -> row Q -> row Q := fun _ h => map (Qmult (1 # 2)) h.

Definition halving_readout : BatchGRU.t Q :=
  {| BatchGRU.hidden_channels := 1;
     BatchGRU.gru_fwd := halve;
     BatchGRU.gru_bwd := halve;
     BatchGRU.bias := [0%Q] |}.

(** A graph of three nodes (graph 0) packed with a graph of one node
    (graph 1). *)
Definition four_atoms : matrix Q := Mat 1 [[2]; [3]; [5]; [1]]%Q.
Definition three_and_one : list nat := [0; 0; 0; 1].

(** Two atoms joined by one bond: the two directed edges 0 -> 1 and 1 -> 0. *)
Definition two_atoms : matrix Z := Mat 1 [[10]; [20]]%Z.
Definition one_bond : list (nat * nat) := [(0, 1); (1, 0)].
Definition bond_embed : matrix Z := Mat 1 [[1]; [2]]%Z.
Definition bond_init : matrix Z := Mat 1 [[0]; [0]]%Z.

End Samples.

(** ** The linear layers of a model

    The submodules that [self.apply(self._init_weights)] visits and
    rewrites: every [nn.Linear] of the module tree. *)

Section Linears.
Context {T : Type} `{Scalar T}.

Definition communicator_linears (c : NodeEdgeMessageCommunicator.t T) : list (Linear T) :=
  match NodeEdgeMessageCommunicator.communicator c with
  | Some (NodeEdgeMessageCommunicator.SubMlp l) => [l]
  | _ => []
  end.

Definition conv_linears (c : CMPNN.conv) : list (Linear T) :=
  match c with
  | CMPNN.ConvE e => (communicator_linears (GCNEConv.communicator e) ++ [GCNEConv.lin e])%list
  | CMPNN.ConvN n => communicator_linears (GCNConv.communicator n)
  end.

Definition linears (m : CMPNN.t T) : list (Linear T) :=
  ([CMPNN.atom_proj m; CMPNN.bond_proj m]
   ++ flat_map conv_linears (CMPNN.convs m)
   ++ [CMPNN.lin m; CMPNN.seq_out m])%list.

(** A linear layer without a bias, or with a bias that is zero everywhere. *)
Definition zero_or_no_bias (l : Linear T) : Prop :=
  lin_bias l = None \/ lin_bias l = Some (fun _ => szero).

End Linears.

(** ** The earlier variant of the model, [src/litgnn/models/cmpnn/model.py]

    Its communicator and its readout are those above.  Its one kind of
    layer is built with [flow="target_to_source"]: the messages are
    aggregated at [edge_index[0]], and the edge update receives
    [edge_index_i = edge_index[0]] and [edge_index_j = edge_index[1]]. *)

Definition propagate_target_to_source {T} (aggr_module : Aggregation T)
    (update : matrix T -> matrix T -> result (matrix T))
    (edge_index : Adj) (x edge_attr : matrix T) : result (matrix T) :=
  let message := edge_attr in
  let* aggregated := aggr_module message (edge_index.*1) (nrows x) in
  update aggregated x.

Module Legacy.

Module GCNEConv.
Section Defs.
Context {T : Type} `{Scalar T}.

(** [seq] is a linear layer, [ReLU] and [Dropout(p=seq_p)]. *)
Record t : Type := {
  in_channels : nat;
  out_channels : nat;
  communicator_name : string;
  communicator : NodeEdgeMessageCommunicator.t T;
  seq : Linear T;
  seq_p : Q;
  aggr_module : Aggregation T
}.

Record init_params : Type := {
  ip_communicator : NodeEdgeMessageCommunicator.init_params T;
  ip_seq_weight : nat -> nat -> T;
  ip_seq_bias : nat -> T;
  ip_aggr : Aggregation T
}.

Definition __init__ (ip : init_params) (in_channels out_channels : nat)
    (communicator_name : string) (dropout : Q) : result t :=
  let* c := NodeEdgeMessageCommunicator.__init__ (ip_communicator ip)
              communicator_name in_channels in
  if valid_p dropout then
    Ok {| in_channels := in_channels;
          out_channels := out_channels;
          communicator_name := communicator_name;
          communicator := c;
          seq := {| in_features := in_channels;
                    out_features := out_channels;
                    weight := ip_seq_weight ip;
                    lin_bias := Some (ip_seq_bias ip) |};
          seq_p := dropout;
          aggr_module := ip_aggr ip |}
  else Err ValueError.

Definition update (c : t) (message x : matrix T) : result (matrix T) :=
  NodeEdgeMessageCommunicator.forward (communicator c) message x.

Definition edge_update (c : t) (mask : option (nat -> nat -> T))
    (x edge_attr : matrix T) (edge_index_i edge_index_j : list nat)
    : result (matrix T) :=
  let* x_i := index_rows x edge_index_i in
  let* e_j := index_rows edge_attr edge_index_j in
  let* bond_embed := broadcast_matrix ssub x_i e_j in
  let* l := linear (seq c) bond_embed in
  dropout (seq_p c) mask (relu l).

Definition forward (c : t) (mask : option (nat -> nat -> T))
    (x edge_attr : matrix T) (edge_index : Adj) : result (matrix T * matrix T) :=
  let* x := propagate_target_to_source (aggr_module c) (update c) edge_index x edge_attr in
  let* edge_attr := edge_update c mask x edge_attr (edge_index.*1) (edge_index.*2) in
  Ok (x, edge_attr).

End Defs.
Arguments t T : clear implicits.
Arguments init_params T : clear implicits.
End GCNEConv.

Module CMPNN.
Section Defs.
Context {T : Type} `{Scalar T}.

Record t : Type := {
  in_channels : nat;
  hidden_channels : nat;
  out_channels : nat;
  edge_dim : nat;
  num_layers : Z;
  communicator_name : string;
  atom_proj : Linear T;
  bond_proj : Linear T;
  convs : list (GCNEConv.t T);
  lin : Linear T;
  gru : BatchGRU.t T;
  seq_out : Linear T;
  seq_out_p : Q
}.

Record init_params : Type := {
  ip_atom_weight : nat -> nat -> T;
  ip_bond_weight : nat -> nat -> T;
  ip_conv : nat -> GCNEConv.init_params T;
  ip_lin_weight : nat -> nat -> T;
  ip_gru : BatchGRU.init_params T;
  ip_seq_weight : nat -> nat -> T;
  ip_bias : nat -> T
}.

(** [reset_parameters] redraws the parameters and changes no size: a
    supplied value stands for the one it leaves. *)
Definition __init__ (ip : init_params)
    (in_channels hidden_channels out_channels edge_dim : nat) (num_layers : Z)
    (communicator_name : string) (dropout : Q) : result t :=
  let* convs :=
    mapM (fun k => GCNEConv.__init__ (ip_conv ip k) hidden_channels hidden_channels
                     communicator_name dropout)
         (seq 0 (Z.to_nat num_layers)) in
  let* gru := BatchGRU.__init__ (ip_gru ip) hidden_channels in
  if valid_p dropout then
    Ok {| in_channels := in_channels;
          hidden_channels := hidden_channels;
          out_channels := out_channels;
          edge_dim := edge_dim;
          num_layers := num_layers;
          communicator_name := communicator_name;
          atom_proj := {| in_features := in_channels; out_features := hidden_channels;
                          weight := ip_atom_weight ip; lin_bias := Some (ip_bias ip) |};
          bond_proj := {| in_features := edge_dim; out_features := hidden_channels;
                          weight := ip_bond_weight ip; lin_bias := Some (ip_bias ip) |};
          convs := convs;
          lin := {| in_features := hidden_channels * 3; out_features := out_channels;
                    weight := ip_lin_weight ip; lin_bias := Some (ip_bias ip) |};
          gru := gru;
          seq_out := {| in_features := hidden_channels * 2; out_features := hidden_channels;
                        weight := ip_seq_weight ip; lin_bias := Some (ip_bias ip) |};
          seq_out_p := dropout |}
  else Err ValueError.

(** One round of [for layer in self.convs[:-1]]. *)
Definition conv_step (training : option (nat -> nat -> nat -> T)) (edge_index : Adj)
    (st : matrix T * matrix T) (il : nat * GCNEConv.t T) : result (matrix T * matrix T) :=
  GCNEConv.forward il.2 ((fun f => f il.1) <$> training) st.1 st.2 edge_index.

Definition forward (m : t) (training : option (nat -> nat -> nat -> T))
    (x : matrix T) (edge_index : Adj) (edge_attr : matrix T) (batch : list nat)
    : result (matrix T) :=
  let* a := linear (atom_proj m) x in
  let x_proj := relu a in
  let* b := linear (bond_proj m) edge_attr in
  let h_bond := relu b in
  let* st := foldM (conv_step training edge_index)
               (enumerate (take (length (convs m) - 1) (convs m)))
               (x_proj, h_bond) in
  match last (convs m) with
  | None => Err IndexError
  | Some layer =>
      let* r := GCNEConv.forward layer
                  ((fun f => f (length (convs m) - 1)) <$> training) st.1 st.2 edge_index in
      let aggr_message := r.1 in
      let* c := cat1 [aggr_message; st.1; x_proj] in
      let* h := linear (lin m) c in
      let* h := BatchGRU.forward (gru m) h batch in
      let* o := linear (seq_out m) h in
      dropout (seq_out_p m) ((fun f => f (length (convs m))) <$> training) (relu o)
  end.

End Defs.
Arguments t T : clear implicits.
Arguments init_params T : clear implicits.
End CMPNN.

End Legacy.

(** The sizes the constructor of the earlier variant gives a layer of
    hidden width [hc]. *)
Definition legacy_conv_shaped {T} `{Scalar T} (hc : nat) (c : Legacy.GCNEConv.t T) : Prop :=
  communicator_shaped hc (Legacy.GCNEConv.communicator c)
  /\ in_features (Legacy.GCNEConv.seq c) = hc
  /\ out_features (Legacy.GCNEConv.seq c) = hc
  /\ aggr_shaped (Legacy.GCNEConv.aggr_module c)
  /\ valid_p (Legacy.GCNEConv.seq_p c) = true.

(** ** More concrete parameters *)

Module MoreSamples.

(** A cell that returns its input: it tells the input from the state. *)
Definition pass_input : row Z -> row Z -> row Z := fun x _ => x.

Definition gru_comm_ip : NodeEdgeMessageCommunicator.init_params Z :=
  {| NodeEdgeMessageCommunicator.ip_gru_step := pass_input;
     NodeEdgeMessageCommunicator.ip_mlp_weight := fun j k => Z.of_nat (j + 2 * k);
     NodeEdgeMessageCommunicator.ip_mlp_bias := fun _ => 0%Z |}.

Definition legacy_conv_ip : Legacy.GCNEConv.init_params Z :=
  {| Legacy.GCNEConv.ip_communicator := Samples.comm_ip;
     Legacy.GCNEConv.ip_seq_weight := Samples.ones;
     Legacy.GCNEConv.ip_seq_bias := fun _ => 0%Z;
     Legacy.GCNEConv.ip_aggr := message_booster |}.

Definition legacy_ip : Legacy.CMPNN.init_params Z :=
  {| Legacy.CMPNN.ip_atom_weight := Samples.ones;
     Legacy.CMPNN.ip_bond_weight := Samples.ones;
     Legacy.CMPNN.ip_conv := fun _ => legacy_conv_ip;
     Legacy.CMPNN.ip_lin_weight := Samples.ones;
     Legacy.CMPNN.ip_gru := Samples.gru_ip;
     Legacy.CMPNN.ip_seq_weight := Samples.ones;
     Legacy.CMPNN.ip_bias := fun _ => 0%Z |}.

(** A chain of three atoms 0 - 1 - 2: the directed edges 0->1, 1->0, 1->2,
    2->1, with embeddings 1, 2, 3, 4. *)
Definition three_atoms : matrix Z := Mat 1 [[10]; [20]; [30]]%Z.
Definition chain : list (nat * nat) := [(0, 1); (1, 0); (1, 2); (2, 1)].
Definition chain_embed : matrix Z := Mat 1 [[1]; [2]; [3]; [4]]%Z.

(** The model [CMPNN(1, 1, 1, 1, num_layers=2, 'additive')] with all weights
    one: an edge-updating layer followed by the final layer. *)
Definition two_layer_model : CMPNN.t Z :=
  {| CMPNN.in_channels := 1;
     CMPNN.hidden_channels := 1;
     CMPNN.out_channels := 1;
     CMPNN.edge_dim := 1;
     CMPNN.num_layers := 2;
     CMPNN.communicator_name := "additive";
     CMPNN.dropout_p := 0;
     CMPNN.atom_proj := {| in_features := 1; out_features := 1; weight := Samples.ones;
                           lin_bias := None |};
     CMPNN.bond_proj := {| in_features := 1; out_features := 1; weight := Samples.ones;
                           lin_bias := None |};
     CMPNN.convs := [CMPNN.ConvE Samples.conve; CMPNN.ConvN Samples.convn];
     CMPNN.lin := {| in_features := 3; out_features := 1; weight := Samples.ones;
                     lin_bias := None |};
     CMPNN.gru := Samples.readout;
     CMPNN.seq_out := {| in_features := 2; out_features := 1; weight := Samples.ones;
                         lin_bias := Some (fun _ => 0%Z) |};
     CMPNN.seq_out_p := 0 |}.

(** The layer [GCNEConv(1, 1, 'additive')] of the earlier variant, with all
    weights one and a zero bias. *)
Definition legacy_conv : Legacy.GCNEConv.t Z :=
  {| Legacy.GCNEConv.in_channels := 1;
     Legacy.GCNEConv.out_channels := 1;
     Legacy.GCNEConv.communicator_name := "additive";
     Legacy.GCNEConv.communicator :=
       {| NodeEdgeMessageCommunicator.name := "additive";
          NodeEdgeMessageCommunicator.hidden_channels := 1;
          NodeEdgeMessageCommunicator.communicator := None |};
     Legacy.GCNEConv.seq := {| in_features := 1; out_features := 1; weight := Samples.ones;
                               lin_bias := Some (fun _ => 0%Z) |};
     Legacy.GCNEConv.seq_p := 0;
     Legacy.GCNEConv.aggr_module := message_booster |}.

End MoreSamples.

(** * Properties *)

Local Close Scope string_scope.

(** ** Generic facts about the tensor operations *)

Section TensorFacts.
Context {T : Type} `{Scalar T}.

Lemma expand_same {A} (n : nat) (l : list A) : expand n n l = l.
Proof. unfold expand. rewrite decide_True; reflexivity. Qed.

Lemma bsize_same (n : nat) : bsize n n = Ok n.
Proof. unfold bsize. rewrite decide_True; reflexivity. Qed.

Lemma to_size_same (n : nat) : to_size n n = Ok n.
Proof. unfold to_size. rewrite decide_True; reflexivity. Qed.

Lemma zip_with_expand_rows (op : T -> T -> T) (c : nat) (A B : list (row T)) :
  zip_with (fun a b => zip_with op (expand c c a) (expand c c b)) A B
  = zip_with (zip_with op) A B.
Proof.
  revert B. induction A as [|a A IH]; intros [|b B]; simpl; try reflexivity.
  rewrite !expand_same, IH. reflexivity.
Qed.

(** Two tensors of the same shape are combined entry by entry. *)
Lemma broadcast_matrix_same_shape (op : T -> T -> T) (A B : matrix T) :
  ncols A = ncols B -> nrows A = nrows B ->
  broadcast_matrix op A B = Ok (Mat (ncols A) (zip_with (zip_with op) (rows A) (rows B))).
Proof.
  intros Hc Hn. unfold broadcast_matrix.
  rewrite <- Hc, <- Hn, !bsize_same. simpl.
  rewrite !expand_same, zip_with_expand_rows. reflexivity.
Qed.

Lemma wfb_wf (A : matrix T) : wfb A = true -> wf A.
Proof.
  unfold wfb, wf. rewrite forallb_forall, Forall_forall.
  intros HA r Hr. apply Nat.eqb_eq, HA. apply list_elem_of_In, Hr.
Qed.

End TensorFacts.

(** ** The reverse-edge index *)

Lemma fold_left_extend {A B} (f : B -> list A) (l : list B) (acc : list A) :
  fold_left (fun l i => (l ++ f i)%list) l acc = (acc ++ flat_map f l)%list.
Proof.
  revert acc. induction l as [|b l IH]; intros acc; simpl.
  - rewrite app_nil_r. reflexivity.
  - rewrite IH, <- app_assoc. reflexivity.
Qed.

Lemma get_reverse_edge_index_flat_map (num_edges : nat) :
  GCNEConv.get_reverse_edge_index num_edges
  = flat_map (fun i => [i * 2 + 1; i * 2]) (seq 0 (num_edges / 2)).
Proof.
  unfold GCNEConv.get_reverse_edge_index.
  exact (fold_left_extend (fun i => [i * 2 + 1; i * 2]) _ []).
Qed.

Lemma reverse_pairs_length (s m : nat) :
  length (flat_map (fun i => [i * 2 + 1; i * 2]) (seq s m)) = 2 * m.
Proof. revert s. induction m as [|m IH]; intros s; simpl; [|rewrite IH]; lia. Qed.

Lemma reverse_pairs_lookup (s m k : nat) :
  k < m ->
  flat_map (fun i => [i * 2 + 1; i * 2]) (seq s m) !! (2 * k) = Some (2 * (s + k) + 1)
  /\ flat_map (fun i => [i * 2 + 1; i * 2]) (seq s m) !! (2 * k + 1) = Some (2 * (s + k)).
Proof.
  revert s k. induction m as [|m IH]; intros s k Hk; [lia|].
  destruct k as [|k].
  - simpl. split; f_equal; lia.
  - replace (2 * S k) with (S (S (2 * k))) by lia.
    replace (S (S (2 * k)) + 1) with (S (S (2 * k + 1))) by lia.
    simpl. destruct (IH (S s) k) as [IH1 IH2]; [lia|].
    replace (k + (k + 0)) with (2 * k) by lia.
    rewrite IH1, IH2. split; f_equal; lia.
Qed.

Lemma get_reverse_edge_index_length (num_edges : nat) :
  length (GCNEConv.get_reverse_edge_index num_edges) = 2 * (num_edges / 2).
Proof. rewrite get_reverse_edge_index_flat_map. apply reverse_pairs_length. Qed.

Lemma get_reverse_edge_index_lookup (num_edges k : nat) :
  2 * k + 1 < num_edges ->
  GCNEConv.get_reverse_edge_index num_edges !! (2 * k) = Some (2 * k + 1)
  /\ GCNEConv.get_reverse_edge_index num_edges !! (2 * k + 1) = Some (2 * k).
Proof.
  intros Hk. rewrite get_reverse_edge_index_flat_map.
  assert (k < num_edges / 2) as Hlt.
  { apply Nat.div_le_lower_bound; lia. }
  destruct (reverse_pairs_lookup 0 _ k Hlt) as [H1 H2].
  rewrite H1, H2. split; f_equal; lia.
Qed.

Lemma get_reverse_edge_index_mate (num_edges e : nat) :
  Nat.Even num_edges -> e < num_edges ->
  GCNEConv.get_reverse_edge_index num_edges !! e = Some (mate e).
Proof.
  intros [m ->] He. unfold mate.
  destruct (Nat.even e) eqn:Hev.
  - apply Nat.even_spec in Hev as [k ->].
    destruct (get_reverse_edge_index_lookup (2 * m) k) as [H1 _]; [lia|]. exact H1.
  - assert (Nat.odd e = true) as Hod by (rewrite <- Nat.negb_even, Hev; reflexivity).
    apply Nat.odd_spec in Hod as [k ->].
    destruct (get_reverse_edge_index_lookup (2 * m) k) as [_ H2]; [lia|].
    rewrite H2. f_equal. lia.
Qed.

Lemma mate_spec (e : nat) : mate e <> e /\ mate (mate e) = e
  /\ (forall k, mate (2 * k) = 2 * k + 1 /\ mate (2 * k + 1) = 2 * k).
Proof.
  assert (forall k, mate (2 * k) = 2 * k + 1 /\ mate (2 * k + 1) = 2 * k) as Hk.
  { intros k.
    assert (Nat.even (2 * k) = true) as H0 by (rewrite Nat.even_mul; reflexivity).
    assert (Nat.even (2 * k + 1) = false) as H1
      by (rewrite Nat.even_add, Nat.even_mul; reflexivity).
    unfold mate. rewrite H0, H1. split; lia. }
  split; [|split]; [| |exact Hk].
  - unfold mate. destruct (Nat.even e) eqn:Hev; [lia|].
    destruct e; [discriminate|lia].
  - destruct (Nat.even e) eqn:Hev.
    + apply Nat.even_spec in Hev as [k ->].
      destruct (Hk k) as [-> ->]. reflexivity.
    + assert (Nat.odd e = true) as Hod by (rewrite <- Nat.negb_even, Hev; reflexivity).
      apply Nat.odd_spec in Hod as [k ->].
      destruct (Hk k) as [H1 H2]. rewrite H2, H1. reflexivity.
Qed.

Lemma mate_lt (num_edges e : nat) : Nat.Even num_edges -> e < num_edges -> mate e < num_edges.
Proof.
  intros [m ->] He. unfold mate. destruct (Nat.even e) eqn:Hev; [|lia].
  apply Nat.even_spec in Hev as [k ->]. lia.
Qed.

Lemma mapM_ok_map {A B} (f : A -> result B) (g : A -> B) (l : list A) :
  Forall (fun a => f a = Ok (g a)) l -> mapM f l = Ok (map g l).
Proof.
  induction 1 as [|a l Ha _ IH]; simpl; [reflexivity|].
  rewrite Ha, IH. reflexivity.
Qed.

Lemma index_rows_ok {T} (A : matrix T) (idx : list nat) :
  Forall (fun i => i < nrows A) idx ->
  index_rows A idx = Ok (Mat (ncols A) (map (fun i => default [] (rows A !! i)) idx)).
Proof.
  intros Hidx. unfold index_rows.
  rewrite (mapM_ok_map _ (fun i => default [] (rows A !! i))); [reflexivity|].
  eapply Forall_impl; [exact Hidx|]. intros i Hi. simpl in Hi.
  destruct (lookup_lt_is_Some_2 (rows A) i Hi) as [r Hr]. cbn beta.
  rewrite Hr. reflexivity.
Qed.

Lemma index_rows_ok_lookup {T} (A : matrix T) (idx : list nat) (e i : nat) :
  i < nrows A -> idx !! e = Some i ->
  map (fun i => default [] (rows A !! i)) idx !! e = rows A !! i.
Proof.
  intros Hi He. rewrite list_lookup_fmap, He. simpl.
  destruct (lookup_lt_is_Some_2 (rows A) i Hi) as [r ->]. reflexivity.
Qed.

Lemma get_reverse_edge_index_lt (num_edges : nat) :
  Forall (fun i => i < num_edges) (GCNEConv.get_reverse_edge_index num_edges).
Proof.
  rewrite get_reverse_edge_index_flat_map. apply Forall_forall. intros i Hi.
  apply list_elem_of_In, in_flat_map in Hi as (k & Hk & Hi).
  apply in_seq in Hk.
  assert (2 * (num_edges / 2) <= num_edges) by (apply Nat.Div0.mul_div_le).
  simpl in Hi. destruct Hi as [<-|[<-|[]]]; lia.
Qed.

(** ** The communicator *)

Lemma communicator_init_ok {T} `{Scalar T} (ip : NodeEdgeMessageCommunicator.init_params T)
    (name : string) (hc : nat) :
  name ∈ NodeEdgeMessageCommunicator.names ->
  exists c, NodeEdgeMessageCommunicator.__init__ ip name hc = Ok c
            /\ NodeEdgeMessageCommunicator.name c = name.
Proof.
  intros Hn. unfold NodeEdgeMessageCommunicator.__init__.
  rewrite decide_True by exact Hn. eexists. split; reflexivity.
Qed.

Lemma communicator_init_err {T} `{Scalar T} (ip : NodeEdgeMessageCommunicator.init_params T)
    (name : string) (hc : nat) :
  name ∉ NodeEdgeMessageCommunicator.names ->
  NodeEdgeMessageCommunicator.__init__ ip name hc
  = Err (AssertionError ("Invalid communicator '" ++ name ++ "'!")).
Proof.
  intros Hn. unfold NodeEdgeMessageCommunicator.__init__.
  rewrite decide_False by exact Hn. reflexivity.
Qed.

(** C8: on inputs of equal shape the communicator built with policy
    'additive' returns the elementwise sum of hidden state and message, and
    the one built with 'inner_product' their elementwise product. *)
Theorem communicator_additive_inner_product {T} `{Scalar T}
    (ip : NodeEdgeMessageCommunicator.init_params T) (hc : nat)
    (message hidden : matrix T) :
  ncols message = ncols hidden -> nrows message = nrows hidden ->
  (exists c, NodeEdgeMessageCommunicator.__init__ ip "additive" hc = Ok c
     /\ NodeEdgeMessageCommunicator.forward c message hidden
        = Ok (Mat (ncols hidden) (zip_with (zip_with sadd) (rows hidden) (rows message))))
  /\ (exists c, NodeEdgeMessageCommunicator.__init__ ip "inner_product" hc = Ok c
     /\ NodeEdgeMessageCommunicator.forward c message hidden
        = Ok (Mat (ncols hidden) (zip_with (zip_with smul) (rows hidden) (rows message)))).
Proof.
  intros Hc Hn. split.
  - eexists. split; [reflexivity|].
    unfold NodeEdgeMessageCommunicator.forward. simpl.
    apply broadcast_matrix_same_shape; auto.
  - eexists. split; [reflexivity|].
    unfold NodeEdgeMessageCommunicator.forward. simpl.
    apply broadcast_matrix_same_shape; auto.
Qed.

Lemma communicator_additive_inner_product_witness :
  (exists c, NodeEdgeMessageCommunicator.__init__ Samples.comm_ip "additive" 2 = Ok c
     /\ NodeEdgeMessageCommunicator.forward c (Mat 2 [[1; 1]]) (Mat 2 [[2; 3]])
        = Ok (Mat 2 [[3; 4]]))%Z
  /\ (exists c, NodeEdgeMessageCommunicator.__init__ Samples.comm_ip "inner_product" 2 = Ok c
     /\ NodeEdgeMessageCommunicator.forward c (Mat 2 [[1; 1]]) (Mat 2 [[2; 3]])
        = Ok (Mat 2 [[2; 3]]))%Z.
Proof.
  exact (communicator_additive_inner_product Samples.comm_ip 2
           (Mat 2 [[1; 1]]%Z) (Mat 2 [[2; 3]]%Z) eq_refl eq_refl).
Defined.

(** ** PNA: the class-level degree histogram *)

Lemma pna_run_new {Tensor Dataloader Instance : Type}
    (hist : Dataloader -> Tensor) (super_init : gmap string (PNA.value Tensor) -> result Instance)
    (ks : list (gmap string (PNA.value Tensor))) (cls : PNA.class_state Tensor) :
  PNA.run hist super_init (map PNA.New ks) cls
  = (cls, map (fun kw => PNA.__init__ super_init kw cls) ks).
Proof.
  induction ks as [|kw ks IH]; simpl; [reflexivity|].
  rewrite IH. reflexivity.
Qed.

(** C10: before [compute_degree] every construction fails on the assertion;
    after one call of [compute_degree] every later construction hands the
    cached histogram to the parent constructor as its [deg] argument,
    whatever the caller passed under that key, and leaves the cache as it
    is. *)
Theorem pna_degree_histogram {Tensor Dataloader Instance : Type}
    (hist : Dataloader -> Tensor)
    (super_init : gmap string (PNA.value Tensor) -> result Instance) :
  (forall ks : list (gmap string (PNA.value Tensor)),
      (PNA.run hist super_init (map PNA.New ks) PNA.initial).2
      = map (fun _ => Err (AssertionError
               "`deg` cannot be None. Please call `PNA.compute_degree` before instantiating the class."))
            ks)
  /\ (forall (dl : Dataloader) (ks : list (gmap string (PNA.value Tensor))),
        let r := PNA.run hist super_init (PNA.ComputeDegree dl :: map PNA.New ks) PNA.initial in
        PNA.deg r.1 = Some (hist dl)
        /\ r.2 = map (fun kw => super_init (<["deg" := PNA.VTensor (hist dl)]> kw)) ks)
  /\ (forall (dl : Dataloader) (kw : gmap string (PNA.value Tensor)),
        (<["deg" := PNA.VTensor (hist dl)]> kw) !! "deg" = Some (PNA.VTensor (hist dl))).
Proof.
  split; [|split].
  - intros ks. rewrite pna_run_new. reflexivity.
  - intros dl ks. simpl. rewrite pna_run_new. split; reflexivity.
  - intros dl kw. apply lookup_insert_eq.
Qed.

(** ** Construction of the model *)

Lemma mapM_all_err {A B} (f : A -> result B) (e : error) (l : list A) :
  (forall a, f a = Err e) -> mapM f l = Ok [] \/ mapM f l = Err e.
Proof.
  intros Hf. destruct l as [|a l]; simpl; [left; reflexivity|].
  rewrite Hf. right; reflexivity.
Qed.

Lemma mapM_all_ok_length {A B} (f : A -> result B) (l : list A) :
  (forall a, exists b, f a = Ok b) -> exists bs, mapM f l = Ok bs /\ length bs = length l.
Proof.
  intros Hf. induction l as [|a l (bs & Hbs & Hlen)]; simpl.
  - exists []. split; reflexivity.
  - destruct (Hf a) as [b ->]. rewrite Hbs. simpl.
    exists (b :: bs). split; [reflexivity|]. simpl. rewrite Hlen. reflexivity.
Qed.

Lemma cmpnn_init_invalid_name {T} `{Scalar T} (ip : CMPNN.init_params T)
    (in_channels hidden_channels out_channels edge_dim : nat) (num_layers : Z)
    (communicator_name : string) (dropout : Q) (bias : bool) :
  communicator_name ∉ NodeEdgeMessageCommunicator.names ->
  CMPNN.__init__ ip in_channels hidden_channels out_channels edge_dim num_layers
    communicator_name dropout bias
  = Err (AssertionError ("Invalid communicator '" ++ communicator_name ++ "'!")).
Proof.
  intros Hn. unfold CMPNN.__init__.
  match goal with
  | |- bind (mapM ?f ?l) _ = Err ?e =>
      destruct (mapM_all_err f e l) as [-> | ->]; [|simpl|reflexivity]
  end.
  - intros k. unfold GCNEConv.__init__.
    rewrite communicator_init_err by exact Hn. reflexivity.
  - unfold GCNConv.__init__.
    rewrite communicator_init_err by exact Hn. reflexivity.
Qed.

Lemma cmpnn_init_valid_name {T} `{Scalar T} (ip : CMPNN.init_params T)
    (in_channels hidden_channels out_channels edge_dim : nat) (num_layers : Z)
    (communicator_name : string) (dropout : Q) (bias : bool) :
  communicator_name ∈ NodeEdgeMessageCommunicator.names ->
  hidden_channels <> 0 -> valid_p dropout = true ->
  exists m, CMPNN.__init__ ip in_channels hidden_channels out_channels edge_dim num_layers
              communicator_name dropout bias = Ok m
            /\ length (CMPNN.convs m) = Z.to_nat (num_layers - 1) + 1.
Proof.
  intros Hn Hh Hp. unfold CMPNN.__init__.
  match goal with
  | |- context [bind (mapM ?f ?l) _] =>
      destruct (mapM_all_ok_length f l) as (cs & -> & Hlen)
  end.
  { intros k. unfold GCNEConv.__init__.
    destruct (communicator_init_ok (GCNEConv.ip_communicator (CMPNN.ip_conv ip k))
                communicator_name hidden_channels Hn) as (c & -> & _).
    simpl. eexists. reflexivity. }
  simpl. unfold GCNConv.__init__.
  destruct (communicator_init_ok (GCNConv.ip_communicator (CMPNN.ip_last ip))
              communicator_name hidden_channels Hn) as (c & -> & _).
  simpl. unfold BatchGRU.__init__. rewrite decide_False by exact Hh. simpl.
  rewrite Hp. eexists. split; [reflexivity|]. simpl.
  rewrite length_map, length_app, Hlen, length_seq. reflexivity.
Qed.

Lemma init_convs_edge_updating {T} `{Scalar T} (hc : nat) (name : string) (p : Q) (bias : bool)
    (ipc : nat -> GCNEConv.init_params T) (ks : list nat) (cs : list CMPNN.conv) :
  mapM (fun k => let* c := GCNEConv.__init__ (ipc k) hc hc name p bias in
                 Ok (CMPNN.ConvE c)) ks = Ok cs ->
  exists es, map CMPNN.init_conv cs = map CMPNN.ConvE es /\ length es = length ks.
Proof.
  revert cs. induction ks as [|k ks IH]; intros cs; simpl.
  - intros [= <-]. exists []. split; reflexivity.
  - destruct (GCNEConv.__init__ (ipc k) hc hc name p bias) as [e|err]; simpl;
      [|discriminate].
    destruct (mapM _ ks) as [cs'|err]; simpl; [|discriminate].
    intros [= <-]. destruct (IH cs' eq_refl) as (es & Hmap & Hlen).
    eexists (_ :: es). split.
    + simpl. rewrite Hmap. reflexivity.
    + simpl. rewrite Hlen. reflexivity.
Qed.

(** C6 (as the code has it): construction fails on the assertion whenever
    [communicator_name] is not one of the four policies; [num_layers] is
    never checked: for a valid policy name, a non-zero hidden width and a
    dropout probability in [0,1], construction succeeds for every integer
    [num_layers], also below 1, and the stack holds
    [max(num_layers - 1, 0)] edge-updating layers followed by the final
    layer. *)
Theorem cmpnn_init_checks_name_only {T} `{Scalar T} (ip : CMPNN.init_params T)
    (in_channels hidden_channels out_channels edge_dim : nat) (num_layers : Z)
    (communicator_name : string) (dropout : Q) (bias : bool) :
  (communicator_name ∉ NodeEdgeMessageCommunicator.names ->
   CMPNN.__init__ ip in_channels hidden_channels out_channels edge_dim num_layers
     communicator_name dropout bias
   = Err (AssertionError ("Invalid communicator '" ++ communicator_name ++ "'!")))
  /\ (communicator_name ∈ NodeEdgeMessageCommunicator.names ->
      hidden_channels <> 0 -> valid_p dropout = true ->
      exists m, CMPNN.__init__ ip in_channels hidden_channels out_channels edge_dim
                  num_layers communicator_name dropout bias = Ok m
                /\ length (CMPNN.convs m) = Z.to_nat (num_layers - 1) + 1
                /\ exists es n,
                     CMPNN.convs m = (map CMPNN.ConvE es ++ [CMPNN.ConvN n])%list
                     /\ length es = Z.to_nat (Z.max (num_layers - 1) 0)).
Proof.
  split.
  - apply cmpnn_init_invalid_name.
  - intros Hn Hh Hp.
    destruct (cmpnn_init_valid_name ip in_channels hidden_channels out_channels edge_dim
                num_layers communicator_name dropout bias Hn Hh Hp) as (m & Hm & Hlen).
    exists m. split; [exact Hm|]. split; [exact Hlen|].
    revert Hm. unfold CMPNN.__init__.
    destruct (mapM _ (seq 0 (Z.to_nat (num_layers - 1)))) as [cs|err] eqn:Hcs;
      simpl; [|discriminate].
    destruct (GCNConv.__init__ _ hidden_channels hidden_channels communicator_name)
      as [n|err]; simpl; [|discriminate].
    destruct (BatchGRU.__init__ _ hidden_channels) as [g|err]; simpl; [|discriminate].
    rewrite Hp. intros [= <-]. simpl.
    destruct (init_convs_edge_updating _ _ _ _ _ _ _ Hcs) as (es & Hmap & Hes).
    exists es. eexists. split.
    + rewrite map_app, Hmap. reflexivity.
    + rewrite Hes, length_seq. lia.
Qed.

Lemma cmpnn_init_checks_name_only_witness :
  CMPNN.__init__ Samples.cmpnn_ip 1 2 2 1 3 "sum" 0 false
  = Err (AssertionError "Invalid communicator 'sum'!")
  /\ exists m, CMPNN.__init__ Samples.cmpnn_ip 1 2 2 1 3 "gru" 0 false = Ok m
               /\ length (CMPNN.convs m) = 3
               /\ exists es n,
                    CMPNN.convs m = (map CMPNN.ConvE es ++ [CMPNN.ConvN n])%list
                    /\ length es = 2.
Proof.
  split.
  - apply (proj1 (cmpnn_init_checks_name_only Samples.cmpnn_ip 1 2 2 1 3 "sum" 0 false)).
    vm_compute. intros Hin. repeat (apply elem_of_cons in Hin as [Hin|Hin]; [discriminate|]).
    inversion Hin.
  - apply (proj2 (cmpnn_init_checks_name_only Samples.cmpnn_ip 1 2 2 1 3 "gru" 0 false)).
    + vm_compute. do 2 apply list_elem_of_further. apply list_elem_of_here.
    + discriminate.
    + reflexivity.
Defined.

(** C6, the claim as stated fails: with a valid policy name, a layer count
    below 1 is accepted. *)
Lemma cmpnn_init_accepts_zero_layers :
  ~ (forall (ip : CMPNN.init_params Z)
        (in_channels hidden_channels out_channels edge_dim : nat) (num_layers : Z)
        (communicator_name : string) (dropout : Q) (bias : bool),
        (num_layers < 1)%Z ->
        is_ok (CMPNN.__init__ ip in_channels hidden_channels out_channels edge_dim
                 num_layers communicator_name dropout bias) = false).
Proof.
  intros Hclaim.
  specialize (Hclaim Samples.cmpnn_ip 1 2 2 1 0%Z "additive" 0%Q false eq_refl).
  vm_compute in Hclaim. discriminate.
Qed.

(** ** The edge update *)

Section EdgeUpdate.
Context {T : Type} `{Scalar T}.

Lemma mapM_ok_Forall2 {A B} (f : A -> result B) (l : list A) (bs : list B) :
  mapM f l = Ok bs -> Forall2 (fun a b => f a = Ok b) l bs.
Proof.
  revert bs. induction l as [|a l IH]; intros bs; simpl.
  - intros [= <-]. constructor.
  - destruct (f a) as [b|e] eqn:Hfa; simpl; [|discriminate].
    destruct (mapM f l) as [bs'|e]; simpl; [|discriminate].
    intros [= <-]. constructor; [exact Hfa|]. apply IH. reflexivity.
Qed.

Lemma index_rows_shape (A R : matrix T) (idx : list nat) :
  index_rows A idx = Ok R -> nrows R = length idx /\ ncols R = ncols A.
Proof.
  unfold index_rows. destruct (mapM _ idx) as [rs|e] eqn:Hrs; simpl; [|discriminate].
  intros [= <-]. apply mapM_ok_Forall2, Forall2_length in Hrs.
  split; [symmetry; exact Hrs|reflexivity].
Qed.

Lemma wf_gather (A : matrix T) (idx : list nat) :
  wf A -> Forall (fun i => i < nrows A) idx ->
  Forall (fun r => length r = ncols A) (map (fun i => default [] (rows A !! i)) idx).
Proof.
  intros HA Hidx. apply Forall_fmap. eapply Forall_impl; [exact Hidx|].
  intros i Hi. simpl in *.
  destruct (lookup_lt_is_Some_2 (rows A) i Hi) as [r Hr]. rewrite Hr. simpl.
  exact (Forall_lookup_1 _ _ _ _ HA Hr).
Qed.

Lemma linear_ok (l : Linear T) (A : matrix T) :
  ncols A = in_features l ->
  linear l A = Ok (Mat (out_features l) (map (linear_row l) (rows A))).
Proof. intros Hc. unfold linear. rewrite decide_True by exact Hc. reflexivity. Qed.

Lemma linear_row_length (l : Linear T) (r : row T) :
  length (linear_row l r) = out_features l.
Proof. unfold linear_row. rewrite length_map, length_seq. reflexivity. Qed.

Lemma apply_mask_lookup (mask : option (nat -> nat -> T)) (A : matrix T) (e : nat) :
  rows (apply_mask mask A) !! e = mask_row mask e <$> rows A !! e.
Proof.
  destruct mask as [m|]; simpl.
  - apply list_lookup_imap.
  - destruct (rows A !! e); reflexivity.
Qed.

Lemma apply_mask_shape (mask : option (nat -> nat -> T)) (A : matrix T) :
  nrows (apply_mask mask A) = nrows A /\ ncols (apply_mask mask A) = ncols A.
Proof.
  destruct mask as [m|]; simpl; [|split; reflexivity].
  unfold nrows. simpl. rewrite length_imap. split; reflexivity.
Qed.

Lemma even_reverse_length (E : nat) :
  Nat.Even E -> length (GCNEConv.get_reverse_edge_index E) = E.
Proof.
  intros [m ->]. rewrite get_reverse_edge_index_length.
  rewrite (Nat.mul_comm 2 m), Nat.div_mul by lia. lia.
Qed.

(** The result of the edge update on well-shaped inputs with an even number
    of edges, before the rows are read off. *)
Lemma edge_update_even (c : GCNEConv.t T) (mask : option (nat -> nat -> T))
    (x : matrix T) (edge_index : Adj) (edge_attr init_edge_embed : matrix T) :
  Nat.Even (nrows edge_attr) ->
  length edge_index = nrows edge_attr ->
  Forall (fun e => e.1 < nrows x) edge_index ->
  ncols x = in_features (GCNEConv.lin c) ->
  ncols edge_attr = in_features (GCNEConv.lin c) ->
  nrows init_edge_embed = nrows edge_attr ->
  ncols init_edge_embed = out_features (GCNEConv.lin c) ->
  valid_p (GCNEConv.dropout_p c) = true ->
  GCNEConv.edge_update c mask x edge_index edge_attr init_edge_embed
  = Ok (apply_mask mask (relu (Mat (out_features (GCNEConv.lin c))
         (zip_with (zip_with sadd) (rows init_edge_embed)
            (map (linear_row (GCNEConv.lin c))
               (zip_with (zip_with ssub)
                  (map (fun i => default [] (rows x !! i)) (edge_index.*1))
                  (map (fun i => default [] (rows edge_attr !! i))
                     (GCNEConv.get_reverse_edge_index (nrows edge_attr))))))))).
Proof.
  intros HE Hlen Hsrc Hcx Hcea Hninit Hcinit Hp.
  assert (Forall (fun i => i < nrows x) (edge_index.*1)) as Hsrc'.
  { apply Forall_fmap. exact Hsrc. }
  pose proof (get_reverse_edge_index_lt (nrows edge_attr)) as Hrev.
  unfold GCNEConv.edge_update.
  rewrite (index_rows_ok x _ Hsrc'), (index_rows_ok edge_attr _ Hrev). simpl.
  rewrite broadcast_matrix_same_shape; simpl.
  2: congruence.
  2: { unfold nrows. simpl. rewrite ?length_map, ?length_fmap.
       rewrite even_reverse_length by exact HE. exact Hlen. }
  rewrite linear_ok by (simpl; exact Hcx). simpl.
  rewrite broadcast_matrix_same_shape; simpl.
  2: exact Hcinit.
  2: { unfold nrows in *. simpl.
       rewrite length_map, length_zip_with, ?length_map, ?length_fmap.
       rewrite even_reverse_length by exact HE. lia. }
  unfold dropout. rewrite Hp, Hcinit. reflexivity.
Qed.

End EdgeUpdate.

(** The edge update on well-shaped inputs with an even number of edges: the
    shape of the result and its rows, the node embedding being read at the
    first entry of each edge. *)
Lemma edge_update_rows_at_src {T} `{Scalar T}
    (c : GCNEConv.t T) (mask : option (nat -> nat -> T))
    (x : matrix T) (edge_index : Adj) (edge_attr init_edge_embed : matrix T) :
  Nat.Even (nrows edge_attr) ->
  length edge_index = nrows edge_attr ->
  Forall (fun e => e.1 < nrows x) edge_index ->
  ncols x = in_features (GCNEConv.lin c) ->
  ncols edge_attr = in_features (GCNEConv.lin c) ->
  nrows init_edge_embed = nrows edge_attr ->
  ncols init_edge_embed = out_features (GCNEConv.lin c) ->
  valid_p (GCNEConv.dropout_p c) = true ->
  exists out,
    GCNEConv.edge_update c mask x edge_index edge_attr init_edge_embed = Ok out
    /\ nrows out = nrows edge_attr
    /\ ncols out = out_features (GCNEConv.lin c)
    /\ forall e, e < nrows edge_attr ->
         is_Some (rows out !! e)
         /\ rows out !! e
            = GCNEConv.edge_row_at_src c mask x edge_index edge_attr init_edge_embed e.
Proof.
  intros HE Hlen Hsrc Hcx Hcea Hninit Hcinit Hp.
  eexists. split; [apply edge_update_even; assumption|].
  split; [|split].
  - rewrite (proj1 (apply_mask_shape _ _)). unfold nrows in *. simpl.
    rewrite length_map, length_zip_with, length_map, length_zip_with,
      ?length_map, ?length_fmap.
    rewrite even_reverse_length by exact HE. lia.
  - rewrite (proj2 (apply_mask_shape _ _)). reflexivity.
  - intros e He.
    destruct (lookup_lt_is_Some_2 edge_index e) as [[src dst] Hsd]; [lia|].
    pose proof (Forall_lookup_1 _ _ _ _ Hsrc Hsd) as Hlt. simpl in Hlt.
    destruct (lookup_lt_is_Some_2 (rows x) src Hlt) as [xr Hxr].
    destruct (lookup_lt_is_Some_2 (rows edge_attr) (mate e)) as [er Her].
    { apply mate_lt; assumption. }
    destruct (lookup_lt_is_Some_2 (rows init_edge_embed) e) as [ir Hir].
    { unfold nrows in *. lia. }
    match goal with
    | |- is_Some ?t /\ _ =>
        assert (t = Some (GCNEConv.edge_row c mask e xr er ir)) as Hrow
    end.
    { rewrite apply_mask_lookup. simpl.
      rewrite list_lookup_fmap, lookup_zip_with, Hir. simpl.
      rewrite list_lookup_fmap, lookup_zip_with.
      rewrite (list_lookup_fmap (fun i => default [] (rows x !! i))).
      rewrite (list_lookup_fmap fst), Hsd. simpl. rewrite Hxr. simpl.
      rewrite (list_lookup_fmap (fun i => default [] (rows edge_attr !! i))).
      rewrite get_reverse_edge_index_mate by assumption. simpl. rewrite Her.
      reflexivity. }
    rewrite Hrow. split; [eexists; reflexivity|].
    unfold GCNEConv.edge_row_at_src. rewrite Hsd, Hxr, Her, Hir. reflexivity.
Qed.

(** C4: for an even edge count E, [get_reverse_edge_index E] has length E,
    sends 2k to 2k+1 and 2k+1 to 2k, and is an involution without fixed
    point; the rows [edge_attr[rev_edge_index]] that [edge_update] subtracts
    are therefore those of the paired edge: row 1 for edge 0, row 0 for
    edge 1.  So the edge update itself, on well-shaped inputs, computes the
    new embedding of edge 2k from the embedding of edge 2k+1 and that of
    edge 2k+1 from the embedding of edge 2k. *)
Theorem reverse_edge_index_pairs {T : Type} `{Scalar T} (E : nat) (edge_attr : matrix T) :
  Nat.Even E ->
  nrows edge_attr = E ->
  let rev := GCNEConv.get_reverse_edge_index E in
  length rev = E
  /\ (forall k, 2 * k + 1 < E ->
        rev !! (2 * k) = Some (2 * k + 1) /\ rev !! (2 * k + 1) = Some (2 * k))
  /\ (forall e, e < E ->
        exists e', rev !! e = Some e' /\ e' <> e /\ e' < E /\ rev !! e' = Some e)
  /\ (exists R, index_rows edge_attr rev = Ok R
        /\ (forall e, e < E -> rows R !! e = rows edge_attr !! mate e)
        /\ (2 <= E -> rows R !! 0 = rows edge_attr !! 1
                      /\ rows R !! 1 = rows edge_attr !! 0))
  /\ (forall (c : GCNEConv.t T) (mask : option (nat -> nat -> T)) (x : matrix T)
             (edge_index : list (nat * nat)) (init_edge_embed : matrix T),
        length edge_index = E ->
        Forall (fun e => e.1 < nrows x) edge_index ->
        ncols x = in_features (GCNEConv.lin c) ->
        ncols edge_attr = in_features (GCNEConv.lin c) ->
        nrows init_edge_embed = E ->
        ncols init_edge_embed = out_features (GCNEConv.lin c) ->
        valid_p (GCNEConv.dropout_p c) = true ->
        exists out,
          GCNEConv.edge_update c mask x edge_index edge_attr init_edge_embed = Ok out
          /\ forall k, 2 * k + 1 < E ->
               exists s0 d0 s1 d1 x0 x1 e0 e1 i0 i1,
                 edge_index !! (2 * k) = Some (s0, d0)
                 /\ edge_index !! (2 * k + 1) = Some (s1, d1)
                 /\ rows x !! s0 = Some x0 /\ rows x !! s1 = Some x1
                 /\ rows edge_attr !! (2 * k) = Some e0
                 /\ rows edge_attr !! (2 * k + 1) = Some e1
                 /\ rows init_edge_embed !! (2 * k) = Some i0
                 /\ rows init_edge_embed !! (2 * k + 1) = Some i1
                 /\ rows out !! (2 * k) = Some (GCNEConv.edge_row c mask (2 * k) x0 e1 i0)
                 /\ rows out !! (2 * k + 1)
                    = Some (GCNEConv.edge_row c mask (2 * k + 1) x1 e0 i1)).
Proof.
  intros HE Hn rev. subst rev.
  split; [|split; [|split; [|split]]].
  - rewrite get_reverse_edge_index_length. destruct HE as [m ->].
    rewrite (Nat.mul_comm 2 m), Nat.div_mul by lia. lia.
  - intros k Hk. apply get_reverse_edge_index_lookup, Hk.
  - intros e He. exists (mate e).
    destruct (mate_spec e) as (Hne & Hinv & _).
    pose proof (mate_lt E e HE He) as Hlt.
    repeat split; try assumption.
    + apply get_reverse_edge_index_mate; assumption.
    + rewrite get_reverse_edge_index_mate by assumption. f_equal. exact Hinv.
  - eexists. split; [|split].
    + apply index_rows_ok. rewrite Hn. apply get_reverse_edge_index_lt.
    + intros e He. simpl. apply index_rows_ok_lookup.
      * rewrite Hn. apply mate_lt; assumption.
      * apply get_reverse_edge_index_mate; assumption.
    + intros HE2. simpl. split.
      * apply (index_rows_ok_lookup edge_attr _ 0 1); [lia|].
        apply (get_reverse_edge_index_mate E 0); [assumption|lia].
      * apply (index_rows_ok_lookup edge_attr _ 1 0); [lia|].
        apply (get_reverse_edge_index_mate E 1); [assumption|lia].
  - intros c mask x edge_index init_edge_embed Hlen Hsrc Hcx Hce Hni Hci Hp.
    subst E.
    destruct (edge_update_rows_at_src c mask x edge_index edge_attr init_edge_embed
                HE Hlen Hsrc Hcx Hce Hni Hci Hp) as (out & Hout & _ & _ & Hrows).
    exists out. split; [exact Hout|]. intros k Hk.
    destruct (lookup_lt_is_Some_2 edge_index (2 * k)) as [[s0 d0] H0]; [lia|].
    destruct (lookup_lt_is_Some_2 edge_index (2 * k + 1)) as [[s1 d1] H1]; [lia|].
    pose proof (Forall_lookup_1 _ _ _ _ Hsrc H0) as Hs0.
    pose proof (Forall_lookup_1 _ _ _ _ Hsrc H1) as Hs1. simpl in Hs0, Hs1.
    destruct (lookup_lt_is_Some_2 (rows x) s0 Hs0) as [x0 Hx0].
    destruct (lookup_lt_is_Some_2 (rows x) s1 Hs1) as [x1 Hx1].
    destruct (lookup_lt_is_Some_2 (rows edge_attr) (2 * k)) as [e0 He0];
      [unfold nrows in *; lia|].
    destruct (lookup_lt_is_Some_2 (rows edge_attr) (2 * k + 1)) as [e1 He1];
      [unfold nrows in *; lia|].
    destruct (lookup_lt_is_Some_2 (rows init_edge_embed) (2 * k)) as [i0 Hi0];
      [unfold nrows in *; lia|].
    destruct (lookup_lt_is_Some_2 (rows init_edge_embed) (2 * k + 1)) as [i1 Hi1];
      [unfold nrows in *; lia|].
    exists s0, d0, s1, d1, x0, x1, e0, e1, i0, i1.
    repeat (split; [assumption|]).
    destruct (mate_spec 0) as (_ & _ & Hmate). destruct (Hmate k) as [Hm0 Hm1].
    split.
    + rewrite (proj2 (Hrows (2 * k) ltac:(lia))).
      unfold GCNEConv.edge_row_at_src. rewrite H0, Hx0, Hm0, He1, Hi0. reflexivity.
    + rewrite (proj2 (Hrows (2 * k + 1) ltac:(lia))).
      unfold GCNEConv.edge_row_at_src. rewrite H1, Hx1, Hm1, He0, Hi1. reflexivity.
Qed.

Lemma reverse_edge_index_pairs_witness :
  Nat.Even 4 /\ GCNEConv.get_reverse_edge_index 4 = [1; 0; 3; 2]
  /\ (exists R, index_rows MoreSamples.chain_embed (GCNEConv.get_reverse_edge_index 4) = Ok R
                /\ rows R !! 0 = Some [2%Z] /\ rows R !! 1 = Some [1%Z])
  /\ exists out,
       GCNEConv.edge_update Samples.conve None MoreSamples.three_atoms MoreSamples.chain
         MoreSamples.chain_embed MoreSamples.chain_embed = Ok out
       /\ rows out !! 0 = Some (GCNEConv.edge_row Samples.conve None 0 [10] [2] [1])%Z
       /\ rows out !! 1 = Some (GCNEConv.edge_row Samples.conve None 1 [20] [1] [2])%Z
       /\ rows out !! 0 = Some [9%Z] /\ rows out !! 1 = Some [21%Z].
Proof.
  assert (Nat.Even 4) as HE by (exists 2; reflexivity).
  split; [exact HE|]. split; [reflexivity|].
  destruct (reverse_edge_index_pairs 4 MoreSamples.chain_embed HE eq_refl)
    as (_ & _ & _ & (R & HR & _ & H01) & Hupdate).
  split.
  - exists R. split; [exact HR|]. apply H01. lia.
  - destruct (Hupdate Samples.conve None MoreSamples.three_atoms MoreSamples.chain
                MoreSamples.chain_embed eq_refl
                ltac:(unfold nrows; simpl; repeat (constructor; [simpl; lia|]); constructor)
                eq_refl eq_refl eq_refl eq_refl eq_refl)
      as (out & Hout & Hpairs).
    destruct (Hpairs 0 ltac:(lia))
      as (s0 & d0 & s1 & d1 & x0 & x1 & e0 & e1 & i0 & i1
          & Hi0 & Hi1 & Hx0 & Hx1 & He0 & He1 & Hn0 & Hn1 & Hr0 & Hr1).
    simpl in Hi0, Hi1. injection Hi0 as <- <-. injection Hi1 as <- <-.
    simpl in Hx0, Hx1, He0, He1, Hn0, Hn1.
    injection Hx0 as <-. injection Hx1 as <-. injection He0 as <-. injection He1 as <-.
    injection Hn0 as <-. injection Hn1 as <-.
    exists out. split; [exact Hout|].
    split; [exact Hr0|]. split; [exact Hr1|]. split; [exact Hr0|exact Hr1].
Defined.


(** ** An odd number of edges *)

Lemma bsize_err (a b : nat) (e : error) : bsize a b = Err e -> e = RuntimeError.
Proof. unfold bsize. repeat case_decide; congruence. Qed.

Lemma bsize_mismatch (a b : nat) : a <> b -> a <> 1 -> b <> 1 -> bsize a b = Err RuntimeError.
Proof. intros. unfold bsize. rewrite !decide_False by assumption. reflexivity. Qed.

Lemma broadcast_matrix_row_mismatch {T} `{Scalar T} (op : T -> T -> T) (A B : matrix T) :
  nrows A <> nrows B -> nrows A <> 1 -> nrows B <> 1 ->
  broadcast_matrix op A B = Err RuntimeError.
Proof.
  intros. unfold broadcast_matrix.
  destruct (bsize (ncols A) (ncols B)) as [k|e] eqn:Hc; simpl.
  - rewrite bsize_mismatch by assumption. reflexivity.
  - apply bsize_err in Hc as ->. reflexivity.
Qed.

Lemma odd_reverse_length (E : nat) :
  Nat.Odd E -> length (GCNEConv.get_reverse_edge_index E) = E - 1.
Proof.
  intros [m ->]. rewrite get_reverse_edge_index_length.
  replace (2 * m + 1) with (1 + m * 2) by lia.
  rewrite Nat.div_add by lia. simpl. lia.
Qed.

Lemma edge_update_odd {T} `{Scalar T} (c : GCNEConv.t T) (mask : option (nat -> nat -> T))
    (x : matrix T) (edge_index : Adj) (edge_attr init_edge_embed : matrix T) :
  Nat.Odd (nrows edge_attr) -> 3 <= nrows edge_attr ->
  length edge_index = nrows edge_attr ->
  GCNEConv.edge_update c mask x edge_index edge_attr init_edge_embed = Err RuntimeError
  \/ GCNEConv.edge_update c mask x edge_index edge_attr init_edge_embed = Err IndexError.
Proof.
  intros HE H3 Hlen. unfold GCNEConv.edge_update.
  destruct (index_rows x (edge_index.*1)) as [xs|e] eqn:Hxs; simpl.
  - left. apply index_rows_shape in Hxs as [Hn _]. rewrite length_fmap in Hn.
    rewrite (index_rows_ok edge_attr _ (get_reverse_edge_index_lt _)). simpl.
    rewrite broadcast_matrix_row_mismatch; [reflexivity| | |];
      unfold nrows in *; simpl; rewrite ?length_map, ?odd_reverse_length by exact HE.
      all: lia.
  - right. f_equal. unfold index_rows in Hxs.
    destruct (mapM _ (edge_index.*1)) as [rs|e'] eqn:Hrs; simpl in Hxs; [discriminate|].
    injection Hxs as <-. clear -Hrs.
    induction (edge_index.*1) as [|i l IH]; simpl in Hrs; [discriminate|].
    destruct (rows x !! i); simpl in Hrs; [|congruence].
    destruct (mapM _ l) eqn:Hl; simpl in Hrs; [discriminate|].
    injection Hrs as <-. apply IH. reflexivity.
Qed.

(** C7 (as the code has it): there is no parity check.  With an odd number
    E >= 3 of directed edges the edge update returns no result: the E
    gathered node rows meet the E - 1 rows that the reverse index selects,
    and the subtraction is refused with the runtime's shape error (an
    out-of-range node id is refused before that); so is the call of the
    layer. *)
Theorem edge_update_odd_edge_count {T} `{Scalar T}
    (c : GCNEConv.t T) (mask : option (nat -> nat -> T))
    (x : matrix T) (edge_index : Adj) (edge_attr init_edge_embed : matrix T) :
  Nat.Odd (nrows edge_attr) -> 3 <= nrows edge_attr ->
  length edge_index = nrows edge_attr ->
  is_ok (GCNEConv.edge_update c mask x edge_index edge_attr init_edge_embed) = false
  /\ (Forall (fun e => e.1 < nrows x) edge_index ->
      GCNEConv.edge_update c mask x edge_index edge_attr init_edge_embed
      = Err RuntimeError)
  /\ is_ok (GCNEConv.forward c mask x edge_attr edge_index init_edge_embed) = false.
Proof.
  intros HE H3 Hlen. split; [|split].
  - destruct (edge_update_odd c mask x edge_index edge_attr init_edge_embed HE H3 Hlen)
      as [-> | ->]; reflexivity.
  - intros Hsrc.
    destruct (edge_update_odd c mask x edge_index edge_attr init_edge_embed HE H3 Hlen)
      as [Hr | Hi]; [exact Hr|].
    unfold GCNEConv.edge_update in Hi.
    rewrite (index_rows_ok x (edge_index.*1)) in Hi by (apply Forall_fmap; exact Hsrc).
    rewrite (index_rows_ok edge_attr _ (get_reverse_edge_index_lt _)) in Hi.
    simpl in Hi.
    rewrite broadcast_matrix_row_mismatch in Hi; [discriminate| | |];
      unfold nrows in *; simpl;
      rewrite ?length_map, ?length_fmap, ?odd_reverse_length by exact HE; lia.
  - unfold GCNEConv.forward.
    destruct (propagate _ _ edge_index x edge_attr) as [x'|e]; simpl; [|reflexivity].
    destruct (edge_update_odd c mask x' edge_index edge_attr init_edge_embed HE H3 Hlen)
      as [-> | ->]; reflexivity.
Qed.

Lemma edge_update_odd_edge_count_witness :
  is_ok (GCNEConv.edge_update Samples.conve None Samples.two_atoms
           [(0, 1); (1, 0); (0, 1)] (Mat 1 [[1]; [2]; [3]]%Z)
           (Mat 1 [[0]; [0]; [0]]%Z)) = false
  /\ (Forall (fun e => e.1 < nrows Samples.two_atoms) [(0, 1); (1, 0); (0, 1)] ->
      GCNEConv.edge_update Samples.conve None Samples.two_atoms
        [(0, 1); (1, 0); (0, 1)] (Mat 1 [[1]; [2]; [3]]%Z) (Mat 1 [[0]; [0]; [0]]%Z)
      = Err RuntimeError)
  /\ is_ok (GCNEConv.forward Samples.conve None Samples.two_atoms
              (Mat 1 [[1]; [2]; [3]]%Z) [(0, 1); (1, 0); (0, 1)]
              (Mat 1 [[0]; [0]; [0]]%Z)) = false.
Proof.
  exact (edge_update_odd_edge_count Samples.conve None Samples.two_atoms
           [(0, 1); (1, 0); (0, 1)] (Mat 1 [[1]; [2]; [3]]%Z) (Mat 1 [[0]; [0]; [0]]%Z)
           (ex_intro _ 1 eq_refl) (le_n 3) eq_refl).
Defined.

(** C7, the claim as stated fails: with a single directed edge the reverse
    index is empty, the 1 x H gathered rows broadcast against the 0 x H
    selection, and the layer returns a result (with an edge embedding of no
    rows) instead of failing. *)
Lemma single_edge_is_not_rejected :
  Nat.Odd (nrows (Mat 1 [[1%Z]]))
  /\ GCNEConv.edge_update Samples.conve None Samples.two_atoms [(0, 1)]
       (Mat 1 [[1%Z]]) (Mat 1 [[0%Z]]) = Ok (Mat 1 [])
  /\ GCNEConv.forward Samples.conve None Samples.two_atoms (Mat 1 [[1%Z]]) [(0, 1)]
       (Mat 1 [[0%Z]]) = Ok (Mat 1 [[10]; [21]]%Z, Mat 1 []).
Proof.
  split; [exists 0; reflexivity|]. split; reflexivity.
Qed.

(** ** The final convolution layer *)

Lemma foldM_app {A St} (f : St -> A -> result St) (l1 l2 : list A) (s : St) :
  foldM f (l1 ++ l2) s = (let* s' := foldM f l1 s in foldM f l2 s').
Proof.
  revert s. induction l1 as [|a l1 IH]; intros s; simpl; [reflexivity|].
  destruct (f s a) as [s'|e]; simpl; [apply IH|reflexivity].
Qed.

Lemma enumerate_app {A} (l1 l2 : list A) :
  enumerate (l1 ++ l2) = (enumerate l1 ++ zip (seq (length l1) (length l2)) l2)%list.
Proof.
  unfold enumerate. rewrite length_app, seq_app, zip_with_app; [reflexivity|].
  apply length_seq.
Qed.

(** C3 (as the code has it): at the last position of the stack the layer
    runs no edge update, so the node and edge embeddings of the loop are
    left as they are, and it returns one node-level tensor; that tensor is
    the aggregated message combined with the prior node embedding by the
    communicator, the [update] step of the layer, and it is what the forward
    pass of the model concatenates, as [aggr_message], with the node
    embedding left by the edge-updating layers and the initial one. *)
Theorem final_layer_applies_communicator {T} `{Scalar T}
    (c : GCNConv.t T) (training : option (nat -> nat -> nat -> T))
    (edge_index : Adj) :
  (forall (len i : nat) (init_bond_embed : matrix T) (st : CMPNN.loop_state)
          (aggregated : matrix T),
      i = len - 1 ->
      GCNConv.aggr_module c (CMPNN.bond_embed st) (edge_index.*2)
        (nrows (CMPNN.atom_embed st)) = Ok aggregated ->
      GCNConv.forward c (CMPNN.atom_embed st) (CMPNN.bond_embed st) edge_index
      = NodeEdgeMessageCommunicator.forward (GCNConv.communicator c) aggregated
          (CMPNN.atom_embed st)
      /\ CMPNN.conv_step training len edge_index init_bond_embed st (i, CMPNN.ConvN c)
         = (let* a := NodeEdgeMessageCommunicator.forward (GCNConv.communicator c)
                        aggregated (CMPNN.atom_embed st) in
            Ok {| CMPNN.atom_embed := CMPNN.atom_embed st;
                  CMPNN.bond_embed := CMPNN.bond_embed st;
                  CMPNN.aggr_message := Some a |}))
  /\ (forall (m : CMPNN.t T) (es : list (GCNEConv.t T))
             (x edge_attr : matrix T) (batch : list nat),
        CMPNN.convs m = (map CMPNN.ConvE es ++ [CMPNN.ConvN c])%list ->
        CMPNN.forward m training x edge_index edge_attr batch
        = (let* a0 := linear (CMPNN.atom_proj m) x in
           let init_atom_embed := relu a0 in
           let* b0 := linear (CMPNN.bond_proj m) edge_attr in
           let init_bond_embed := relu b0 in
           let* st := foldM (CMPNN.conv_step training (length es + 1) edge_index
                               init_bond_embed)
                        (enumerate (map CMPNN.ConvE es))
                        {| CMPNN.atom_embed := init_atom_embed;
                           CMPNN.bond_embed := init_bond_embed;
                           CMPNN.aggr_message := None |} in
           let* aggregated := GCNConv.aggr_module c (CMPNN.bond_embed st) (edge_index.*2)
                                (nrows (CMPNN.atom_embed st)) in
           let* aggr_message := NodeEdgeMessageCommunicator.forward (GCNConv.communicator c)
                                  aggregated (CMPNN.atom_embed st) in
           let* cat := cat1 [aggr_message; CMPNN.atom_embed st; init_atom_embed] in
           let* h := linear (CMPNN.lin m) cat in
           let* h := BatchGRU.forward (CMPNN.gru m) h batch in
           let* o := linear (CMPNN.seq_out m) h in
           dropout (CMPNN.seq_out_p m) ((fun f => f (length es + 1)) <$> training) (relu o))).
Proof.
  assert (forall (st : CMPNN.loop_state) aggregated,
            GCNConv.aggr_module c (CMPNN.bond_embed st) (edge_index.*2)
              (nrows (CMPNN.atom_embed st)) = Ok aggregated ->
            GCNConv.forward c (CMPNN.atom_embed st) (CMPNN.bond_embed st) edge_index
            = NodeEdgeMessageCommunicator.forward (GCNConv.communicator c) aggregated
                (CMPNN.atom_embed st)) as Hfw.
  { intros st aggregated Hag. unfold GCNConv.forward, propagate. rewrite Hag. reflexivity. }
  split.
  - intros len i init_bond_embed st aggregated Hi Hag.
    split; [exact (Hfw st aggregated Hag)|].
    unfold CMPNN.conv_step. simpl. rewrite decide_True by exact Hi.
    rewrite (Hfw st aggregated Hag). reflexivity.
  - intros m es x edge_attr batch Hconvs. unfold CMPNN.forward.
    destruct (linear (CMPNN.atom_proj m) x) as [a0|e]; simpl; [|reflexivity].
    destruct (linear (CMPNN.bond_proj m) edge_attr) as [b0|e]; simpl; [|reflexivity].
    rewrite Hconvs, enumerate_app, foldM_app, length_app, !length_map. simpl.
    destruct (foldM _ (enumerate (map CMPNN.ConvE es)) _) as [st|e]; simpl; [|reflexivity].
    unfold CMPNN.conv_step. simpl. rewrite decide_True by lia.
    unfold GCNConv.forward, propagate, GCNConv.update.
    destruct (GCNConv.aggr_module c _ _ _) as [ag|e]; simpl; [|reflexivity].
    destruct (NodeEdgeMessageCommunicator.forward _ ag _) as [a|e]; simpl; reflexivity.
Qed.

Lemma final_layer_applies_communicator_witness :
  (GCNConv.forward Samples.convn Samples.two_atoms Samples.bond_embed Samples.one_bond
   = NodeEdgeMessageCommunicator.forward (GCNConv.communicator Samples.convn)
       (Mat 1 [[4]; [1]]%Z) Samples.two_atoms
   /\ CMPNN.conv_step None 1 Samples.one_bond Samples.bond_init
        {| CMPNN.atom_embed := Samples.two_atoms; CMPNN.bond_embed := Samples.bond_embed;
           CMPNN.aggr_message := None |} (0, CMPNN.ConvN Samples.convn)
      = Ok {| CMPNN.atom_embed := Samples.two_atoms; CMPNN.bond_embed := Samples.bond_embed;
              CMPNN.aggr_message := Some (Mat 1 [[14]; [21]]%Z) |})
  /\ CMPNN.forward MoreSamples.two_layer_model None Samples.two_atoms Samples.one_bond
       Samples.bond_embed [0; 0]
     = (let* cat := cat1 [Mat 1 [[498]; [190]]%Z; Mat 1 [[14]; [21]]%Z; Samples.two_atoms] in
        let* h := linear (CMPNN.lin MoreSamples.two_layer_model) cat in
        let* h := BatchGRU.forward (CMPNN.gru MoreSamples.two_layer_model) h [0; 0] in
        let* o := linear (CMPNN.seq_out MoreSamples.two_layer_model) h in
        Ok (relu o)).
Proof.
  destruct (final_layer_applies_communicator Samples.convn None Samples.one_bond)
    as [Hstep Hforward].
  split.
  - exact (Hstep 1 0 Samples.bond_init
             {| CMPNN.atom_embed := Samples.two_atoms; CMPNN.bond_embed := Samples.bond_embed;
                CMPNN.aggr_message := None |}
             (Mat 1 [[4]; [1]]%Z) eq_refl eq_refl).
  - exact (Hforward MoreSamples.two_layer_model [Samples.conve] Samples.two_atoms Samples.bond_embed
             [0; 0] eq_refl).
Defined.

Lemma two_layer_model_is_built :
  CMPNN.__init__ Samples.cmpnn_ip 1 1 1 1 2 "additive" 0 false = Ok MoreSamples.two_layer_model.
Proof. reflexivity. Qed.

(** C3, the claim as stated fails: on two atoms with embeddings 10 and 20
    joined by a bond whose directed edges carry 1 and 2, the aggregated
    message is [[4]; [1]], and the final layer returns [[14]; [21]]: the
    message combined with the prior node embedding. *)
Lemma final_layer_does_not_return_raw_message :
  GCNConv.aggr_module Samples.convn Samples.bond_embed (Samples.one_bond.*2)
    (nrows Samples.two_atoms) = Ok (Mat 1 [[4]; [1]]%Z)
  /\ GCNConv.forward Samples.convn Samples.two_atoms Samples.bond_embed Samples.one_bond
     = Ok (Mat 1 [[14]; [21]]%Z)
  /\ GCNConv.forward Samples.convn Samples.two_atoms Samples.bond_embed Samples.one_bond
     <> GCNConv.aggr_module Samples.convn Samples.bond_embed (Samples.one_bond.*2)
          (nrows Samples.two_atoms).
Proof.
  split; [reflexivity|]. split; [reflexivity|]. vm_compute. discriminate.
Qed.

(** ** Masks, positions and the distinct graph ids *)

Lemma count_true_cons (b : bool) (mask : list bool) :
  count_true (b :: mask) = if b then S (count_true mask) else count_true mask.
Proof.
  unfold count_true. rewrite filter_cons. destruct b.
  - rewrite decide_True by reflexivity. reflexivity.
  - rewrite decide_False by discriminate. reflexivity.
Qed.

Lemma count_true_le (mask : list bool) : count_true mask <= length mask.
Proof.
  induction mask as [|b mask IH]; [reflexivity|].
  rewrite count_true_cons. destruct b; simpl; lia.
Qed.

Lemma nonzero_from_length (k : nat) (mask : list bool) :
  length (nonzero_from k mask) = count_true mask.
Proof.
  revert k. induction mask as [|b mask IH]; intros k; [reflexivity|].
  rewrite count_true_cons. destruct b; simpl; rewrite IH; reflexivity.
Qed.

Lemma nonzero_from_bound (k : nat) (mask : list bool) :
  Forall (fun i => k <= i < k + length mask) (nonzero_from k mask).
Proof.
  revert k. induction mask as [|b mask IH]; intros k; simpl; [constructor|].
  assert (Forall (fun i => k <= i < k + S (length mask)) (nonzero_from (S k) mask)) as Htl.
  { eapply Forall_impl; [apply IH|]. simpl. intros i Hi. lia. }
  destruct b; [constructor; [lia|exact Htl]|exact Htl].
Qed.

(** The position [p] of a [True] entry is found in [nonzero] at the number
    of [True] entries before it. *)
Lemma nonzero_from_rank (k : nat) (mask : list bool) (p : nat) :
  mask !! p = Some true ->
  nonzero_from k mask !! count_true (take p mask) = Some (k + p).
Proof.
  revert k p. induction mask as [|b mask IH]; intros k p Hp; [discriminate|].
  destruct p as [|p]; simpl in Hp.
  - injection Hp as ->. simpl. f_equal. lia.
  - simpl take. rewrite count_true_cons. simpl.
    destruct b; simpl; rewrite (IH (S k) p Hp); f_equal; lia.
Qed.

Lemma eq_mask_lookup (batch : list nat) (v p : nat) :
  eq_mask batch v !! p = (fun b => Nat.eqb b v) <$> batch !! p.
Proof. unfold eq_mask. apply list_lookup_fmap. Qed.

Lemma eq_mask_length (batch : list nat) (v : nat) : length (eq_mask batch v) = length batch.
Proof. unfold eq_mask. apply length_map. Qed.

Lemma members_length (batch : list nat) (v : nat) :
  length (members batch v) = members_count batch v.
Proof. apply nonzero_from_length. Qed.

Lemma members_bound (batch : list nat) (v : nat) :
  Forall (fun i => i < length batch) (members batch v).
Proof.
  eapply Forall_impl; [apply (nonzero_from_bound 0)|].
  simpl. intros i Hi. rewrite eq_mask_length in Hi. lia.
Qed.

Lemma members_rank (batch : list nat) (p v : nat) :
  batch !! p = Some v -> members batch v !! rank batch p = Some p.
Proof.
  intros Hp. unfold members, nonzero, rank. rewrite Hp. simpl.
  apply (nonzero_from_rank 0). rewrite eq_mask_lookup, Hp. simpl.
  rewrite Nat.eqb_refl. reflexivity.
Qed.

Lemma rank_lt (batch : list nat) (p v : nat) :
  batch !! p = Some v -> rank batch p < members_count batch v.
Proof.
  intros Hp. rewrite <- members_length.
  apply lookup_lt_is_Some_1. rewrite (members_rank _ _ _ Hp). eexists; reflexivity.
Qed.

Lemma members_count_pos (batch : list nat) (p v : nat) :
  batch !! p = Some v -> 0 < members_count batch v.
Proof. intros Hp. pose proof (rank_lt _ _ _ Hp). lia. Qed.


Lemma insert_sorted_elem (x v : nat) (l : list nat) :
  x ∈ insert_sorted v l <-> x = v \/ x ∈ l.
Proof.
  induction l as [|u l IH]; simpl.
  - rewrite list_elem_of_singleton. split; [intros ->; left; reflexivity|].
    intros [->|Hx]; [reflexivity|inversion Hx].
  - destruct (Nat.ltb v u) eqn:Hlt; [apply elem_of_cons|].
    destruct (Nat.eqb v u) eqn:Heq.
    + apply Nat.eqb_eq in Heq as ->. split; [intros Hx; right; exact Hx|].
      intros [->|Hx]; [apply list_elem_of_here|exact Hx].
    + rewrite !elem_of_cons, IH. tauto.
Qed.

Lemma insert_sorted_sorted (v : nat) (l : list nat) :
  StronglySorted lt l -> StronglySorted lt (insert_sorted v l).
Proof.
  induction 1 as [|u l Hl IH Hu]; simpl.
  - repeat constructor.
  - destruct (Nat.ltb v u) eqn:Hlt.
    + apply Nat.ltb_lt in Hlt. constructor; [constructor; assumption|].
      constructor; [exact Hlt|]. eapply Forall_impl; [exact Hu|]. simpl. lia.
    + destruct (Nat.eqb v u) eqn:Heq; [constructor; assumption|].
      apply Nat.ltb_ge in Hlt. apply Nat.eqb_neq in Heq.
      constructor; [exact IH|]. apply Forall_forall. intros x Hx.
      apply insert_sorted_elem in Hx as [->|Hx]; [lia|].
      exact (proj1 (Forall_forall _ _) Hu x Hx).
Qed.

Lemma unique_elem (batch : list nat) (v : nat) : v ∈ unique batch <-> v ∈ batch.
Proof.
  unfold unique. induction batch as [|b batch IH]; simpl; [reflexivity|].
  rewrite insert_sorted_elem, IH, elem_of_cons. reflexivity.
Qed.

Lemma unique_sorted (batch : list nat) : StronglySorted lt (unique batch).
Proof.
  unfold unique. induction batch as [|b batch IH]; simpl; [constructor|].
  apply insert_sorted_sorted, IH.
Qed.

Lemma unique_NoDup (batch : list nat) : NoDup (unique batch).
Proof.
  induction (unique_sorted batch) as [|u l Hl IH Hu]; constructor; [|exact IH].
  intros Hin. pose proof (proj1 (Forall_forall _ _) Hu u Hin). lia.
Qed.

(** ** Loops over [enumerate] *)

Lemma foldM_enumerate_from {A St} (f : St -> nat * A -> result St) (P : nat -> St -> Prop)
    (l : list A) (k : nat) (s : St) :
  P k s ->
  (forall i a s, l !! i = Some a -> P (k + i) s ->
     exists s', f s (k + i, a) = Ok s' /\ P (S (k + i)) s') ->
  exists s', foldM f (zip (seq k (length l)) l) s = Ok s' /\ P (k + length l) s'.
Proof.
  revert k s. induction l as [|a l IH]; intros k s Hs Hstep; simpl.
  - exists s. rewrite Nat.add_0_r. split; [reflexivity|exact Hs].
  - destruct (Hstep 0 a s eq_refl) as (s1 & Hf & Hs1).
    { rewrite Nat.add_0_r. exact Hs. }
    rewrite Nat.add_0_r in Hf, Hs1. rewrite Hf. simpl.
    destruct (IH (S k) s1 Hs1) as (s' & Hfold & Hs').
    { intros i b s2 Hb Hs2.
      replace (S k + i) with (k + S i) in * by lia.
      apply (Hstep (S i) b s2 Hb Hs2). }
    exists s'. split; [exact Hfold|].
    replace (k + S (length l)) with (S k + length l) by lia. exact Hs'.
Qed.

Lemma foldM_enumerate {A St} (f : St -> nat * A -> result St) (P : nat -> St -> Prop)
    (l : list A) (s : St) :
  P 0 s ->
  (forall i a s, l !! i = Some a -> P i s -> exists s', f s (i, a) = Ok s' /\ P (S i) s') ->
  exists s', foldM f (enumerate l) s = Ok s' /\ P (length l) s'.
Proof.
  intros Hs Hstep. apply (foldM_enumerate_from f P l 0 s Hs Hstep).
Qed.

Lemma mapM_enumerate_from {A B} (f : nat * A -> result B) (g : nat -> A -> B)
    (l : list A) (k : nat) :
  (forall i a, l !! i = Some a -> f (k + i, a) = Ok (g (k + i) a)) ->
  exists bs, mapM f (zip (seq k (length l)) l) = Ok bs
             /\ length bs = length l
             /\ forall i a, l !! i = Some a -> bs !! i = Some (g (k + i) a).
Proof.
  revert k. induction l as [|a l IH]; intros k Hf; simpl.
  - exists []. repeat split. intros i a Hi. discriminate.
  - pose proof (Hf 0 a eq_refl) as Ha. rewrite Nat.add_0_r in Ha. rewrite Ha. simpl.
    destruct (IH (S k)) as (bs & Hbs & Hlen & Hlk).
    { intros i b Hb. replace (S k + i) with (k + S i) by lia. apply (Hf (S i) b Hb). }
    rewrite Hbs. simpl. exists (g k a :: bs). split; [reflexivity|].
    split; [simpl; rewrite Hlen; reflexivity|].
    intros [|i] b Hb; simpl in *.
    + injection Hb as <-. rewrite Nat.add_0_r. reflexivity.
    + rewrite (Hlk i b Hb). f_equal. f_equal. lia.
Qed.

Lemma mapM_enumerate {A B} (f : nat * A -> result B) (g : nat -> A -> B) (l : list A) :
  (forall i a, l !! i = Some a -> f (i, a) = Ok (g i a)) ->
  exists bs, mapM f (enumerate l) = Ok bs
             /\ length bs = length l
             /\ forall i a, l !! i = Some a -> bs !! i = Some (g i a).
Proof. intros Hf. apply (mapM_enumerate_from f g l 0 Hf). Qed.

(** Writing the entry of position [i] into a list whose first [i] entries
    are written and whose other entries still hold the filler. *)
Lemma insert_prefix_fill {A B} (f : A -> B) (l : list A) (i : nat) (v : A) (z : B) :
  l !! i = Some v ->
  <[i := f v]> (map f (take i l) ++ replicate (length l - i) z)
  = (map f (take (S i) l) ++ replicate (length l - S i) z)%list.
Proof.
  intros Hv. pose proof (lookup_lt_Some _ _ _ Hv) as Hi.
  rewrite insert_app_r_alt; rewrite length_map, length_take; [|lia].
  replace (i - i `min` length l) with 0 by lia.
  replace (length l - i) with (S (length l - S i)) by lia. simpl.
  rewrite (take_S_r _ _ _ Hv), map_app, <- app_assoc. reflexivity.
Qed.

Lemma lookup_prefix_fill {A B} (f : A -> B) (l : list A) (i : nat) (z : B) :
  i < length l ->
  (map f (take i l) ++ replicate (length l - i) z)%list !! i = Some z.
Proof.
  intros Hi. rewrite lookup_app_r; rewrite length_map, length_take; [|lia].
  apply lookup_replicate_2. lia.
Qed.

Lemma length_prefix_fill {A B} (f : A -> B) (l : list A) (i : nat) (z : B) :
  i <= length l ->
  length (map f (take i l) ++ replicate (length l - i) z)%list = length l.
Proof.
  intros Hi. rewrite length_app, length_map, length_take, length_replicate. lia.
Qed.

Lemma max_item_ge (l : list nat) (M : nat) :
  max_item l = Ok M -> Forall (fun n => n <= M) l.
Proof.
  destruct l as [|n l]; simpl; [discriminate|]. intros [= <-].
  assert (forall l a, a <= fold_left Nat.max l a
                      /\ Forall (fun n => n <= fold_left Nat.max l a) l) as Hgen.
  { clear. induction l as [|b l IH]; intros a; simpl; [split; [lia|constructor]|].
    destruct (IH (a `max` b)) as [H1 H2]. split; [lia|].
    constructor; [lia|exact H2]. }
  destruct (Hgen l n). constructor; assumption.
Qed.

Lemma max_item_ok (l : list nat) : l <> [] -> exists M, max_item l = Ok M.
Proof. destruct l; [congruence|]. intros _. eexists. reflexivity. Qed.

Lemma mapM_enumerate_map_from {A B C} (f : nat * B -> result C) (m : A -> B) (out : A -> C)
    (l : list A) (k : nat) :
  (forall i a, l !! i = Some a -> f (k + i, m a) = Ok (out a)) ->
  mapM f (zip (seq k (length (map m l))) (map m l)) = Ok (map out l).
Proof.
  revert k. induction l as [|a l IH]; intros k Hf; simpl; [reflexivity|].
  pose proof (Hf 0 a eq_refl) as Ha. rewrite Nat.add_0_r in Ha. rewrite Ha. simpl.
  rewrite (IH (S k)); [reflexivity|].
  intros i b Hb. replace (S k + i) with (k + S i) by lia. apply (Hf (S i) b Hb).
Qed.

Lemma mapM_enumerate_map {A B C} (f : nat * B -> result C) (m : A -> B) (out : A -> C)
    (l : list A) :
  (forall i a, l !! i = Some a -> f (i, m a) = Ok (out a)) ->
  mapM f (enumerate (map m l)) = Ok (map out l).
Proof. intros Hf. apply (mapM_enumerate_map_from f m out l 0 Hf). Qed.

Lemma scatter_rows_lookup {A} (mask : list bool) (src dst : list A) (p : nat) :
  length mask = length dst -> count_true mask <= length src ->
  scatter_rows mask src dst !! p
  = match mask !! p with
    | Some true => src !! count_true (take p mask)
    | _ => dst !! p
    end.
Proof.
  revert src dst p. induction mask as [|b mask IH]; intros src dst p Hlen Hsrc.
  - destruct dst; [|discriminate]. reflexivity.
  - destruct dst as [|d dst]; [discriminate|]. simpl in Hlen.
    rewrite count_true_cons in Hsrc. destruct b.
    + destruct src as [|s src]; [simpl in Hsrc; lia|]. simpl in Hsrc.
      destruct p as [|p]; [reflexivity|].
      change (take (S p) (true :: mask)) with (true :: take p mask).
      rewrite count_true_cons. simpl. apply IH; lia.
    + destruct p as [|p]; [reflexivity|].
      change (take (S p) (false :: mask)) with (false :: take p mask).
      rewrite count_true_cons. simpl. apply IH; lia.
Qed.

Lemma scatter_rows_length {A} (mask : list bool) (src dst : list A) :
  length (scatter_rows mask src dst) = length dst.
Proof.
  revert src dst. induction mask as [|b mask IH]; intros src dst; [reflexivity|].
  destruct dst as [|d dst]; [reflexivity|]. simpl.
  destruct b; [destruct src|]; simpl; rewrite IH; reflexivity.
Qed.

Section Scans.
Context {T : Type}.

Lemma scan_fwd_length (cell : row T -> row T -> row T) (xs : list (row T)) (h : row T) :
  length (BatchGRU.scan_fwd cell xs h) = length xs.
Proof. revert h. induction xs as [|x xs IH]; intros h; simpl; [|rewrite IH]; reflexivity. Qed.

Lemma scan_bwd_length (cell : row T -> row T -> row T) (xs : list (row T)) (h : row T) :
  length (BatchGRU.scan_bwd cell xs h).1 = length xs.
Proof. induction xs as [|x xs IH]; simpl; [|rewrite IH]; reflexivity. Qed.


End Scans.

Lemma gru_seq_length {T} `{Scalar T} (g : BatchGRU.t T) (xs : list (row T)) (hf hb : row T) :
  length (BatchGRU.gru_seq g xs hf hb) = length xs.
Proof.
  unfold BatchGRU.gru_seq.
  rewrite length_zip_with, scan_fwd_length, scan_bwd_length. lia.
Qed.

(** ** The readout: packing *)

Section Packing.
Context {T : Type} `{Scalar T}.
Variable g : BatchGRU.t T.
Variable h_atom : matrix T.
Variable batch : list nat.

Hypothesis h_atom_wf : wf h_atom.
Hypothesis h_atom_width : ncols h_atom = BatchGRU.hidden_channels g.
Hypothesis bias_width : length (BatchGRU.bias g) = BatchGRU.hidden_channels g.
Hypothesis batch_length : length batch = nrows h_atom.

Lemma message_ok :
  broadcast_matrix sadd h_atom (as_matrix (BatchGRU.bias g))
  = Ok (Mat (BatchGRU.hidden_channels g)
            (map (fun r => zip_with sadd r (BatchGRU.bias g)) (rows h_atom))).
Proof.
  unfold broadcast_matrix, as_matrix, nrows. simpl.
  rewrite h_atom_width, bias_width, bsize_same. simpl.
  assert (bsize (length (rows h_atom)) 1 = Ok (length (rows h_atom))) as ->.
  { unfold bsize. destruct (decide (length (rows h_atom) = 1)) as [->|Hn]; [reflexivity|].
    rewrite decide_True by reflexivity. reflexivity. }
  simpl. f_equal. f_equal.
  rewrite expand_same.
  assert (expand 1 (length (rows h_atom)) [BatchGRU.bias g]
          = replicate (length (rows h_atom)) (BatchGRU.bias g)) as ->.
  { unfold expand. case_decide as Hn; [rewrite <- Hn|]; reflexivity. }
  rewrite zip_with_replicate_r by reflexivity.
  apply list_fmap_ext. intros i r Hr. simpl.
  rewrite !expand_same. reflexivity.
Qed.

Lemma message_rows_length : length (message_rows g h_atom) = length batch.
Proof. unfold message_rows. rewrite length_map. symmetry. exact batch_length. Qed.

Lemma message_rows_wf :
  Forall (fun r => length r = BatchGRU.hidden_channels g) (message_rows g h_atom).
Proof.
  unfold message_rows. apply Forall_fmap. eapply Forall_impl; [exact h_atom_wf|].
  intros r Hr. simpl in *. unfold relu_row.
  rewrite length_map, length_zip_with. lia.
Qed.

Lemma gather_wf (A : list (row T)) (c : nat) (idx : list nat) :
  Forall (fun r => length r = c) A -> Forall (fun i => i < length A) idx ->
  Forall (fun r => length r = c) (gather A idx).
Proof.
  intros HA Hidx. unfold gather. apply Forall_fmap.
  eapply Forall_impl; [exact Hidx|]. intros i Hi. simpl in *.
  destruct (lookup_lt_is_Some_2 A i Hi) as [r Hr]. rewrite Hr. simpl.
  exact (Forall_lookup_1 _ _ _ _ HA Hr).
Qed.

Lemma gather_length (A : list (row T)) (idx : list nat) :
  length (gather A idx) = length idx.
Proof. unfold gather. apply length_map. Qed.

Lemma index_rows_gather (A : matrix T) (idx : list nat) :
  Forall (fun i => i < nrows A) idx ->
  index_rows A idx = Ok (Mat (ncols A) (gather (rows A) idx)).
Proof. apply index_rows_ok. Qed.

Lemma colmax_length (rs : list (row T)) (c : nat) :
  rs <> [] -> Forall (fun r => length r = c) rs -> length (colmax rs) = c.
Proof.
  destruct rs as [|r rs]; [congruence|]. intros _ Hrs. simpl.
  apply Forall_cons in Hrs as [Hr Hrs]. revert r Hr.
  induction Hrs as [|r' rs Hr' _ IH]; intros r Hr; simpl; [exact Hr|].
  apply IH. rewrite length_zip_with. lia.
Qed.

Lemma expand_rows_same (c : nat) (rs : list (row T)) : map (expand c c) rs = rs.
Proof.
  induction rs as [|r rs IH]; simpl; [reflexivity|].
  rewrite expand_same, IH. reflexivity.
Qed.

Lemma unique_lookup_member (i v : nat) :
  unique batch !! i = Some v -> exists p, batch !! p = Some v.
Proof.
  intros Hv. apply list_elem_of_lookup_1, unique_elem.
  eapply list_elem_of_lookup_2. exact Hv.
Qed.

Lemma unique_counts_lookup (i v : nat) :
  unique batch !! i = Some v -> unique_counts batch !! i = Some (members_count batch v).
Proof.
  intros Hv. unfold unique_counts. rewrite list_lookup_fmap, Hv. reflexivity.
Qed.

Section Loop.
Variable M : nat.
Hypothesis M_is_max : max_item (unique_counts batch) = Ok M.

Lemma members_count_le_M (i v : nat) :
  unique batch !! i = Some v -> members_count batch v <= M.
Proof.
  intros Hv. apply unique_counts_lookup in Hv.
  exact (Forall_lookup_1 _ _ _ _ (max_item_ge _ _ M_is_max) Hv).
Qed.

Lemma pack_step_ok (i v : nat) :
  unique batch !! i = Some v ->
  BatchGRU.pack_step h_atom (Mat (BatchGRU.hidden_channels g) (message_rows g h_atom))
    batch (unique_counts batch)
    (packed_messages g h_atom batch M i, packed_states g h_atom batch i) (i, v)
  = Ok (packed_messages g h_atom batch M (S i), packed_states g h_atom batch (S i)).
Proof.
  intros Hv. pose proof (lookup_lt_Some _ _ _ Hv) as Hi.
  pose proof (members_count_le_M i v Hv) as HleM.
  destruct (unique_lookup_member i v Hv) as [p Hp].
  pose proof (members_count_pos _ _ _ Hp) as Hpos.
  unfold BatchGRU.pack_step. simpl. fold (members batch v).
  rewrite (unique_counts_lookup i v Hv). simpl.
  rewrite index_rows_gather.
  2: { unfold nrows. simpl. rewrite message_rows_length. apply members_bound. }
  simpl. unfold BatchGRU.assign_head.
  unfold packed_messages at 1.
  rewrite (lookup_prefix_fill _ _ _ _ Hi). simpl.
  unfold broadcast_to, nrows. simpl.
  rewrite to_size_same. simpl.
  rewrite length_replicate, gather_length, (members_length batch v).
  replace (members_count batch v `min` M) with (members_count batch v) by lia.
  rewrite to_size_same. simpl.
  rewrite expand_same, expand_rows_same.
  rewrite drop_replicate.
  rewrite (index_rows_gather h_atom).
  2: { rewrite <- batch_length. apply members_bound. }
  simpl. unfold max0. simpl.
  pose proof (members_length batch v) as Hml.
  pose proof (gather_length (rows h_atom) (members batch v)) as Hgl.
  destruct (gather (rows h_atom) (members batch v)) as [|r rs] eqn:Hga.
  { simpl in Hgl. lia. }
  simpl.
  assert (length (fold_left (zip_with smax) rs r) = BatchGRU.hidden_channels g) as Hmx.
  { change (length (colmax (r :: rs)) = BatchGRU.hidden_channels g).
    apply colmax_length; [discriminate|]. rewrite <- Hga, <- h_atom_width.
    apply gather_wf; [exact h_atom_wf|]. fold (nrows h_atom).
    rewrite <- batch_length. apply members_bound. }
  unfold packed_states at 1. simpl.
  unfold BatchGRU.assign_state, nrows. simpl.
  rewrite (length_prefix_fill _ _ _ _ (Nat.lt_le_incl _ _ Hi)).
  rewrite decide_True by exact Hi. rewrite Hmx, to_size_same. simpl.
  rewrite expand_same.
  assert (fold_left (zip_with smax) rs r = initial_state h_atom batch v) as Hst.
  { unfold initial_state. rewrite Hga. reflexivity. }
  rewrite Hst.
  rewrite (insert_prefix_fill (initial_state h_atom batch) _ _ _ _ Hv).
  f_equal. f_equal. unfold packed_messages.
  rewrite <- (insert_prefix_fill
                (fun v => Mat (BatchGRU.hidden_channels g)
                              (padded_sequence g h_atom batch M v)) _ _ _ _ Hv).
  reflexivity.
Qed.

Lemma pack_loop_ok :
  foldM (BatchGRU.pack_step h_atom (Mat (BatchGRU.hidden_channels g) (message_rows g h_atom))
           batch (unique_counts batch))
        (enumerate (unique batch))
        (packed_messages g h_atom batch M 0, packed_states g h_atom batch 0)
  = Ok (packed_messages g h_atom batch M (length (unique batch)),
        packed_states g h_atom batch (length (unique batch))).
Proof.
  destruct (foldM_enumerate
              (BatchGRU.pack_step h_atom
                 (Mat (BatchGRU.hidden_channels g) (message_rows g h_atom))
                 batch (unique_counts batch))
              (fun k st => st = (packed_messages g h_atom batch M k,
                                 packed_states g h_atom batch k))
              (unique batch)
              (packed_messages g h_atom batch M 0, packed_states g h_atom batch 0) eq_refl)
    as (st & Hfold & ->); [|exact Hfold].
  intros i v st Hv ->. eexists. split; [apply pack_step_ok; exact Hv|reflexivity].
Qed.


Lemma padded_sequence_length (i v : nat) :
  unique batch !! i = Some v -> length (padded_sequence g h_atom batch M v) = M.
Proof.
  intros Hv. pose proof (members_count_le_M i v Hv).
  unfold padded_sequence.
  rewrite length_app, gather_length, members_length, length_replicate. lia.
Qed.

Lemma pack_ok :
  BatchGRU.pack g h_atom batch
  = Ok (map (fun v => Mat (BatchGRU.hidden_channels g) (padded_sequence g h_atom batch M v))
            (unique batch),
        replicate 2 (Mat (BatchGRU.hidden_channels g)
                         (map (initial_state h_atom batch) (unique batch)))).
Proof.
  unfold BatchGRU.pack. rewrite message_ok. simpl. rewrite M_is_max. simpl.
  unfold relu. simpl. rewrite map_map.
  change (map (fun x => relu_row (zip_with sadd x (BatchGRU.bias g))) (rows h_atom))
    with (message_rows g h_atom).
  pose proof pack_loop_ok as Hloop.
  unfold packed_messages, packed_states in Hloop.
  rewrite !Nat.sub_0_r, !Nat.sub_diag in Hloop.
  rewrite (take_ge (unique batch) (length (unique batch))) in Hloop by reflexivity.
  simpl in Hloop. rewrite !app_nil_r in Hloop. exact Hloop.
Qed.

Lemma gru_ok :
  BatchGRU.gru g
    (map (fun v => Mat (BatchGRU.hidden_channels g) (padded_sequence g h_atom batch M v))
         (unique batch))
    (replicate 2 (Mat (BatchGRU.hidden_channels g)
                      (map (initial_state h_atom batch) (unique batch))))
  = Ok (gru_outputs g h_atom batch M).
Proof.
  unfold BatchGRU.gru. simpl. unfold nrows. simpl.
  rewrite decide_True by (rewrite !length_map; repeat split; reflexivity).
  apply mapM_enumerate_map. intros i v Hv. simpl.
  rewrite decide_True by reflexivity.
  rewrite list_lookup_fmap, Hv. reflexivity.
Qed.

Lemma unpad_step_ok (i v : nat) :
  unique batch !! i = Some v ->
  BatchGRU.unpad_step g batch (unique_counts batch)
    (gru_outputs g h_atom batch M) (unpadded g h_atom batch M i) (i, v)
  = Ok (unpadded g h_atom batch M (S i)).
Proof.
  intros Hv. pose proof (members_count_le_M i v Hv) as HleM.
  unfold BatchGRU.unpad_step. simpl.
  rewrite (unique_counts_lookup i v Hv). simpl.
  unfold gru_outputs. rewrite list_lookup_fmap, Hv. simpl.
  unfold BatchGRU.masked_assign, nrows. simpl.
  rewrite eq_mask_length, length_imap, decide_True by reflexivity.
  unfold broadcast_to, nrows. simpl. rewrite to_size_same. simpl.
  rewrite length_take, gru_seq_length, (padded_sequence_length i v Hv).
  fold (members_count batch v).
  replace (members_count batch v `min` M) with (members_count batch v) by lia.
  rewrite to_size_same. simpl. rewrite expand_same, expand_rows_same.
  unfold unpadded. f_equal. f_equal. apply list_eq. intros p.
  rewrite scatter_rows_lookup.
  2: { rewrite eq_mask_length, length_imap. reflexivity. }
  2: { rewrite length_take, gru_seq_length, (padded_sequence_length i v Hv).
       fold (members_count batch v). lia. }
  rewrite eq_mask_lookup, !list_lookup_imap.
  destruct (batch !! p) as [b|] eqn:Hb; simpl; [|reflexivity].
  rewrite (take_S_r _ _ _ Hv).
  destruct (Nat.eqb b v) eqn:Hbv.
  - apply Nat.eqb_eq in Hbv as ->.
    rewrite decide_True by (apply elem_of_app; right; apply list_elem_of_here).
    unfold readout_row.
    assert (rank batch p = count_true (take p (eq_mask batch v))) as Hrank.
    { unfold rank. rewrite Hb. reflexivity. }
    rewrite <- Hrank.
    destruct (lookup_lt_is_Some_2
                (take (members_count batch v)
                   (BatchGRU.gru_seq g (padded_sequence g h_atom batch M v)
                      (initial_state h_atom batch v) (initial_state h_atom batch v)))
                (rank batch p)) as [r Hr].
    { rewrite length_take, gru_seq_length, (padded_sequence_length i v Hv).
      pose proof (rank_lt _ _ _ Hb). lia. }
    rewrite Hr. reflexivity.
  - apply Nat.eqb_neq in Hbv. f_equal.
    destruct (decide (b ∈ take i (unique batch))) as [Hin|Hin].
    + rewrite decide_True by (apply elem_of_app; left; exact Hin). reflexivity.
    + rewrite decide_False; [reflexivity|].
      intros [Hin'|Hin']%elem_of_app; [exact (Hin Hin')|].
      apply list_elem_of_singleton in Hin'. exact (Hbv Hin').
Qed.

(** The readout on a well-shaped input: the output row of every node. *)
Lemma forward_ok :
  BatchGRU.forward g h_atom batch
  = Ok (Mat (BatchGRU.hidden_channels g * 2)
            (imap (fun p b => readout_row g h_atom batch M p b) batch)).
Proof.
  unfold BatchGRU.forward. rewrite pack_ok. simpl.
  pose proof gru_ok as Hgru. simpl in Hgru. rewrite Hgru. simpl.
  destruct (foldM_enumerate
              (BatchGRU.unpad_step g batch (unique_counts batch)
                 (gru_outputs g h_atom batch M))
              (fun k out => out = unpadded g h_atom batch M k)
              (unique batch) (zeros2 (nrows h_atom) (BatchGRU.hidden_channels g * 2)))
    as (out & Hfold & ->).
  - unfold unpadded, zeros2. f_equal. apply list_eq. intros p.
    rewrite list_lookup_imap. rewrite <- batch_length.
    destruct (batch !! p) as [b|] eqn:Hb; simpl.
    + apply lookup_replicate_2. eapply lookup_lt_Some. exact Hb.
    + apply lookup_replicate_None. apply lookup_ge_None. exact Hb.
  - intros i v out Hv ->. eexists. split; [apply unpad_step_ok; exact Hv|reflexivity].
  - rewrite Hfold. unfold unpadded. f_equal. f_equal.
    apply imap_ext. intros p b Hb. simpl.
    rewrite take_ge by reflexivity.
    rewrite decide_True; [reflexivity|].
    apply unique_elem. eapply list_elem_of_lookup_2. exact Hb.
Qed.

End Loop.
End Packing.

(** ** The readout: what the recurrent layer is fed *)

Lemma padded_sequence_real {T} `{Scalar T} (g : BatchGRU.t T) (h_atom : matrix T)
    (batch : list nat) (M v k p : nat) (x : row T) :
  members batch v !! k = Some p -> rows h_atom !! p = Some x ->
  padded_sequence g h_atom batch M v !! k
  = Some (relu_row (zip_with sadd x (BatchGRU.bias g))).
Proof.
  intros Hk Hx. unfold padded_sequence.
  rewrite lookup_app_l by (rewrite gather_length; eapply lookup_lt_Some; exact Hk).
  unfold gather. rewrite list_lookup_fmap, Hk. simpl.
  unfold message_rows. rewrite list_lookup_fmap, Hx. reflexivity.
Qed.

Lemma padded_sequence_padding {T} `{Scalar T} (g : BatchGRU.t T) (h_atom : matrix T)
    (batch : list nat) (M v k : nat) :
  members_count batch v <= k < M ->
  padded_sequence g h_atom batch M v !! k = Some (zeros (BatchGRU.hidden_channels g)).
Proof.
  intros Hk. unfold padded_sequence.
  rewrite lookup_app_r; rewrite gather_length, members_length; [|lia].
  apply lookup_replicate_2. lia.
Qed.

(** C9: the sequences handed to the recurrent layer hold relu(node_embed +
    bias) at the positions of the graph's nodes and zeros after them, and
    both directions of the initial state of a graph are the elementwise
    maximum of the rows of node_embed itself over the nodes of the graph. *)
Theorem readout_sequences_and_seeds {T} `{Scalar T} (g : BatchGRU.t T)
    (h_atom : matrix T) (batch : list nat) (M : nat) :
  wf h_atom ->
  ncols h_atom = BatchGRU.hidden_channels g ->
  length (BatchGRU.bias g) = BatchGRU.hidden_channels g ->
  length batch = nrows h_atom ->
  max_item (unique_counts batch) = Ok M ->
  let messages :=
    map (fun v => Mat (BatchGRU.hidden_channels g) (padded_sequence g h_atom batch M v))
        (unique batch) in
  let state :=
    Mat (BatchGRU.hidden_channels g) (map (initial_state h_atom batch) (unique batch)) in
  BatchGRU.pack g h_atom batch = Ok (messages, [state; state])
  /\ BatchGRU.forward g h_atom batch
     = (let* h_messages := BatchGRU.gru g messages [state; state] in
        foldM (BatchGRU.unpad_step g batch (unique_counts batch) h_messages)
              (enumerate (unique batch))
              (zeros2 (nrows h_atom) (BatchGRU.hidden_channels g * 2)))
  /\ forall i v, unique batch !! i = Some v ->
       length (padded_sequence g h_atom batch M v) = M
       /\ (forall k p x, members batch v !! k = Some p -> rows h_atom !! p = Some x ->
             padded_sequence g h_atom batch M v !! k
             = Some (relu_row (zip_with sadd x (BatchGRU.bias g))))
       /\ (forall k, members_count batch v <= k < M ->
             padded_sequence g h_atom batch M v !! k
             = Some (zeros (BatchGRU.hidden_channels g)))
       /\ initial_state h_atom batch v = colmax (gather (rows h_atom) (members batch v)).
Proof.
  intros Hwf Hc Hb Hlen HM messages state.
  pose proof (pack_ok g h_atom batch Hwf Hc Hb Hlen M HM) as Hpack.
  split; [exact Hpack|]. split.
  - unfold BatchGRU.forward. rewrite Hpack. reflexivity.
  - intros i v Hv. split; [|split; [|split]].
    + eapply padded_sequence_length; eassumption.
    + intros k p x. apply padded_sequence_real.
    + intros k. apply padded_sequence_padding.
    + reflexivity.
Qed.

Lemma readout_sequences_and_seeds_witness :
  BatchGRU.pack Samples.readout (Mat 1 [[-1]; [4]; [-7]]%Z) [0; 1; 0]
  = Ok ([Mat 1 [[0]; [0]]; Mat 1 [[4]; [0]]]%Z,
        [Mat 1 [[-1]; [4]]; Mat 1 [[-1]; [4]]]%Z).
Proof.
  exact (proj1 (readout_sequences_and_seeds Samples.readout (Mat 1 [[-1]; [4]; [-7]]%Z)
                  [0; 1; 0] 2 (wfb_wf (Mat 1 [[-1]; [4]; [-7]]%Z) eq_refl)
                  eq_refl eq_refl eq_refl eq_refl)).
Defined.

(** ** The readout of a graph with a single node *)












(** ** Shapes through the layers *)

Section ShapeFacts.
Context {T : Type} `{Scalar T}.

Lemma message_booster_shaped : aggr_shaped (message_booster (T := T)).
Proof.
  intros inputs index dim_size Hlen Hidx. unfold message_booster.
  rewrite decide_True by exact Hlen.
  assert (forallb (fun i => Nat.ltb i dim_size) index = true) as ->.
  { apply forallb_forall. intros i Hi. apply Nat.ltb_lt.
    apply list_elem_of_In in Hi. exact (proj1 (Forall_forall _ _) Hidx i Hi). }
  eexists. split; [reflexivity|]. split; [|reflexivity].
  unfold nrows. simpl. rewrite length_map, length_seq. reflexivity.
Qed.

Lemma communicator_forward_shaped (hc : nat) (c : NodeEdgeMessageCommunicator.t T)
    (message x : matrix T) :
  communicator_shaped hc c ->
  ncols message = hc -> ncols x = hc -> nrows message = nrows x ->
  exists out, NodeEdgeMessageCommunicator.forward c message x = Ok out
              /\ nrows out = nrows x /\ ncols out = hc.
Proof.
  intros (Hname & Hgru & Hmlp) Hcm Hcx Hn.
  unfold NodeEdgeMessageCommunicator.forward.
  unfold NodeEdgeMessageCommunicator.names in Hname.
  repeat (apply elem_of_cons in Hname as [Hname|Hname]); [| | | |inversion Hname];
    rewrite Hname in *.
  - rewrite decide_True by reflexivity.
    rewrite broadcast_matrix_same_shape by congruence.
    eexists. split; [reflexivity|]. split; [|exact Hcx].
    unfold nrows in *. simpl. rewrite length_zip_with. lia.
  - rewrite decide_False by discriminate. rewrite decide_True by reflexivity.
    rewrite broadcast_matrix_same_shape by congruence.
    eexists. split; [reflexivity|]. split; [|exact Hcx].
    unfold nrows in *. simpl. rewrite length_zip_with. lia.
  - rewrite !decide_False by discriminate. rewrite decide_True by reflexivity.
    destruct (Hgru eq_refl) as (g & -> & Hi & Hh).
    unfold gru_cell. rewrite !decide_True by congruence.
    eexists. split; [reflexivity|]. split; [|exact Hh].
    unfold nrows in *. cbn [rows]. rewrite length_zip_with. lia.
  - rewrite !decide_False by discriminate. rewrite decide_True by reflexivity.
    destruct (Hmlp eq_refl) as (l & -> & Hi & Ho).
    simpl. rewrite decide_True by congruence. simpl.
    rewrite linear_ok by (simpl; lia). simpl.
    eexists. split; [reflexivity|]. split; [|exact Ho].
    unfold nrows in *. simpl. rewrite !length_map, length_zip_with. lia.
Qed.

Lemma propagate_shaped (hc : nat) (a : Aggregation T)
    (c : NodeEdgeMessageCommunicator.t T) (edge_index : list (nat * nat))
    (x edge_attr : matrix T) :
  aggr_shaped a -> communicator_shaped hc c ->
  length edge_index = nrows edge_attr ->
  Forall (fun e => e.1 < nrows x /\ e.2 < nrows x) edge_index ->
  ncols x = hc -> ncols edge_attr = hc ->
  exists out, propagate a (NodeEdgeMessageCommunicator.forward c) edge_index x edge_attr
              = Ok out
              /\ nrows out = nrows x /\ ncols out = hc.
Proof.
  intros Ha Hc Hlen Hidx Hcx Hce. unfold propagate.
  destruct (Ha edge_attr (edge_index.*2) (nrows x)) as (ag & -> & Hn & Hw).
  { rewrite length_fmap. exact Hlen. }
  { apply Forall_fmap. eapply Forall_impl; [exact Hidx|]. intros e He. apply He. }
  simpl. apply communicator_forward_shaped; congruence.
Qed.

Lemma edge_update_shaped (hc : nat) (e : GCNEConv.t T) (mask : option (nat -> nat -> T))
    (x : matrix T) (edge_index : list (nat * nat)) (edge_attr init_edge_embed : matrix T) :
  conve_shaped hc e ->
  Nat.Even (nrows edge_attr) ->
  length edge_index = nrows edge_attr ->
  Forall (fun e => e.1 < nrows x /\ e.2 < nrows x) edge_index ->
  ncols x = hc -> ncols edge_attr = hc ->
  nrows init_edge_embed = nrows edge_attr -> ncols init_edge_embed = hc ->
  exists out, GCNEConv.edge_update e mask x edge_index edge_attr init_edge_embed = Ok out
              /\ nrows out = nrows edge_attr /\ ncols out = hc.
Proof.
  intros (_ & Hin & Hout & _ & Hp) HE Hlen Hidx Hcx Hce Hni Hci.
  eexists. split.
  - apply edge_update_even; try assumption; try congruence.
    eapply Forall_impl; [exact Hidx|]. intros ed Hed. apply Hed.
  - rewrite (proj1 (apply_mask_shape _ _)), (proj2 (apply_mask_shape _ _)).
    split; [|exact Hout].
    unfold nrows in *. simpl.
    rewrite length_map, length_zip_with, length_map, length_zip_with,
      ?length_map, ?length_fmap.
    rewrite even_reverse_length by exact HE. lia.
Qed.

Lemma gcneconv_forward_shaped (hc : nat) (e : GCNEConv.t T)
    (mask : option (nat -> nat -> T))
    (x edge_attr : matrix T) (edge_index : list (nat * nat)) (init_edge_embed : matrix T) :
  conve_shaped hc e ->
  Nat.Even (nrows edge_attr) ->
  length edge_index = nrows edge_attr ->
  Forall (fun e => e.1 < nrows x /\ e.2 < nrows x) edge_index ->
  ncols x = hc -> ncols edge_attr = hc ->
  nrows init_edge_embed = nrows edge_attr -> ncols init_edge_embed = hc ->
  exists x' edge_attr',
    GCNEConv.forward e mask x edge_attr edge_index init_edge_embed = Ok (x', edge_attr')
    /\ nrows x' = nrows x /\ ncols x' = hc
    /\ nrows edge_attr' = nrows edge_attr /\ ncols edge_attr' = hc.
Proof.
  intros He HE Hlen Hidx Hcx Hce Hni Hci.
  pose proof He as (Hc & _ & _ & Ha & _).
  unfold GCNEConv.forward.
  destruct (propagate_shaped hc (GCNEConv.aggr_module e) (GCNEConv.communicator e)
              edge_index x edge_attr Ha Hc Hlen Hidx Hcx Hce) as (x' & Hx' & Hn' & Hc').
  unfold GCNEConv.update.
  change (fun message x0 => NodeEdgeMessageCommunicator.forward (GCNEConv.communicator e)
                              message x0)
    with (NodeEdgeMessageCommunicator.forward (GCNEConv.communicator e)).
  rewrite Hx'. simpl.
  destruct (edge_update_shaped hc e mask x' edge_index edge_attr init_edge_embed He HE Hlen)
    as (ea' & Hea' & Hne & Hce'); try assumption.
  { rewrite Hn'. exact Hidx. }
  rewrite Hea'. simpl. exists x', ea'. repeat split; assumption.
Qed.

Lemma gcnconv_forward_shaped (hc : nat) (n : GCNConv.t T)
    (x edge_attr : matrix T) (edge_index : list (nat * nat)) :
  convn_shaped hc n ->
  length edge_index = nrows edge_attr ->
  Forall (fun e => e.1 < nrows x /\ e.2 < nrows x) edge_index ->
  ncols x = hc -> ncols edge_attr = hc ->
  exists out, GCNConv.forward n x edge_attr edge_index = Ok out
              /\ nrows out = nrows x /\ ncols out = hc.
Proof.
  intros (Hc & Ha) Hlen Hidx Hcx Hce. unfold GCNConv.forward, GCNConv.update.
  change (fun message x0 => NodeEdgeMessageCommunicator.forward (GCNConv.communicator n)
                              message x0)
    with (NodeEdgeMessageCommunicator.forward (GCNConv.communicator n)).
  apply propagate_shaped; assumption.
Qed.


Lemma wf_linear (l : Linear T) (rs : list (row T)) :
  wf (Mat (out_features l) (map (linear_row l) rs)).
Proof.
  unfold wf. simpl. apply Forall_fmap, Forall_forall. intros r _. simpl.
  apply linear_row_length.
Qed.

Lemma wf_relu (A : matrix T) : wf A -> wf (relu A).
Proof.
  unfold wf, relu. simpl. intros HA. apply Forall_fmap.
  eapply Forall_impl; [exact HA|]. intros r Hr. simpl in *.
  unfold relu_row. rewrite length_map. exact Hr.
Qed.

Lemma wf_apply_mask (mask : option (nat -> nat -> T)) (A : matrix T) :
  wf A -> wf (apply_mask mask A).
Proof.
  destruct mask as [m|]; simpl; [|tauto].
  unfold wf. simpl. intros HA. apply Forall_lookup. intros i r Hr.
  rewrite list_lookup_imap in Hr.
  destruct (rows A !! i) as [r'|] eqn:Hr'; simpl in Hr; [|discriminate].
  injection Hr as <-. rewrite length_imap.
  exact (Forall_lookup_1 _ _ _ _ HA Hr').
Qed.

Lemma conv_loop_shaped (hc : nat) (training : option (nat -> nat -> nat -> T))
    (edge_index : list (nat * nat)) (init_bond_embed : matrix T)
    (es : list (GCNEConv.t T)) (n : GCNConv.t T) (x0 b0 : matrix T) :
  Forall (conve_shaped hc) es -> convn_shaped hc n ->
  Nat.Even (nrows b0) -> length edge_index = nrows b0 ->
  Forall (fun e => e.1 < nrows x0 /\ e.2 < nrows x0) edge_index ->
  ncols x0 = hc -> ncols b0 = hc ->
  nrows init_bond_embed = nrows b0 -> ncols init_bond_embed = hc ->
  exists st a,
    foldM (CMPNN.conv_step training (length (map CMPNN.ConvE es ++ [CMPNN.ConvN n])%list)
             edge_index init_bond_embed)
          (enumerate (map CMPNN.ConvE es ++ [CMPNN.ConvN n])%list)
          {| CMPNN.atom_embed := x0; CMPNN.bond_embed := b0; CMPNN.aggr_message := None |}
    = Ok st
    /\ CMPNN.aggr_message st = Some a
    /\ nrows a = nrows x0 /\ ncols a = hc
    /\ nrows (CMPNN.atom_embed st) = nrows x0 /\ ncols (CMPNN.atom_embed st) = hc.
Proof.
  intros Hes Hn HE Hlen Hidx Hcx Hcb Hni Hci.
  set (l := (map CMPNN.ConvE es ++ [CMPNN.ConvN n])%list).
  assert (length l = length es + 1) as Hl.
  { unfold l. rewrite length_app, length_map. reflexivity. }
  destruct (foldM_enumerate
              (CMPNN.conv_step training (length l) edge_index init_bond_embed)
              (fun k st =>
                 nrows (CMPNN.atom_embed st) = nrows x0
                 /\ ncols (CMPNN.atom_embed st) = hc
                 /\ nrows (CMPNN.bond_embed st) = nrows b0
                 /\ ncols (CMPNN.bond_embed st) = hc
                 /\ (k = length l ->
                     exists a, CMPNN.aggr_message st = Some a
                               /\ nrows a = nrows x0 /\ ncols a = hc))
              l
              {| CMPNN.atom_embed := x0; CMPNN.bond_embed := b0;
                 CMPNN.aggr_message := None |})
    as (st & Hfold & Ha & Hca & _ & _ & Hlast).
  - simpl. repeat split; try assumption; try reflexivity. intros H0. lia.
  - intros i layer st Hlayer (Ha & Hca & Hb & Hcb' & _).
    unfold CMPNN.conv_step. simpl.
    destruct (decide (i < length es)) as [Hi|Hi].
    + unfold l in Hlayer. rewrite lookup_app_l in Hlayer by (rewrite length_map; exact Hi).
      rewrite list_lookup_fmap in Hlayer.
      destruct (es !! i) as [e|] eqn:He; simpl in Hlayer; [|discriminate].
      injection Hlayer as <-.
      rewrite decide_False by lia.
      pose proof (Forall_lookup_1 _ _ _ _ Hes He) as Hshaped.
      destruct (gcneconv_forward_shaped hc e ((fun f => f i) <$> training)
                  (CMPNN.atom_embed st) (CMPNN.bond_embed st) edge_index init_bond_embed
                  Hshaped)
        as (x' & ea' & Hfw & Hnx & Hcx' & Hne & Hce); try congruence.
      { rewrite Ha. exact Hidx. }
      rewrite Hfw. simpl. eexists. split; [reflexivity|]. simpl.
      repeat split; try congruence. intros HS. lia.
    + pose proof (lookup_lt_Some _ _ _ Hlayer) as Hil.
      assert (i = length es) as -> by lia.
      unfold l in Hlayer. rewrite lookup_app_r in Hlayer by (rewrite length_map; lia).
      rewrite length_map, Nat.sub_diag in Hlayer. simpl in Hlayer.
      injection Hlayer as <-.
      rewrite decide_True by lia.
      destruct (gcnconv_forward_shaped hc n (CMPNN.atom_embed st) (CMPNN.bond_embed st)
                  edge_index Hn)
        as (a & Hfw & Hna & Hcna); try congruence.
      { rewrite Ha. exact Hidx. }
      rewrite Hfw. simpl. eexists. split; [reflexivity|]. simpl.
      repeat split; try assumption. intros _. exists a. repeat split; congruence.
  - destruct (Hlast eq_refl) as (a & Hag & Hna & Hcna).
    exists st, a. repeat split; assumption.
Qed.

Lemma unique_counts_nonempty (batch : list nat) : batch <> [] -> unique_counts batch <> [].
Proof.
  intros Hb Hu. destruct batch as [|b batch]; [congruence|].
  assert (b ∈ unique (b :: batch)) as Hin by (apply unique_elem, list_elem_of_here).
  unfold unique_counts in Hu. apply fmap_nil_inv in Hu. rewrite Hu in Hin.
  inversion Hin.
Qed.

End ShapeFacts.

(** C5 (as the code has it): for a model with the sizes the constructor
    gives it and with out_channels equal to hidden_channels, the forward
    pass on a valid batch with N >= 1 nodes and an even number of paired
    directed edges returns a matrix with exactly N rows and hidden_channels
    (= out_channels) columns. *)
Theorem forward_shape {T} `{Scalar T} (m : CMPNN.t T)
    (training : option (nat -> nat -> nat -> T))
    (x : matrix T) (edge_index : list (nat * nat)) (edge_attr : matrix T)
    (batch : list nat) :
  shaped m ->
  CMPNN.out_channels m = CMPNN.hidden_channels m ->
  ncols x = CMPNN.in_channels m -> 0 < nrows x ->
  ncols edge_attr = CMPNN.edge_dim m ->
  length edge_index = nrows edge_attr -> Nat.Even (nrows edge_attr) ->
  Forall (fun e => e.1 < nrows x /\ e.2 < nrows x) edge_index ->
  length batch = nrows x ->
  exists out,
    CMPNN.forward m training x edge_index edge_attr batch = Ok out
    /\ nrows out = nrows x
    /\ ncols out = CMPNN.hidden_channels m
    /\ ncols out = CMPNN.out_channels m
    /\ wf out.
Proof.
  intros (Hai & Hao & Hbi & Hbo & (es & n & Hconvs & Hes & Hn) & Hli & Hlo
          & Hgh & Hgb & Hsi & Hso & Hsp) Hout Hcx HN Hce Hlen HE Hidx Hbatch.
  unfold CMPNN.forward.
  rewrite linear_ok by congruence. simpl.
  rewrite linear_ok by congruence. simpl.
  rewrite Hconvs.
  destruct (conv_loop_shaped (CMPNN.hidden_channels m) training edge_index
              (relu (Mat (out_features (CMPNN.bond_proj m))
                         (map (linear_row (CMPNN.bond_proj m)) (rows edge_attr))))
              es n
              (relu (Mat (out_features (CMPNN.atom_proj m))
                         (map (linear_row (CMPNN.atom_proj m)) (rows x))))
              (relu (Mat (out_features (CMPNN.bond_proj m))
                         (map (linear_row (CMPNN.bond_proj m)) (rows edge_attr))))
              Hes Hn)
    as (st & a & Hfold & Hag & Hna & Hca & Hnx & Hcx').
  { unfold nrows in *. simpl. rewrite !length_map. exact HE. }
  { unfold nrows in *. simpl. rewrite !length_map. exact Hlen. }
  { unfold nrows in *. simpl. rewrite !length_map. exact Hidx. }
  { exact Hao. }
  { exact Hbo. }
  { reflexivity. }
  { exact Hbo. }
  rewrite Hfold. simpl. rewrite Hag.
  assert (nrows (relu (Mat (out_features (CMPNN.atom_proj m))
                           (map (linear_row (CMPNN.atom_proj m)) (rows x)))) = nrows x)
    as Hn0 by (unfold nrows; simpl; rewrite !length_map; reflexivity).
  rewrite Hn0 in Hna, Hnx.
  simpl. rewrite decide_True by congruence. simpl.
  rewrite decide_True.
  2: { unfold nrows in *. simpl. rewrite length_zip_with, !length_map. lia. }
  simpl. rewrite linear_ok by (simpl; lia). simpl.
  destruct (max_item_ok (unique_counts batch)) as [M HM].
  { apply unique_counts_nonempty. intros ->. simpl in Hbatch. lia. }
  rewrite (forward_ok (CMPNN.gru m) _ batch (wf_linear _ _)) with (M := M); simpl;
    try congruence.
  2: { unfold nrows in *. simpl.
       rewrite length_map, !length_zip_with, !length_map. lia. }
  rewrite linear_ok by (simpl; congruence). simpl.
  unfold dropout. rewrite Hsp.
  eexists. split; [reflexivity|].
  rewrite (proj1 (apply_mask_shape _ _)), (proj2 (apply_mask_shape _ _)).
  split; [|split; [|split]].
  - unfold nrows. simpl. rewrite !length_map, length_imap. exact Hbatch.
  - exact Hso.
  - simpl. congruence.
  - apply wf_apply_mask, wf_relu, wf_linear.
Qed.

(** ** The constructor gives a model its sizes *)

Section InitShapes.
Context {T : Type} `{Scalar T}.

Lemma communicator_init_shaped (ip : NodeEdgeMessageCommunicator.init_params T)
    (name : string) (hc : nat) (c : NodeEdgeMessageCommunicator.t T) :
  NodeEdgeMessageCommunicator.__init__ ip name hc = Ok c -> communicator_shaped hc c.
Proof.
  unfold NodeEdgeMessageCommunicator.__init__.
  destruct (decide (name ∈ NodeEdgeMessageCommunicator.names)) as [Hn|Hn]; [|discriminate].
  intros [= <-]. unfold communicator_shaped. simpl. split; [exact Hn|]. split.
  - intros ->. rewrite decide_True by reflexivity. eexists. repeat split.
  - intros ->. rewrite decide_False by discriminate. rewrite decide_True by reflexivity.
    eexists. repeat split.
Qed.

Lemma init_communicator_shaped (hc : nat) (c : NodeEdgeMessageCommunicator.t T) :
  communicator_shaped hc c -> communicator_shaped hc (CMPNN.init_communicator c).
Proof.
  intros (Hn & Hg & Hm). unfold communicator_shaped, CMPNN.init_communicator. simpl.
  split; [exact Hn|]. split.
  - intros Hname. destruct (Hg Hname) as (g & -> & Hi & Hh). exists g. repeat split; assumption.
  - intros Hname. destruct (Hm Hname) as (l & -> & Hi & Ho).
    exists (CMPNN._init_weights l). repeat split; assumption.
Qed.

Lemma conve_init_shaped (ip : GCNEConv.init_params T) (hc : nat) (name : string)
    (p : Q) (bias : bool) (e : GCNEConv.t T) :
  GCNEConv.__init__ ip hc hc name p bias = Ok e ->
  aggr_shaped (GCNEConv.ip_aggr ip) -> valid_p p = true ->
  conve_shaped hc e.
Proof.
  unfold GCNEConv.__init__.
  destruct (NodeEdgeMessageCommunicator.__init__ _ name hc) as [c|err] eqn:Hc;
    simpl; [|discriminate].
  intros [= <-] Ha Hp. unfold conve_shaped. simpl.
  repeat split; try assumption; try reflexivity.
  all: apply (communicator_init_shaped _ _ _ _ Hc).
Qed.

Lemma convn_init_shaped (ip : GCNConv.init_params T) (hc : nat) (name : string)
    (n : GCNConv.t T) :
  GCNConv.__init__ ip hc hc name = Ok n ->
  aggr_shaped (GCNConv.ip_aggr ip) ->
  convn_shaped hc n.
Proof.
  unfold GCNConv.__init__.
  destruct (NodeEdgeMessageCommunicator.__init__ _ name hc) as [c|err] eqn:Hc;
    simpl; [|discriminate].
  intros [= <-] Ha. unfold convn_shaped. simpl.
  split; [exact (communicator_init_shaped _ _ _ _ Hc)|exact Ha].
Qed.

Lemma init_conve_shaped (hc : nat) (e : GCNEConv.t T) :
  conve_shaped hc e ->
  exists e', CMPNN.init_conv (CMPNN.ConvE e) = CMPNN.ConvE e' /\ conve_shaped hc e'.
Proof.
  intros (Hc & Hi & Ho & Ha & Hp). eexists. split; [reflexivity|].
  unfold conve_shaped. simpl. repeat split; try assumption.
  all: apply (init_communicator_shaped hc _ Hc).
Qed.

Lemma init_convs_shaped (hc : nat) (name : string) (p : Q) (bias : bool)
    (ipc : nat -> GCNEConv.init_params T) (ks : list nat) (cs : list CMPNN.conv) :
  (forall k, aggr_shaped (GCNEConv.ip_aggr (ipc k))) -> valid_p p = true ->
  mapM (fun k => let* c := GCNEConv.__init__ (ipc k) hc hc name p bias in
                 Ok (CMPNN.ConvE c)) ks = Ok cs ->
  exists es, map CMPNN.init_conv cs = map CMPNN.ConvE es /\ Forall (conve_shaped hc) es.
Proof.
  intros Ha Hp Hcs. apply mapM_ok_Forall2 in Hcs.
  induction Hcs as [|k c ks cs Hk _ IH].
  - exists []. split; [reflexivity|constructor].
  - destruct IH as (es & Hmap & Hes).
    destruct (GCNEConv.__init__ (ipc k) hc hc name p bias) as [e|err] eqn:He;
      simpl in Hk; [|discriminate].
    injection Hk as <-.
    destruct (init_conve_shaped hc e (conve_init_shaped _ _ _ _ _ _ He (Ha k) Hp))
      as (e' & He' & Hshaped).
    exists (e' :: es). split; [|constructor; assumption].
    change (map CMPNN.init_conv (CMPNN.ConvE e :: cs))
      with (CMPNN.init_conv (CMPNN.ConvE e) :: map CMPNN.init_conv cs).
    rewrite He', Hmap. reflexivity.
Qed.

(** Every model that the constructor returns has the sizes of [shaped]. *)
Lemma init_shaped (ip : CMPNN.init_params T)
    (in_channels hidden_channels out_channels edge_dim : nat) (num_layers : Z)
    (communicator_name : string) (dropout : Q) (bias : bool) (m : CMPNN.t T) :
  (forall k, aggr_shaped (GCNEConv.ip_aggr (CMPNN.ip_conv ip k))) ->
  aggr_shaped (GCNConv.ip_aggr (CMPNN.ip_last ip)) ->
  CMPNN.__init__ ip in_channels hidden_channels out_channels edge_dim num_layers
    communicator_name dropout bias = Ok m ->
  shaped m
  /\ CMPNN.in_channels m = in_channels /\ CMPNN.hidden_channels m = hidden_channels
  /\ CMPNN.out_channels m = out_channels /\ CMPNN.edge_dim m = edge_dim.
Proof.
  intros Hae Han. unfold CMPNN.__init__.
  destruct (mapM _ (seq 0 (Z.to_nat (num_layers - 1)))) as [cs|err] eqn:Hcs;
    simpl; [|discriminate].
  destruct (GCNConv.__init__ _ hidden_channels hidden_channels communicator_name)
    as [n|err] eqn:Hn; simpl; [|discriminate].
  unfold BatchGRU.__init__.
  destruct (decide (hidden_channels = 0)) as [Hz|Hz]; simpl; [discriminate|].
  destruct (valid_p dropout) eqn:Hp; [|discriminate].
  intros [= <-]. split; [|repeat split; reflexivity].
  destruct (init_convs_shaped hidden_channels communicator_name dropout bias
              (CMPNN.ip_conv ip) _ cs Hae Hp Hcs) as (es & Hmap & Hes).
  unfold shaped. simpl.
  repeat split; try reflexivity; try (destruct bias; reflexivity).
  - exists es. eexists. split.
    + rewrite map_app, Hmap. reflexivity.
    + split; [exact Hes|].
      pose proof (convn_init_shaped _ _ _ _ Hn Han) as (Hc & Ha).
      split; [apply (init_communicator_shaped _ _ Hc)|exact Ha].
  - rewrite length_map, length_seq. reflexivity.
  - exact Hp.
Qed.

End InitShapes.

Lemma forward_shape_witness :
  exists m,
    CMPNN.__init__ Samples.cmpnn_ip 1 2 2 1 2 "additive" 0 false = Ok m
    /\ exists out,
         CMPNN.forward m None (Mat 1 [[1]; [2]]%Z) Samples.one_bond (Mat 1 [[1]; [1]]%Z)
           [0; 0] = Ok out
         /\ nrows out = 2 /\ ncols out = 2 /\ ncols out = CMPNN.out_channels m /\ wf out.
Proof.
  eexists. split; [reflexivity|].
  refine (forward_shape _ None (Mat 1 [[1]; [2]]%Z) Samples.one_bond (Mat 1 [[1]; [1]]%Z)
            [0; 0] _ _ _ _ _ _ _ _ _).
  - refine (proj1 (init_shaped Samples.cmpnn_ip 1 2 2 1 2 "additive" 0 false _ _ _ eq_refl)).
    + intros k. apply message_booster_shaped.
    + apply message_booster_shaped.
  - reflexivity.
  - reflexivity.
  - unfold nrows. simpl. lia.
  - reflexivity.
  - reflexivity.
  - exists 1. reflexivity.
  - repeat constructor.
  - reflexivity.
Defined.

(** C5, the claim as stated fails: built with hidden_channels = 2 and
    out_channels = 1, the model returns two columns for a batch of two
    atoms joined by a bond.  The one column that [lin] produces is broadcast
    against the bias of the readout, and [seq_out] ends on hidden_channels
    columns. *)
Lemma forward_width_is_hidden_channels :
  exists m out,
    CMPNN.__init__ Samples.cmpnn_ip 1 2 1 1 2 "additive" 0 false = Ok m
    /\ CMPNN.forward m None (Mat 1 [[1]; [2]]%Z) Samples.one_bond (Mat 1 [[1]; [1]]%Z)
         [0; 0] = Ok out
    /\ CMPNN.out_channels m = 1
    /\ nrows out = 2 /\ ncols out = 2
    /\ ncols out <> CMPNN.out_channels m.
Proof.
  eexists. eexists. split; [reflexivity|]. split; [vm_compute; reflexivity|].
  split; [reflexivity|]. split; [reflexivity|]. split; [reflexivity|].
  simpl. discriminate.
Qed.

(** * Further properties of the code *)

(** ** The reverse-edge index for any edge count *)

Lemma reverse_pairs_permutation (s m : nat) :
  flat_map (fun i => [i * 2 + 1; i * 2]) (seq s m) ≡ₚ seq (2 * s) (2 * m).
Proof.
  revert s. induction m as [|m IH]; intros s; [reflexivity|].
  replace (2 * S m) with (S (S (2 * m))) by lia. simpl seq. simpl flat_map.
  replace (s * 2 + 1) with (S (2 * s)) by lia.
  replace (s * 2) with (2 * s) by lia.
  rewrite (IH (S s)). replace (2 * S s) with (S (S (2 * s))) by lia.
  apply perm_swap.
Qed.

Lemma get_reverse_edge_index_floor (n : nat) :
  GCNEConv.get_reverse_edge_index n = GCNEConv.get_reverse_edge_index (2 * (n / 2)).
Proof.
  rewrite !get_reverse_edge_index_flat_map.
  rewrite (Nat.mul_comm 2 (n / 2)), Nat.div_mul by lia. reflexivity.
Qed.

(** X1: for every edge count n, even or odd, the reverse index is a
    rearrangement of the edge ids 0 .. 2*(n div 2) - 1 that swaps every id
    with its mate; with an odd n the last edge id, n - 1, is not in it. *)
Theorem reverse_edge_index_is_pairing (n : nat) :
  GCNEConv.get_reverse_edge_index n ≡ₚ seq 0 (2 * (n / 2))
  /\ (forall e, e < 2 * (n / 2) ->
        GCNEConv.get_reverse_edge_index n !! e = Some (mate e)
        /\ GCNEConv.get_reverse_edge_index n !! mate e = Some e)
  /\ (forall e, 2 * (n / 2) <= e -> GCNEConv.get_reverse_edge_index n !! e = None)
  /\ (Nat.Odd n -> n - 1 ∉ GCNEConv.get_reverse_edge_index n).
Proof.
  assert (Nat.Even (2 * (n / 2))) as HE by (exists (n / 2); reflexivity).
  split; [|split; [|split]].
  - rewrite get_reverse_edge_index_flat_map.
    exact (reverse_pairs_permutation 0 (n / 2)).
  - intros e He. rewrite get_reverse_edge_index_floor.
    split; [apply get_reverse_edge_index_mate; assumption|].
    rewrite get_reverse_edge_index_mate; [|exact HE|apply mate_lt; assumption].
    f_equal. apply mate_spec.
  - intros e He. apply lookup_ge_None_2.
    rewrite get_reverse_edge_index_length. exact He.
  - intros [k ->] Hin.
    assert ((2 * k + 1) / 2 = k) as Hk.
    { replace (2 * k + 1) with (1 + k * 2) by lia. rewrite Nat.div_add by lia. reflexivity. }
    rewrite get_reverse_edge_index_floor, Hk in Hin.
    pose proof (proj1 (Forall_forall _ _) (get_reverse_edge_index_lt (2 * k)) _ Hin)
      as Hlt.
    cbn beta in Hlt. lia.
Qed.

Lemma reverse_edge_index_is_pairing_witness :
  GCNEConv.get_reverse_edge_index 5 !! 2 = Some 3
  /\ GCNEConv.get_reverse_edge_index 5 !! 3 = Some 2
  /\ GCNEConv.get_reverse_edge_index 5 !! 4 = None
  /\ 4 ∉ GCNEConv.get_reverse_edge_index 5.
Proof.
  destruct (reverse_edge_index_is_pairing 5) as (_ & Hmate & Hnone & Hodd).
  destruct (Hmate 2) as [H2 H3]; [simpl; lia|].
  split; [exact H2|]. split; [exact H3|]. split.
  - apply Hnone. simpl. lia.
  - apply Hodd. exists 2. reflexivity.
Defined.

(** ** The four policies of the communicator *)

(** X2: whatever the policy, a communicator built for the hidden width hc
    takes a message and a hidden state of shape N x hc to an output of
    shape N x hc. *)
Theorem communicator_keeps_shape {T} `{Scalar T}
    (ip : NodeEdgeMessageCommunicator.init_params T) (name : string) (hc : nat)
    (message hidden : matrix T) :
  name ∈ NodeEdgeMessageCommunicator.names ->
  ncols message = hc -> ncols hidden = hc -> nrows message = nrows hidden ->
  exists c out,
    NodeEdgeMessageCommunicator.__init__ ip name hc = Ok c
    /\ NodeEdgeMessageCommunicator.forward c message hidden = Ok out
    /\ nrows out = nrows hidden /\ ncols out = hc.
Proof.
  intros Hname Hcm Hch Hn.
  destruct (communicator_init_ok ip name hc Hname) as (c & Hc & _).
  destruct (communicator_forward_shaped hc c message hidden
              (communicator_init_shaped ip name hc c Hc) Hcm Hch Hn)
    as (out & Hout & Hno & Hco).
  exists c, out. repeat split; assumption.
Qed.

Lemma communicator_keeps_shape_witness :
  exists c out,
    NodeEdgeMessageCommunicator.__init__ MoreSamples.gru_comm_ip "mlp" 2 = Ok c
    /\ NodeEdgeMessageCommunicator.forward c (Mat 2 [[1; 0]; [0; 0]]%Z)
         (Mat 2 [[0; 1]; [0; -1]]%Z) = Ok out
    /\ nrows out = 2 /\ ncols out = 2.
Proof.
  refine (communicator_keeps_shape MoreSamples.gru_comm_ip "mlp" 2
            (Mat 2 [[1; 0]; [0; 0]]%Z) (Mat 2 [[0; 1]; [0; -1]]%Z) _ eq_refl eq_refl eq_refl).
  unfold NodeEdgeMessageCommunicator.names.
  do 3 apply list_elem_of_further. apply list_elem_of_here.
Defined.

(** X3: the 'gru' policy hands the hidden state to the recurrent cell as
    its input and the message as its previous state; the 'mlp' policy
    applies its linear layer and the rectifier to the features of the hidden
    state followed by those of the message. *)
Theorem communicator_gru_mlp_argument_order {T} `{Scalar T}
    (ip : NodeEdgeMessageCommunicator.init_params T) (hc : nat)
    (message hidden : matrix T) :
  ncols message = hc -> ncols hidden = hc -> nrows message = nrows hidden ->
  (exists c,
      NodeEdgeMessageCommunicator.__init__ ip "gru" hc = Ok c
      /\ NodeEdgeMessageCommunicator.forward c message hidden
         = Ok (Mat hc (zip_with (fun h m => NodeEdgeMessageCommunicator.ip_gru_step ip h m)
                                (rows hidden) (rows message))))
  /\ (exists c l,
      NodeEdgeMessageCommunicator.__init__ ip "mlp" hc = Ok c
      /\ NodeEdgeMessageCommunicator.communicator c
         = Some (NodeEdgeMessageCommunicator.SubMlp l)
      /\ NodeEdgeMessageCommunicator.forward c message hidden
         = Ok (Mat hc (zip_with (fun h m => relu_row (linear_row l (h ++ m)%list))
                                (rows hidden) (rows message)))).
Proof.
  intros Hcm Hch Hn. split.
  - eexists. split; [reflexivity|].
    unfold NodeEdgeMessageCommunicator.forward. simpl.
    unfold gru_cell. simpl. rewrite !decide_True by congruence. reflexivity.
  - eexists. eexists. split; [reflexivity|]. split; [reflexivity|].
    unfold NodeEdgeMessageCommunicator.forward. simpl.
    rewrite decide_True by congruence. simpl.
    rewrite linear_ok by (simpl; lia). simpl. unfold relu. simpl.
    f_equal. f_equal. rewrite map_map.
    generalize (rows hidden) (rows message). clear.
    induction l as [|h hs IH]; intros [|m ms]; simpl; try reflexivity.
    rewrite IH. reflexivity.
Qed.

Lemma communicator_gru_mlp_argument_order_witness :
  (exists c,
      NodeEdgeMessageCommunicator.__init__ MoreSamples.gru_comm_ip "gru" 1 = Ok c
      /\ NodeEdgeMessageCommunicator.forward c (Mat 1 [[5]]%Z) (Mat 1 [[7]]%Z)
         = Ok (Mat 1 [[7]]%Z))
  /\ (exists c l,
      NodeEdgeMessageCommunicator.__init__ MoreSamples.gru_comm_ip "mlp" 1 = Ok c
      /\ NodeEdgeMessageCommunicator.communicator c
         = Some (NodeEdgeMessageCommunicator.SubMlp l)
      /\ NodeEdgeMessageCommunicator.forward c (Mat 1 [[5]]%Z) (Mat 1 [[7]]%Z)
         = Ok (Mat 1 [[10]]%Z)).
Proof.
  destruct (communicator_gru_mlp_argument_order MoreSamples.gru_comm_ip 1
              (Mat 1 [[5]]%Z) (Mat 1 [[7]]%Z) eq_refl eq_refl eq_refl)
    as [(c & Hc & Hf) (c' & l & Hc' & Hl & Hf')].
  split.
  - exists c. split; [exact Hc|exact Hf].
  - exists c', l. split; [exact Hc'|]. split; [exact Hl|].
    injection Hc' as <-. injection Hl as <-. exact Hf'.
Defined.

(** ** Node ids outside the batch, and shapes through one layer *)

Lemma index_rows_out_of_range {T} (A : matrix T) (idx : list nat) :
  Exists (fun i => nrows A <= i) idx -> index_rows A idx = Err IndexError.
Proof.
  intros Hex. unfold index_rows.
  assert (mapM (fun i => match rows A !! i with
                         | Some r => Ok r
                         | None => Err IndexError
                         end) idx = Err IndexError) as ->; [|reflexivity].
  induction idx as [|i idx IH]; [inversion Hex|]. simpl.
  destruct (rows A !! i) as [r|] eqn:Hr; simpl; [|reflexivity].
  apply Exists_cons in Hex as [Hi|Hex].
  - apply lookup_lt_Some in Hr. unfold nrows in Hi. lia.
  - rewrite (IH Hex). reflexivity.
Qed.

(** X4: an edge whose first entry is not a node of the batch makes the edge
    update fail with an index error, whatever the other arguments are. *)
Theorem edge_update_source_out_of_range {T} `{Scalar T}
    (c : GCNEConv.t T) (mask : option (nat -> nat -> T))
    (x : matrix T) (edge_index : list (nat * nat)) (edge_attr init_edge_embed : matrix T) :
  Exists (fun e => nrows x <= e.1) edge_index ->
  GCNEConv.edge_update c mask x edge_index edge_attr init_edge_embed = Err IndexError.
Proof.
  intros Hex. unfold GCNEConv.edge_update.
  rewrite index_rows_out_of_range; [reflexivity|].
  apply Exists_fmap. exact Hex.
Qed.

Lemma edge_update_source_out_of_range_witness :
  GCNEConv.edge_update Samples.conve None Samples.two_atoms [(0, 1); (2, 0)]
    Samples.bond_embed Samples.bond_init = Err IndexError.
Proof.
  apply (edge_update_source_out_of_range Samples.conve None Samples.two_atoms
           [(0, 1); (2, 0)] Samples.bond_embed Samples.bond_init).
  apply Exists_cons_tl, Exists_cons_hd. unfold nrows. simpl. lia.
Defined.

(** X5: a layer built by the constructor for the width hc keeps the shapes:
    on N x hc node embeddings and E x hc edge embeddings, E even, with every
    edge between nodes of the batch, it returns N x hc node embeddings and
    E x hc edge embeddings.  A graph without edges is no exception. *)
Theorem gcneconv_keeps_shapes {T} `{Scalar T}
    (ip : GCNEConv.init_params T) (hc : nat) (name : string) (p : Q) (bias : bool)
    (mask : option (nat -> nat -> T))
    (x edge_attr : matrix T) (edge_index : list (nat * nat)) (init_edge_embed : matrix T) :
  name ∈ NodeEdgeMessageCommunicator.names -> valid_p p = true ->
  aggr_shaped (GCNEConv.ip_aggr ip) ->
  Nat.Even (nrows edge_attr) ->
  length edge_index = nrows edge_attr ->
  Forall (fun e => e.1 < nrows x /\ e.2 < nrows x) edge_index ->
  ncols x = hc -> ncols edge_attr = hc ->
  nrows init_edge_embed = nrows edge_attr -> ncols init_edge_embed = hc ->
  exists c x' edge_attr',
    GCNEConv.__init__ ip hc hc name p bias = Ok c
    /\ GCNEConv.forward c mask x edge_attr edge_index init_edge_embed = Ok (x', edge_attr')
    /\ nrows x' = nrows x /\ ncols x' = hc
    /\ nrows edge_attr' = nrows edge_attr /\ ncols edge_attr' = hc.
Proof.
  intros Hname Hp Ha HE Hlen Hidx Hcx Hce Hni Hci.
  destruct (communicator_init_ok (GCNEConv.ip_communicator ip) name hc Hname)
    as (cm & Hcm & _).
  assert (exists c, GCNEConv.__init__ ip hc hc name p bias = Ok c) as [c Hc].
  { unfold GCNEConv.__init__. rewrite Hcm. eexists. reflexivity. }
  destruct (gcneconv_forward_shaped hc c mask x edge_attr edge_index init_edge_embed
              (conve_init_shaped ip hc name p bias c Hc Ha Hp) HE Hlen Hidx Hcx Hce Hni Hci)
    as (x' & ea' & Hfw & Hshape).
  exists c, x', ea'. split; [exact Hc|]. split; [exact Hfw|exact Hshape].
Qed.

Lemma gcneconv_keeps_shapes_witness :
  exists c x' edge_attr',
    GCNEConv.__init__ Samples.conve_ip 1 1 "inner_product" 0 false = Ok c
    /\ GCNEConv.forward c None MoreSamples.three_atoms (Mat 1 []) [] (Mat 1 [])
       = Ok (x', edge_attr')
    /\ nrows x' = 3 /\ ncols x' = 1 /\ nrows edge_attr' = 0 /\ ncols edge_attr' = 1.
Proof.
  refine (gcneconv_keeps_shapes Samples.conve_ip 1 "inner_product" 0 false None
            MoreSamples.three_atoms (Mat 1 []) [] (Mat 1 [])
            _ eq_refl message_booster_shaped (ex_intro _ 0 eq_refl) eq_refl
            (Forall_nil_2 _) eq_refl eq_refl eq_refl eq_refl).
  unfold NodeEdgeMessageCommunicator.names.
  apply list_elem_of_further, list_elem_of_here.
Defined.

(** X6: the node half of the edge-updating layer is the final layer: with
    the same communicator and aggregation, whenever the edge-updating layer
    returns, its node embedding is what [GCNConv] returns on the same
    input. *)
Theorem gcneconv_node_update_is_gcnconv {T} `{Scalar T}
    (e : GCNEConv.t T) (n : GCNConv.t T) (mask : option (nat -> nat -> T))
    (x edge_attr : matrix T) (edge_index : list (nat * nat))
    (init_edge_embed x' edge_attr' : matrix T) :
  GCNConv.communicator n = GCNEConv.communicator e ->
  GCNConv.aggr_module n = GCNEConv.aggr_module e ->
  GCNEConv.forward e mask x edge_attr edge_index init_edge_embed = Ok (x', edge_attr') ->
  GCNConv.forward n x edge_attr edge_index = Ok x'.
Proof.
  intros Hc Ha. unfold GCNEConv.forward, GCNConv.forward, GCNConv.update, GCNEConv.update.
  rewrite Hc, Ha.
  destruct (propagate _ _ edge_index x edge_attr) as [y|err]; simpl; [|discriminate].
  destruct (GCNEConv.edge_update _ _ _ _ _ _) as [ea|err]; simpl; [|discriminate].
  intros [= -> _]. reflexivity.
Qed.

Lemma gcneconv_node_update_is_gcnconv_witness :
  GCNConv.forward Samples.convn Samples.two_atoms Samples.bond_embed Samples.one_bond
  = Ok (Mat 1 [[14]; [21]]%Z).
Proof.
  exact (gcneconv_node_update_is_gcnconv Samples.conve Samples.convn None
           Samples.two_atoms Samples.bond_embed Samples.one_bond Samples.bond_init
           (Mat 1 [[14]; [21]]%Z) (Mat 1 [[12]; [20]]%Z) eq_refl eq_refl eq_refl).
Defined.

(** ** The readout on inputs it refuses *)

(** X7: a hidden width of zero is refused at construction, by the readout
    and so by the model, whatever the other arguments; any other width
    gives the readout a bias of exactly that many entries. *)
Theorem zero_hidden_width_is_refused {T} `{Scalar T} :
  (forall ip : BatchGRU.init_params T, is_ok (BatchGRU.__init__ ip 0) = false)
  /\ (forall (ip : CMPNN.init_params T) (in_channels out_channels edge_dim : nat)
        (num_layers : Z) (communicator_name : string) (dropout : Q) (bias : bool),
        is_ok (CMPNN.__init__ ip in_channels 0 out_channels edge_dim num_layers
                 communicator_name dropout bias) = false)
  /\ (forall (ip : BatchGRU.init_params T) (hc : nat),
        hc <> 0 ->
        exists g, BatchGRU.__init__ ip hc = Ok g
                  /\ BatchGRU.hidden_channels g = hc
                  /\ length (BatchGRU.bias g) = hc
                  /\ forall j, j < hc -> BatchGRU.bias g !! j = Some (BatchGRU.ip_bias ip j)).
Proof.
  split; [|split].
  - intros ip. reflexivity.
  - intros ip ic oc ed nl name p bias. unfold CMPNN.__init__.
    destruct (mapM _ _) as [cs|err]; simpl; [|reflexivity].
    destruct (GCNConv.__init__ _ _ _ _) as [n|err]; reflexivity.
  - intros ip hc Hhc. unfold BatchGRU.__init__. rewrite decide_False by exact Hhc.
    eexists. split; [reflexivity|]. simpl.
    split; [reflexivity|]. split; [rewrite length_map, length_seq; reflexivity|].
    intros j Hj. rewrite list_lookup_fmap, lookup_seq_lt by exact Hj. reflexivity.
Qed.

Lemma zero_hidden_width_is_refused_witness :
  exists g, BatchGRU.__init__ Samples.gru_ip 3 = Ok g
            /\ BatchGRU.hidden_channels g = 3
            /\ length (BatchGRU.bias g) = 3
            /\ forall j, j < 3 -> BatchGRU.bias g !! j
                                  = Some (BatchGRU.ip_bias Samples.gru_ip j).
Proof.
  apply (proj2 (proj2 zero_hidden_width_is_refused) Samples.gru_ip 3). discriminate.
Defined.

Lemma broadcast_matrix_err {T} `{Scalar T} (op : T -> T -> T) (A B : matrix T) (e : error) :
  broadcast_matrix op A B = Err e -> e = RuntimeError.
Proof.
  unfold broadcast_matrix.
  destruct (bsize (ncols A) (ncols B)) as [c|e1] eqn:Hc; simpl.
  - destruct (bsize (nrows A) (nrows B)) as [n|e2] eqn:Hn; simpl; [discriminate|].
    intros [= <-]. exact (bsize_err _ _ _ Hn).
  - intros [= <-]. exact (bsize_err _ _ _ Hc).
Qed.

Lemma readout_empty_batch {T} `{Scalar T} (g : BatchGRU.t T) (h_atom : matrix T) :
  BatchGRU.forward g h_atom [] = Err RuntimeError.
Proof.
  unfold BatchGRU.forward, BatchGRU.pack.
  destruct (broadcast_matrix sadd h_atom (as_matrix (BatchGRU.bias g))) as [s|e] eqn:Hs;
    simpl; [reflexivity|].
  apply broadcast_matrix_err in Hs as ->. reflexivity.
Qed.

(** X8: an empty graph assignment is refused: the readout of a batch
    without nodes fails with a runtime error, whatever the embedding passed
    with it. *)
Theorem readout_refuses_empty_batch {T} `{Scalar T} (g : BatchGRU.t T) (h_atom : matrix T) :
  BatchGRU.forward g h_atom [] = Err RuntimeError
  /\ BatchGRU.forward g (Mat (BatchGRU.hidden_channels g) []) [] = Err RuntimeError.
Proof. split; apply readout_empty_batch. Qed.

Lemma foldM_fails {A St} (f : St -> A -> result St) (l : list A) (s : St) :
  Exists (fun a => forall s, is_ok (f s a) = false) l -> is_ok (foldM f l s) = false.
Proof.
  intros Hex. revert s. induction Hex as [a l Ha|a l _ IH]; intros s; simpl.
  - specialize (Ha s). destruct (f s a); [discriminate|reflexivity].
  - destruct (f s a) as [s'|e]; simpl; [apply IH|reflexivity].
Qed.

Lemma enumerate_lookup {A} (l : list A) (i : nat) (a : A) :
  l !! i = Some a -> enumerate l !! i = Some (i, a).
Proof.
  intros Ha. unfold enumerate. rewrite lookup_zip_with, Ha.
  rewrite lookup_seq_lt by (eapply lookup_lt_Some; exact Ha). reflexivity.
Qed.

Lemma message_nrows {T} `{Scalar T} (h_atom s : matrix T) (b : row T) :
  broadcast_matrix sadd h_atom (as_matrix b) = Ok s -> nrows s = nrows h_atom.
Proof.
  unfold broadcast_matrix, as_matrix, nrows. simpl.
  destruct (bsize (ncols h_atom) (length b)) as [c|e]; simpl; [|discriminate].
  assert (bsize (length (rows h_atom)) 1 = Ok (length (rows h_atom))) as ->.
  { unfold bsize. destruct (decide (length (rows h_atom) = 1)) as [->|Hn]; [reflexivity|].
    rewrite decide_True by reflexivity. reflexivity. }
  simpl. intros [= <-]. simpl.
  rewrite length_zip_with, expand_same.
  assert (length (expand 1 (length (rows h_atom)) [b]) = length (rows h_atom)) as ->.
  { unfold expand. case_decide as Hn; [rewrite <- Hn; reflexivity|].
    apply length_replicate. }
  lia.
Qed.

(** X9: a graph assignment whose length is not the number of rows of the
    embedding never gives a result. *)
Theorem readout_refuses_length_mismatch {T} `{Scalar T} (g : BatchGRU.t T)
    (h_atom : matrix T) (batch : list nat) :
  length batch <> nrows h_atom ->
  is_ok (BatchGRU.forward g h_atom batch) = false.
Proof.
  intros Hlen. destruct (decide (batch = [])) as [->|Hne].
  { rewrite readout_empty_batch. reflexivity. }
  unfold BatchGRU.forward.
  destruct (decide (nrows h_atom < length batch)) as [Hlong|Hshort].
  - (* a node position outside the embedding: packing fails *)
    assert (is_ok (BatchGRU.pack g h_atom batch) = false) as Hpack.
    { unfold BatchGRU.pack.
      destruct (broadcast_matrix sadd h_atom (as_matrix (BatchGRU.bias g)))
        as [s|e] eqn:Hs; simpl; [|reflexivity].
      apply message_nrows in Hs.
      destruct (max_item (unique_counts batch)) as [M|e]; simpl; [|reflexivity].
      apply foldM_fails.
      destruct (lookup_lt_is_Some_2 batch (nrows h_atom) Hlong) as [v Hv].
      assert (v ∈ unique batch) as Hin.
      { apply unique_elem. eapply list_elem_of_lookup_2. exact Hv. }
      apply list_elem_of_lookup_1 in Hin as [i Hi].
      apply Exists_exists. exists (i, v). split.
      { eapply list_elem_of_lookup_2. apply enumerate_lookup. exact Hi. }
      intros st. unfold BatchGRU.pack_step. simpl.
      rewrite index_rows_out_of_range; [reflexivity|].
      apply Exists_exists. exists (nrows h_atom). split.
      - eapply list_elem_of_lookup_2. apply (members_rank batch _ v Hv).
      - unfold relu, nrows in *. simpl. rewrite length_map. lia. }
    destruct (BatchGRU.pack g h_atom batch); [discriminate|reflexivity].
  - (* fewer positions than rows: the first masked assignment fails *)
    destruct (BatchGRU.pack g h_atom batch) as [packed|e]; simpl; [|reflexivity].
    destruct (BatchGRU.gru g packed.1 packed.2) as [hm|e]; simpl; [|reflexivity].
    destruct (unique batch) as [|v vs] eqn:Hu.
    { destruct batch as [|b0 batch0]; [congruence|].
      assert (b0 ∈ unique (b0 :: batch0)) as Hin
        by (apply unique_elem, list_elem_of_here).
      rewrite Hu in Hin. inversion Hin. }
    unfold enumerate. simpl. unfold BatchGRU.unpad_step at 1. simpl.
    destruct (hm !! 0) as [Hm|]; [|reflexivity].
    unfold BatchGRU.masked_assign.
    rewrite decide_False; [reflexivity|].
    rewrite eq_mask_length. unfold zeros2, nrows. simpl. rewrite length_replicate.
    exact Hlen.
Qed.

Lemma readout_refuses_length_mismatch_witness :
  is_ok (BatchGRU.forward Samples.readout (Mat 1 [[1]; [2]; [3]]%Z) [0; 0]) = false
  /\ is_ok (BatchGRU.forward Samples.readout (Mat 1 [[1]; [2]]%Z) [0; 0; 1]) = false.
Proof.
  split.
  - apply (readout_refuses_length_mismatch Samples.readout (Mat 1 [[1]; [2]; [3]]%Z) [0; 0]).
    unfold nrows. simpl. lia.
  - apply (readout_refuses_length_mismatch Samples.readout (Mat 1 [[1]; [2]]%Z) [0; 0; 1]).
    unfold nrows. simpl. lia.
Defined.

(** ** The readout on a well-shaped batch *)

Section ReadoutRows.
Context {T : Type} `{Scalar T}.

Lemma scan_fwd_widths (cell : row T -> row T -> row T) (c : nat)
    (xs : list (row T)) (h : row T) :
  (forall x s, length s = c -> length (cell x s) = c) -> length h = c ->
  Forall (fun r => length r = c) (BatchGRU.scan_fwd cell xs h).
Proof.
  intros Hcell. revert h. induction xs as [|x xs IH]; intros h Hh; simpl.
  - constructor.
  - constructor; [apply Hcell, Hh|]. apply IH, Hcell, Hh.
Qed.

Lemma scan_bwd_widths (cell : row T -> row T -> row T) (c : nat)
    (xs : list (row T)) (h : row T) :
  (forall x s, length s = c -> length (cell x s) = c) -> length h = c ->
  Forall (fun r => length r = c) (BatchGRU.scan_bwd cell xs h).1
  /\ length (BatchGRU.scan_bwd cell xs h).2 = c.
Proof.
  intros Hcell Hh. induction xs as [|x xs [IH1 IH2]]; simpl.
  - split; [constructor|exact Hh].
  - split; [constructor; [apply Hcell, IH2|exact IH1]|apply Hcell, IH2].
Qed.

Lemma zip_with_app_widths (a b : nat) (l k : list (row T)) :
  Forall (fun r => length r = a) l -> Forall (fun r => length r = b) k ->
  Forall (fun r => length r = a + b) (zip_with app l k).
Proof.
  intros Hl. revert k. induction Hl as [|r l Hr _ IH]; intros k Hk; simpl; [constructor|].
  destruct Hk as [|r' k Hr' Hk]; [constructor|].
  constructor; [rewrite length_app; lia|apply IH, Hk].
Qed.

Lemma gather_message_rows (g : BatchGRU.t T) (h_atom : matrix T) (idx : list nat) :
  Forall (fun i => i < nrows h_atom) idx ->
  gather (message_rows g h_atom) idx
  = map (fun r => relu_row (zip_with sadd r (BatchGRU.bias g))) (gather (rows h_atom) idx).
Proof.
  intros Hidx. unfold gather, message_rows. rewrite map_map.
  apply Forall_fmap_ext_1. eapply Forall_impl; [exact Hidx|].
  intros i Hi. simpl in *. rewrite list_lookup_fmap.
  destruct (lookup_lt_is_Some_2 (rows h_atom) i Hi) as [r ->]. reflexivity.
Qed.

(** The output row of a node is fixed by the rows of its own graph, the
    padded length and the rank of the node. *)
Lemma readout_row_own_graph (g : BatchGRU.t T) (h1 h2 : matrix T)
    (batch1 batch2 : list nat) (M p1 p2 v1 v2 : nat) :
  length batch1 = nrows h1 -> length batch2 = nrows h2 ->
  gather (rows h1) (members batch1 v1) = gather (rows h2) (members batch2 v2) ->
  rank batch1 p1 = rank batch2 p2 ->
  readout_row g h1 batch1 M p1 v1 = readout_row g h2 batch2 M p2 v2.
Proof.
  intros Hl1 Hl2 Hg Hr.
  assert (members_count batch1 v1 = members_count batch2 v2) as Hc.
  { rewrite <- !members_length.
    rewrite <- (gather_length (rows h1)), <- (gather_length (rows h2)), Hg. reflexivity. }
  unfold readout_row, padded_sequence, initial_state.
  rewrite !gather_message_rows by (rewrite <- ?Hl1, <- ?Hl2; apply members_bound).
  rewrite Hg, Hc, Hr. reflexivity.
Qed.

Lemma colmax_width (rs : list (row T)) (c : nat) :
  rs <> [] -> Forall (fun r => length r = c) rs -> length (colmax rs) = c.
Proof.
  destruct rs as [|r rs]; [congruence|]. intros _ Hrs. simpl.
  apply Forall_cons in Hrs as [Hr Hrs]. revert r Hr.
  induction Hrs as [|r' rs Hr' _ IH]; intros r Hr; simpl; [exact Hr|].
  apply IH. rewrite length_zip_with. lia.
Qed.

Lemma initial_state_length (h_atom : matrix T) (batch : list nat) (p v : nat) :
  wf h_atom -> length batch = nrows h_atom -> batch !! p = Some v ->
  length (initial_state h_atom batch v) = ncols h_atom.
Proof.
  intros Hwf Hlen Hp. unfold initial_state. apply colmax_width.
  - intros Hnil. pose proof (gather_length (rows h_atom) (members batch v)) as Hl.
    rewrite Hnil, members_length in Hl. pose proof (members_count_pos _ _ _ Hp).
    simpl in Hl. lia.
  - apply gather_wf; [exact Hwf|]. fold (nrows h_atom). rewrite <- Hlen.
    apply members_bound.
Qed.

End ReadoutRows.

(** X10: on an embedding of N >= 1 rows of the hidden width H, with one graph
    id per row, the readout returns N rows and 2H columns; when the two
    recurrent cells return states of width H, every row really has 2H
    entries. *)
Theorem readout_shape {T} `{Scalar T} (g : BatchGRU.t T) (h_atom : matrix T)
    (batch : list nat) :
  wf h_atom ->
  ncols h_atom = BatchGRU.hidden_channels g ->
  length (BatchGRU.bias g) = BatchGRU.hidden_channels g ->
  length batch = nrows h_atom -> 0 < nrows h_atom ->
  exists out,
    BatchGRU.forward g h_atom batch = Ok out
    /\ nrows out = nrows h_atom
    /\ ncols out = BatchGRU.hidden_channels g * 2
    /\ ((forall x s, length s = BatchGRU.hidden_channels g ->
                     length (BatchGRU.gru_fwd g x s) = BatchGRU.hidden_channels g) ->
        (forall x s, length s = BatchGRU.hidden_channels g ->
                     length (BatchGRU.gru_bwd g x s) = BatchGRU.hidden_channels g) ->
        wf out).
Proof.
  intros Hwf Hc Hb Hlen HN.
  destruct (max_item_ok (unique_counts batch)) as [M HM].
  { apply unique_counts_nonempty. intros ->. simpl in Hlen. lia. }
  eexists. split; [apply (forward_ok g h_atom batch Hwf Hc Hb Hlen M HM)|].
  split; [unfold nrows; simpl; rewrite length_imap; exact Hlen|].
  split; [reflexivity|].
  intros Hf Hbw. unfold wf. simpl. apply Forall_lookup. intros p r Hr.
  rewrite list_lookup_imap in Hr.
  destruct (batch !! p) as [v|] eqn:Hp; simpl in Hr; [|discriminate].
  injection Hr as <-. unfold readout_row.
  pose proof (initial_state_length h_atom batch p v Hwf Hlen Hp) as Hst.
  rewrite Hc in Hst.
  assert (v ∈ unique batch) as Hin.
  { apply unique_elem. eapply list_elem_of_lookup_2. exact Hp. }
  apply list_elem_of_lookup_1 in Hin as [i Hi].
  destruct (lookup_lt_is_Some_2
              (take (members_count batch v)
                 (BatchGRU.gru_seq g (padded_sequence g h_atom batch M v)
                    (initial_state h_atom batch v) (initial_state h_atom batch v)))
              (rank batch p)) as [r Hr].
  { rewrite length_take, gru_seq_length,
      (padded_sequence_length g h_atom batch Hc Hb Hlen M HM i v Hi).
    pose proof (rank_lt _ _ _ Hp).
    pose proof (members_count_le_M batch M HM i v Hi). lia. }
  rewrite Hr. simpl.
  apply lookup_take_Some in Hr as [Hr _].
  replace (BatchGRU.hidden_channels g * 2)
    with (BatchGRU.hidden_channels g + BatchGRU.hidden_channels g) by lia.
  refine (Forall_lookup_1
            (fun r => length r = BatchGRU.hidden_channels g + BatchGRU.hidden_channels g)
            _ _ _ _ Hr).
  unfold BatchGRU.gru_seq.
  apply zip_with_app_widths.
  - apply scan_fwd_widths; assumption.
  - apply scan_bwd_widths; assumption.
Qed.

Lemma readout_shape_witness :
  exists out,
    BatchGRU.forward Samples.halving_readout Samples.four_atoms Samples.three_and_one
    = Ok out
    /\ nrows out = 4 /\ ncols out = 2
    /\ ((forall x s, length s = 1 -> length (Samples.halve x s) = 1) ->
        (forall x s, length s = 1 -> length (Samples.halve x s) = 1) ->
        wf out).
Proof.
  refine (readout_shape Samples.halving_readout Samples.four_atoms Samples.three_and_one
            (wfb_wf Samples.four_atoms eq_refl) eq_refl eq_refl eq_refl _).
  unfold nrows. simpl. lia.
Defined.

(** X11: no value crosses from one graph to another.  If a graph has the
    same node embeddings, in the same order, in two batches with the same
    padded length, its nodes get the same output rows in both, whatever the
    other graphs of the two batches hold. *)
Theorem readout_depends_on_own_graph {T} `{Scalar T} (g : BatchGRU.t T)
    (h1 h2 : matrix T) (batch1 batch2 : list nat) (M p1 p2 v1 v2 : nat) :
  wf h1 -> wf h2 ->
  ncols h1 = BatchGRU.hidden_channels g -> ncols h2 = BatchGRU.hidden_channels g ->
  length (BatchGRU.bias g) = BatchGRU.hidden_channels g ->
  length batch1 = nrows h1 -> length batch2 = nrows h2 ->
  max_item (unique_counts batch1) = Ok M -> max_item (unique_counts batch2) = Ok M ->
  batch1 !! p1 = Some v1 -> batch2 !! p2 = Some v2 ->
  gather (rows h1) (members batch1 v1) = gather (rows h2) (members batch2 v2) ->
  rank batch1 p1 = rank batch2 p2 ->
  exists out1 out2 r,
    BatchGRU.forward g h1 batch1 = Ok out1
    /\ BatchGRU.forward g h2 batch2 = Ok out2
    /\ rows out1 !! p1 = Some r /\ rows out2 !! p2 = Some r.
Proof.
  intros Hwf1 Hwf2 Hc1 Hc2 Hb Hl1 Hl2 HM1 HM2 Hp1 Hp2 Hg Hr.
  eexists. eexists. eexists.
  split; [apply (forward_ok g h1 batch1 Hwf1 Hc1 Hb Hl1 M HM1)|].
  split; [apply (forward_ok g h2 batch2 Hwf2 Hc2 Hb Hl2 M HM2)|].
  simpl. rewrite !list_lookup_imap, Hp1, Hp2. simpl.
  split; [reflexivity|]. f_equal. symmetry.
  apply readout_row_own_graph; assumption.
Qed.

Lemma readout_depends_on_own_graph_witness :
  exists out1 out2 r,
    BatchGRU.forward Samples.halving_readout Samples.four_atoms Samples.three_and_one
    = Ok out1
    /\ BatchGRU.forward Samples.halving_readout (Mat 1 [[9]; [1]; [-4]; [7]]%Q) [6; 2; 6; 6]
       = Ok out2
    /\ rows out1 !! 3 = Some r /\ rows out2 !! 1 = Some r.
Proof.
  exact (readout_depends_on_own_graph Samples.halving_readout Samples.four_atoms
           (Mat 1 [[9]; [1]; [-4]; [7]]%Q) Samples.three_and_one [6; 2; 6; 6] 3 3 1 1 2
           (wfb_wf Samples.four_atoms eq_refl)
           (wfb_wf (Mat 1 [[9]; [1]; [-4]; [7]]%Q) eq_refl)
           eq_refl eq_refl eq_refl eq_refl eq_refl eq_refl eq_refl eq_refl eq_refl
           eq_refl eq_refl).
Defined.

(** ** PNA: computing the histogram again *)

Lemma pna_run_app {Tensor Dataloader Instance : Type}
    (hist : Dataloader -> Tensor) (super_init : gmap string (PNA.value Tensor) -> result Instance)
    (pre post : list (PNA.call Tensor Dataloader)) (cls : PNA.class_state Tensor) :
  PNA.run hist super_init (pre ++ post) cls
  = ((PNA.run hist super_init post (PNA.run hist super_init pre cls).1).1,
     (PNA.run hist super_init pre cls).2
     ++ (PNA.run hist super_init post (PNA.run hist super_init pre cls).1).2).
Proof.
  revert cls. induction pre as [|[dl|kw] pre IH]; intros cls; simpl.
  - destruct (PNA.run hist super_init post cls). reflexivity.
  - apply IH.
  - rewrite IH. reflexivity.
Qed.

(** X12: the cache holds the histogram of the latest [compute_degree].
    Whatever calls came before, and whatever the cache held, the
    constructions that follow a [compute_degree] receive its histogram;
    what the earlier constructions returned is left as it was. *)
Theorem pna_latest_histogram_wins {Tensor Dataloader Instance : Type}
    (hist : Dataloader -> Tensor)
    (super_init : gmap string (PNA.value Tensor) -> result Instance)
    (pre : list (PNA.call Tensor Dataloader)) (dl : Dataloader)
    (ks : list (gmap string (PNA.value Tensor))) (cls : PNA.class_state Tensor) :
  let before := PNA.run hist super_init pre cls in
  let r := PNA.run hist super_init (pre ++ PNA.ComputeDegree dl :: map PNA.New ks) cls in
  PNA.deg r.1 = Some (hist dl)
  /\ r.2 = before.2 ++ map (fun kw => super_init (<["deg" := PNA.VTensor (hist dl)]> kw)) ks.
Proof.
  simpl. rewrite pna_run_app. simpl. rewrite pna_run_new. simpl.
  split; reflexivity.
Qed.

(** ** The biases after construction *)

Section Biases.
Context {T : Type} `{Scalar T}.

Lemma init_weights_bias (l : Linear T) : zero_or_no_bias (CMPNN._init_weights l).
Proof.
  unfold zero_or_no_bias, CMPNN._init_weights. simpl.
  destruct (lin_bias l); [right|left]; reflexivity.
Qed.

Lemma init_communicator_bias (c : NodeEdgeMessageCommunicator.t T) :
  Forall zero_or_no_bias (communicator_linears (CMPNN.init_communicator c)).
Proof.
  unfold communicator_linears, CMPNN.init_communicator. simpl.
  destruct (NodeEdgeMessageCommunicator.communicator c) as [[g|l]|]; try constructor.
  - apply init_weights_bias.
  - constructor.
Qed.

Lemma init_conv_bias (c : CMPNN.conv) :
  Forall zero_or_no_bias (conv_linears (CMPNN.init_conv c)).
Proof.
  destruct c as [e|n]; simpl.
  - apply Forall_app. split; [apply init_communicator_bias|].
    constructor; [apply init_weights_bias|constructor].
  - apply init_communicator_bias.
Qed.

End Biases.

(** X13: the biases of a freshly built model.  Every linear layer of the
    model, those of the layers and of their communicators included, has no
    bias or a bias that is zero everywhere; the output layer [seq_out] has
    a zero bias also when the model is built with [bias=False], and then
    the two projections, [lin] and the linear layer of every edge-updating
    layer have none. *)
Theorem biases_after_construction {T} `{Scalar T} (ip : CMPNN.init_params T)
    (in_channels hidden_channels out_channels edge_dim : nat) (num_layers : Z)
    (communicator_name : string) (dropout : Q) (bias : bool) (m : CMPNN.t T) :
  CMPNN.__init__ ip in_channels hidden_channels out_channels edge_dim num_layers
    communicator_name dropout bias = Ok m ->
  Forall zero_or_no_bias (linears m)
  /\ lin_bias (CMPNN.seq_out m) = Some (fun _ => szero)
  /\ (bias = false ->
      lin_bias (CMPNN.atom_proj m) = None
      /\ lin_bias (CMPNN.bond_proj m) = None
      /\ lin_bias (CMPNN.lin m) = None
      /\ forall e, CMPNN.ConvE e ∈ CMPNN.convs m -> lin_bias (GCNEConv.lin e) = None).
Proof.
  unfold CMPNN.__init__.
  destruct (mapM _ (seq 0 (Z.to_nat (num_layers - 1)))) as [cs|err] eqn:Hcs;
    simpl; [|discriminate].
  destruct (GCNConv.__init__ _ hidden_channels hidden_channels communicator_name)
    as [n|err]; simpl; [|discriminate].
  destruct (BatchGRU.__init__ _ hidden_channels) as [g|err]; simpl; [|discriminate].
  destruct (valid_p dropout); [|discriminate].
  intros [= <-]. split; [|split].
  - unfold linears. simpl.
    repeat (constructor; [apply init_weights_bias|]).
    apply Forall_app. split.
    + apply Forall_flat_map, Forall_fmap, Forall_forall. intros c _. apply init_conv_bias.
    + repeat (constructor; [apply init_weights_bias|]). constructor.
  - reflexivity.
  - intros ->. simpl. repeat (split; [reflexivity|]).
    intros e He. apply list_elem_of_fmap in He as (c & Hc & Hin).
    apply elem_of_app in Hin as [Hin|Hin].
    + apply mapM_ok_Forall2 in Hcs.
      apply list_elem_of_lookup_1 in Hin as [i Hi].
      destruct (Forall2_lookup_r _ _ _ _ _ Hcs Hi) as (k & _ & Hk).
      unfold GCNEConv.__init__ in Hk.
      destruct (NodeEdgeMessageCommunicator.__init__ _ _ _) as [cm|err]; simpl in Hk;
        [|discriminate].
      injection Hk as <-. simpl in Hc. injection Hc as ->. reflexivity.
    + apply list_elem_of_singleton in Hin as ->. discriminate.
Qed.

Lemma biases_after_construction_witness :
  exists m,
    CMPNN.__init__ Samples.cmpnn_ip 1 2 2 1 3 "mlp" 0 false = Ok m
    /\ Forall zero_or_no_bias (linears m)
    /\ lin_bias (CMPNN.seq_out m) = Some (fun _ => 0%Z)
    /\ lin_bias (CMPNN.atom_proj m) = None.
Proof.
  eexists. split; [reflexivity|].
  destruct (biases_after_construction Samples.cmpnn_ip 1 2 2 1 3 "mlp" 0 false _ eq_refl)
    as (Hall & Hseq & Hno).
  split; [exact Hall|]. split; [exact Hseq|]. exact (proj1 (Hno eq_refl)).
Defined.

(** ** Rectified outputs *)

Lemma relu_nonnegative (A : matrix Z) :
  Forall (Forall (fun v => (0 <= v)%Z)) (rows (relu A)).
Proof.
  unfold relu, relu_row. simpl. apply Forall_fmap, Forall_forall. intros r _.
  apply Forall_fmap, Forall_forall. intros v _. simpl. lia.
Qed.

Lemma dropout_eval_ok {T} `{Scalar T} (p : Q) (A out : matrix T) :
  dropout p None A = Ok out -> out = A /\ valid_p p = true.
Proof.
  unfold dropout. destruct (valid_p p); [|discriminate].
  intros [= <-]. split; reflexivity.
Qed.

(** X14: in evaluation mode no entry of what the model returns is negative,
    and no entry of the edge embeddings an edge-updating layer returns:
    both end on a rectification followed by a dropout that is then the
    identity. *)
Theorem evaluation_outputs_are_nonnegative :
  (forall (m : CMPNN.t Z) (x : matrix Z) (edge_index : list (nat * nat))
          (edge_attr : matrix Z) (batch : list nat) (out : matrix Z),
      CMPNN.forward m None x edge_index edge_attr batch = Ok out ->
      Forall (Forall (fun v => (0 <= v)%Z)) (rows out))
  /\ (forall (c : GCNEConv.t Z) (x edge_attr init_edge_embed : matrix Z)
             (edge_index : list (nat * nat)) (out : matrix Z * matrix Z),
        GCNEConv.forward c None x edge_attr edge_index init_edge_embed = Ok out ->
        Forall (Forall (fun v => (0 <= v)%Z)) (rows out.2)).
Proof.
  split.
  - intros m x edge_index edge_attr batch out. unfold CMPNN.forward.
    repeat match goal with
           | |- bind ?r _ = Ok _ -> _ => destruct r; simpl; [|discriminate]
           end.
    destruct (CMPNN.aggr_message _); [|discriminate].
    repeat match goal with
           | |- bind ?r _ = Ok _ -> _ => destruct r; simpl; [|discriminate]
           end.
    intros Hd. apply dropout_eval_ok in Hd as [-> _]. apply relu_nonnegative.
  - intros c x edge_attr init_edge_embed edge_index out. unfold GCNEConv.forward.
    destruct (propagate _ _ _ _ _) as [x'|e]; simpl; [|discriminate].
    destruct (GCNEConv.edge_update _ _ _ _ _ _) as [ea|e] eqn:Hea; simpl; [|discriminate].
    intros [= <-]. simpl. revert Hea. unfold GCNEConv.edge_update.
    repeat match goal with
           | |- bind ?r _ = Ok _ -> _ => destruct r; simpl; [|discriminate]
           end.
    intros Hd. apply dropout_eval_ok in Hd as [-> _]. apply relu_nonnegative.
Qed.

Lemma evaluation_outputs_are_nonnegative_witness :
  exists m out,
    CMPNN.__init__ Samples.cmpnn_ip 1 2 2 1 2 "additive" 0 false = Ok m
    /\ CMPNN.forward m None (Mat 1 [[1]; [-2]]%Z) Samples.one_bond (Mat 1 [[1]; [-1]]%Z)
         [0; 0] = Ok out
    /\ Forall (Forall (fun v => (0 <= v)%Z)) (rows out).
Proof.
  eexists. exists (Mat 2 [[88; 88]; [88; 88]]%Z). split; [reflexivity|].
  match goal with
  | |- ?run = Ok ?out /\ _ => assert (run = Ok out) as Hrun by (vm_compute; reflexivity)
  end.
  split; [exact Hrun|].
  exact (proj1 evaluation_outputs_are_nonnegative _ _ _ _ _ _ Hrun).
Defined.

(** ** A dropout probability outside [0, 1] *)

Lemma edge_update_invalid_dropout {T} `{Scalar T}
    (c : GCNEConv.t T) (mask : option (nat -> nat -> T))
    (x : matrix T) (edge_index : list (nat * nat)) (edge_attr init_edge_embed : matrix T) :
  Nat.Even (nrows edge_attr) ->
  length edge_index = nrows edge_attr ->
  Forall (fun e => e.1 < nrows x) edge_index ->
  ncols x = in_features (GCNEConv.lin c) ->
  ncols edge_attr = in_features (GCNEConv.lin c) ->
  nrows init_edge_embed = nrows edge_attr ->
  ncols init_edge_embed = out_features (GCNEConv.lin c) ->
  valid_p (GCNEConv.dropout_p c) = false ->
  GCNEConv.edge_update c mask x edge_index edge_attr init_edge_embed = Err ValueError.
Proof.
  intros HE Hlen Hsrc Hcx Hcea Hninit Hcinit Hp.
  assert (Forall (fun i => i < nrows x) (edge_index.*1)) as Hsrc'.
  { apply Forall_fmap. exact Hsrc. }
  pose proof (get_reverse_edge_index_lt (nrows edge_attr)) as Hrev.
  unfold GCNEConv.edge_update.
  rewrite (index_rows_ok x _ Hsrc'), (index_rows_ok edge_attr _ Hrev). simpl.
  rewrite broadcast_matrix_same_shape; simpl.
  2: congruence.
  2: { unfold nrows. simpl. rewrite ?length_map, ?length_fmap.
       rewrite even_reverse_length by exact HE. exact Hlen. }
  rewrite linear_ok by (simpl; exact Hcx). simpl.
  rewrite broadcast_matrix_same_shape; simpl.
  2: exact Hcinit.
  2: { unfold nrows in *. simpl.
       rewrite length_map, length_zip_with, ?length_map, ?length_fmap.
       rewrite even_reverse_length by exact HE. lia. }
  unfold dropout. rewrite Hp. reflexivity.
Qed.

(** X15: where the dropout probability is checked.  The model refuses a
    probability outside [0, 1] at construction, with a value error.  An
    edge-updating layer built on its own accepts it, and its edge update
    then fails with a value error on inputs of the right shapes, in
    training and in evaluation mode alike. *)
Theorem dropout_probability_is_checked {T} `{Scalar T}
    (hc : nat) (name : string) (p : Q) (bias : bool) :
  name ∈ NodeEdgeMessageCommunicator.names -> valid_p p = false ->
  (hc <> 0 ->
   forall (ip : CMPNN.init_params T) (in_channels out_channels edge_dim : nat)
          (num_layers : Z),
     CMPNN.__init__ ip in_channels hc out_channels edge_dim num_layers name p bias
     = Err ValueError)
  /\ (forall ip : GCNEConv.init_params T,
        exists c,
          GCNEConv.__init__ ip hc hc name p bias = Ok c
          /\ forall (mask : option (nat -> nat -> T)) (x : matrix T)
                    (edge_index : list (nat * nat)) (edge_attr init_edge_embed : matrix T),
               Nat.Even (nrows edge_attr) ->
               length edge_index = nrows edge_attr ->
               Forall (fun e => e.1 < nrows x) edge_index ->
               ncols x = hc -> ncols edge_attr = hc ->
               nrows init_edge_embed = nrows edge_attr -> ncols init_edge_embed = hc ->
               GCNEConv.edge_update c mask x edge_index edge_attr init_edge_embed
               = Err ValueError).
Proof.
  intros Hn Hp. split.
  - intros Hh ip in_channels out_channels edge_dim num_layers. unfold CMPNN.__init__.
    match goal with
    | |- context [bind (mapM ?f ?l) _] =>
        destruct (mapM_all_ok_length f l) as (cs & -> & Hlen)
    end.
    { intros k. unfold GCNEConv.__init__.
      destruct (communicator_init_ok (GCNEConv.ip_communicator (CMPNN.ip_conv ip k))
                  name hc Hn) as (c & -> & _).
      simpl. eexists. reflexivity. }
    simpl. unfold GCNConv.__init__.
    destruct (communicator_init_ok (GCNConv.ip_communicator (CMPNN.ip_last ip))
                name hc Hn) as (c & -> & _).
    simpl. unfold BatchGRU.__init__. rewrite decide_False by exact Hh. simpl.
    rewrite Hp. reflexivity.
  - intros ip. unfold GCNEConv.__init__.
    destruct (communicator_init_ok (GCNEConv.ip_communicator ip) name hc Hn) as (c & -> & _).
    simpl. eexists. split; [reflexivity|].
    intros mask x edge_index edge_attr init_edge_embed HE Hlen Hsrc Hcx Hcea Hninit Hcinit.
    apply edge_update_invalid_dropout; simpl; assumption.
Qed.

Lemma dropout_probability_is_checked_witness :
  CMPNN.__init__ Samples.cmpnn_ip 1 1 1 1 2 "additive" 2 false = Err ValueError
  /\ exists c,
       GCNEConv.__init__ Samples.conve_ip 1 1 "additive" 2 false = Ok c
       /\ GCNEConv.edge_update c None Samples.two_atoms Samples.one_bond
            Samples.bond_embed Samples.bond_init = Err ValueError.
Proof.
  assert ("additive" ∈ @NodeEdgeMessageCommunicator.names) as Hn by apply list_elem_of_here.
  destruct (dropout_probability_is_checked (T := Z) 1 "additive" 2 false Hn eq_refl)
    as [Hmodel Hlayer].
  split.
  - apply Hmodel. discriminate.
  - destruct (Hlayer Samples.conve_ip) as (c & Hc & Hfail).
    exists c. split; [exact Hc|].
    apply Hfail; try reflexivity.
    + exists 1. reflexivity.
    + repeat constructor.
Defined.

(** ** The earlier variant of the model *)

(** X16: the earlier variant builds [num_layers] layers and checks the
    policy name only inside a layer.  With [num_layers <= 0] it is built
    without error whatever the policy name is, valid or not, with an empty
    stack, and its forward pass then returns on no input: it stops with an
    index error at [self.convs[-1]] once the two projections have gone
    through.  With [num_layers >= 1] an invalid name is refused. *)
Theorem legacy_layer_count {T} `{Scalar T} (ip : Legacy.CMPNN.init_params T)
    (in_channels hidden_channels out_channels edge_dim : nat) (num_layers : Z)
    (communicator_name : string) (dropout : Q) :
  ((num_layers <= 0)%Z -> hidden_channels <> 0 -> valid_p dropout = true ->
   exists m,
     Legacy.CMPNN.__init__ ip in_channels hidden_channels out_channels edge_dim
       num_layers communicator_name dropout = Ok m
     /\ Legacy.CMPNN.convs m = []
     /\ (forall training x edge_index edge_attr batch,
           is_ok (Legacy.CMPNN.forward m training x edge_index edge_attr batch) = false)
     /\ (forall training x edge_index edge_attr batch,
           ncols x = in_channels -> ncols edge_attr = edge_dim ->
           Legacy.CMPNN.forward m training x edge_index edge_attr batch = Err IndexError))
  /\ ((1 <= num_layers)%Z -> communicator_name ∉ NodeEdgeMessageCommunicator.names ->
      Legacy.CMPNN.__init__ ip in_channels hidden_channels out_channels edge_dim
        num_layers communicator_name dropout
      = Err (AssertionError ("Invalid communicator '" ++ communicator_name ++ "'!"))).
Proof.
  split.
  - intros Hnl Hh Hp. unfold Legacy.CMPNN.__init__.
    replace (Z.to_nat num_layers) with 0 by lia. simpl.
    unfold BatchGRU.__init__. rewrite decide_False by exact Hh. simpl. rewrite Hp.
    eexists. split; [reflexivity|]. split; [reflexivity|]. split.
    + intros training x edge_index edge_attr batch. unfold Legacy.CMPNN.forward. simpl.
      destruct (linear _ x); simpl; [|reflexivity].
      destruct (linear _ edge_attr); reflexivity.
    + intros training x edge_index edge_attr batch Hx He.
      unfold Legacy.CMPNN.forward. simpl.
      rewrite !linear_ok by (simpl; assumption). reflexivity.
  - intros Hnl Hn. unfold Legacy.CMPNN.__init__.
    destruct (Z.to_nat num_layers) as [|k] eqn:Hk; [lia|]. simpl.
    unfold Legacy.GCNEConv.__init__ at 1.
    rewrite communicator_init_err by exact Hn. reflexivity.
Qed.

Lemma legacy_layer_count_witness :
  (exists m,
     Legacy.CMPNN.__init__ MoreSamples.legacy_ip 1 1 1 1 0 "sum" 0 = Ok m
     /\ Legacy.CMPNN.convs m = []
     /\ Legacy.CMPNN.forward m None MoreSamples.three_atoms MoreSamples.chain
          MoreSamples.chain_embed [0; 0; 0] = Err IndexError)
  /\ Legacy.CMPNN.__init__ MoreSamples.legacy_ip 1 1 1 1 1 "sum" 0
     = Err (AssertionError "Invalid communicator 'sum'!").
Proof.
  destruct (legacy_layer_count MoreSamples.legacy_ip 1 1 1 1 0 "sum" 0) as [Hzero _].
  destruct (legacy_layer_count MoreSamples.legacy_ip 1 1 1 1 1 "sum" 0) as [_ Hone].
  split.
  - destruct Hzero as (m & Hm & Hconvs & _ & Hfwd); [lia|discriminate|reflexivity|].
    exists m. split; [exact Hm|]. split; [exact Hconvs|].
    apply Hfwd; reflexivity.
  - apply Hone; [lia|].
    intros Hin. repeat (apply elem_of_cons in Hin as [Hin|Hin]; [discriminate|]).
    inversion Hin.
Defined.

(** X17: the edge update of the earlier variant.  After the node update has
    returned x', the new embedding of the edge e = (s, d) is
    dropout(relu(lin(x'[s] - edge_attr[d]))): the edge embeddings are read
    at the row whose number is the node id d, and the embedding the edge
    had is not added back. *)
Theorem legacy_edge_update_reads_row_of_target_id {T} `{Scalar T}
    (c : Legacy.GCNEConv.t T) (mask : option (nat -> nat -> T))
    (x edge_attr : matrix T) (edge_index : list (nat * nat)) (x' : matrix T) :
  propagate_target_to_source (Legacy.GCNEConv.aggr_module c) (Legacy.GCNEConv.update c)
    edge_index x edge_attr = Ok x' ->
  Forall (fun e => e.1 < nrows x' /\ e.2 < nrows edge_attr) edge_index ->
  ncols x' = in_features (Legacy.GCNEConv.seq c) ->
  ncols edge_attr = in_features (Legacy.GCNEConv.seq c) ->
  valid_p (Legacy.GCNEConv.seq_p c) = true ->
  exists edge_attr',
    Legacy.GCNEConv.forward c mask x edge_attr edge_index = Ok (x', edge_attr')
    /\ nrows edge_attr' = length edge_index
    /\ ncols edge_attr' = out_features (Legacy.GCNEConv.seq c)
    /\ forall e s d, edge_index !! e = Some (s, d) ->
         exists x_s e_d,
           rows x' !! s = Some x_s /\ rows edge_attr !! d = Some e_d
           /\ rows edge_attr' !! e
              = Some (mask_row mask e
                        (relu_row (linear_row (Legacy.GCNEConv.seq c)
                                     (zip_with ssub x_s e_d)))).
Proof.
  intros Hprop Hidx Hcx Hce Hp.
  assert (Forall (fun i => i < nrows x') (edge_index.*1)) as Hsrc.
  { apply Forall_fmap. eapply Forall_impl; [exact Hidx|]. intros e He. apply He. }
  assert (Forall (fun i => i < nrows edge_attr) (edge_index.*2)) as Hdst.
  { apply Forall_fmap. eapply Forall_impl; [exact Hidx|]. intros e He. apply He. }
  unfold Legacy.GCNEConv.forward. rewrite Hprop. simpl.
  unfold Legacy.GCNEConv.edge_update.
  rewrite (index_rows_ok x' _ Hsrc), (index_rows_ok edge_attr _ Hdst). simpl.
  rewrite broadcast_matrix_same_shape; simpl.
  2: congruence.
  2: { unfold nrows. simpl. rewrite !length_map. reflexivity. }
  rewrite linear_ok by (simpl; exact Hcx). simpl.
  unfold dropout. rewrite Hp. simpl.
  eexists. split; [reflexivity|]. split; [|split].
  - rewrite (proj1 (apply_mask_shape _ _)). unfold nrows. simpl.
    rewrite !length_map, length_zip_with, !length_map. lia.
  - rewrite (proj2 (apply_mask_shape _ _)). reflexivity.
  - intros e s d He.
    pose proof (Forall_lookup_1 _ _ _ _ Hidx He) as [Hs Hd]. simpl in Hs, Hd.
    destruct (lookup_lt_is_Some_2 (rows x') s Hs) as [x_s Hxs].
    destruct (lookup_lt_is_Some_2 (rows edge_attr) d Hd) as [e_d Hed].
    exists x_s, e_d. split; [exact Hxs|]. split; [exact Hed|].
    rewrite apply_mask_lookup. simpl.
    rewrite !list_lookup_fmap, lookup_zip_with, !list_lookup_fmap, He. simpl.
    rewrite Hxs, Hed. reflexivity.
Qed.

Lemma legacy_edge_update_reads_row_of_target_id_witness :
  exists c x' edge_attr',
    Legacy.GCNEConv.__init__ MoreSamples.legacy_conv_ip 1 1 "additive" 0 = Ok c
    /\ Legacy.GCNEConv.forward c None MoreSamples.three_atoms MoreSamples.chain_embed
         MoreSamples.chain = Ok (x', edge_attr')
    /\ forall e s d, MoreSamples.chain !! e = Some (s, d) ->
         exists x_s e_d,
           rows x' !! s = Some x_s /\ rows MoreSamples.chain_embed !! d = Some e_d
           /\ rows edge_attr' !! e
              = Some (relu_row (linear_row (Legacy.GCNEConv.seq c) (zip_with ssub x_s e_d))).
Proof.
  eexists. eexists.
  assert (forall c, Legacy.GCNEConv.__init__ MoreSamples.legacy_conv_ip 1 1 "additive" 0 = Ok c ->
          forall x', propagate_target_to_source (Legacy.GCNEConv.aggr_module c)
                       (Legacy.GCNEConv.update c) MoreSamples.chain MoreSamples.three_atoms
                       MoreSamples.chain_embed = Ok x' ->
          nrows x' = 3 -> ncols x' = 1 ->
          exists edge_attr',
            Legacy.GCNEConv.forward c None MoreSamples.three_atoms MoreSamples.chain_embed
              MoreSamples.chain = Ok (x', edge_attr')
            /\ forall e s d, MoreSamples.chain !! e = Some (s, d) ->
                 exists x_s e_d,
                   rows x' !! s = Some x_s /\ rows MoreSamples.chain_embed !! d = Some e_d
                   /\ rows edge_attr' !! e
                      = Some (relu_row (linear_row (Legacy.GCNEConv.seq c)
                                          (zip_with ssub x_s e_d)))) as Hrun.
  { intros c Hc x' Hx' Hn Hcols. injection Hc as <-.
    destruct (legacy_edge_update_reads_row_of_target_id _ None MoreSamples.three_atoms
                MoreSamples.chain_embed MoreSamples.chain x' Hx')
      as (ea' & Hf & _ & _ & Hrows).
    - rewrite Hn. unfold nrows. simpl. repeat constructor.
    - exact Hcols.
    - reflexivity.
    - reflexivity.
    - exists ea'. split; [exact Hf|exact Hrows]. }
  destruct (Hrun _ eq_refl _ eq_refl eq_refl eq_refl) as (ea' & Hf & Hrows).
  exists ea'. split; [reflexivity|]. split; [exact Hf|exact Hrows].
Defined.

(** X18: in the earlier variant an edge whose target node id is not below
    the number of edges makes the layer fail with an index error, although
    the edge joins two nodes of the batch: three atoms without bonds
    followed by two bonded atoms are enough. *)
Theorem legacy_target_id_beyond_edge_count {T} `{Scalar T}
    (c : Legacy.GCNEConv.t T) (mask : option (nat -> nat -> T))
    (x edge_attr : matrix T) (edge_index : list (nat * nat)) (x' : matrix T) :
  propagate_target_to_source (Legacy.GCNEConv.aggr_module c) (Legacy.GCNEConv.update c)
    edge_index x edge_attr = Ok x' ->
  Forall (fun e => e.1 < nrows x') edge_index ->
  Exists (fun e => nrows edge_attr <= e.2) edge_index ->
  Legacy.GCNEConv.forward c mask x edge_attr edge_index = Err IndexError.
Proof.
  intros Hprop Hsrc Hdst.
  unfold Legacy.GCNEConv.forward. rewrite Hprop. simpl.
  unfold Legacy.GCNEConv.edge_update.
  rewrite (index_rows_ok x') by (apply Forall_fmap; exact Hsrc). simpl.
  rewrite index_rows_out_of_range; [reflexivity|].
  apply Exists_fmap. exact Hdst.
Qed.

Lemma legacy_target_id_beyond_edge_count_witness :
  exists c,
    Legacy.GCNEConv.__init__ MoreSamples.legacy_conv_ip 1 1 "additive" 0 = Ok c
    /\ Legacy.GCNEConv.forward c None (Mat 1 [[1]; [2]; [3]; [4]; [5]]%Z)
         (Mat 1 [[1]; [2]]%Z) [(3, 4); (4, 3)] = Err IndexError.
Proof.
  eexists. split; [reflexivity|].
  eapply legacy_target_id_beyond_edge_count.
  - vm_compute. reflexivity.
  - unfold nrows. simpl. repeat constructor.
  - apply Exists_cons_hd. unfold nrows. simpl. lia.
Defined.

Section LegacyShapes.
Context {T : Type} `{Scalar T}.

Lemma legacy_conv_init_shaped (ip : Legacy.GCNEConv.init_params T) (hc : nat)
    (name : string) (p : Q) (c : Legacy.GCNEConv.t T) :
  aggr_shaped (Legacy.GCNEConv.ip_aggr ip) ->
  Legacy.GCNEConv.__init__ ip hc hc name p = Ok c -> legacy_conv_shaped hc c.
Proof.
  intros Ha. unfold Legacy.GCNEConv.__init__.
  destruct (NodeEdgeMessageCommunicator.__init__ _ name hc) as [cm|e] eqn:Hcm;
    simpl; [|discriminate].
  destruct (valid_p p) eqn:Hp; [|discriminate].
  intros [= <-]. unfold legacy_conv_shaped. simpl.
  split; [exact (communicator_init_shaped _ _ _ _ Hcm)|]. repeat split; assumption.
Qed.

Lemma legacy_conv_forward_shaped (hc : nat) (c : Legacy.GCNEConv.t T)
    (mask : option (nat -> nat -> T)) (x edge_attr : matrix T)
    (edge_index : list (nat * nat)) :
  legacy_conv_shaped hc c ->
  length edge_index = nrows edge_attr ->
  Forall (fun e => e.1 < nrows x /\ e.2 < nrows edge_attr) edge_index ->
  ncols x = hc -> ncols edge_attr = hc ->
  exists x' edge_attr',
    Legacy.GCNEConv.forward c mask x edge_attr edge_index = Ok (x', edge_attr')
    /\ nrows x' = nrows x /\ ncols x' = hc
    /\ nrows edge_attr' = nrows edge_attr /\ ncols edge_attr' = hc.
Proof.
  intros (Hcomm & Hsi & Hso & Haggr & Hp) Hlen Hidx Hcx Hce.
  unfold Legacy.GCNEConv.forward, propagate_target_to_source.
  destruct (Haggr edge_attr (edge_index.*1) (nrows x)) as (ag & -> & Hn & Hw).
  { rewrite length_fmap. exact Hlen. }
  { apply Forall_fmap. eapply Forall_impl; [exact Hidx|]. intros e He. apply He. }
  simpl. unfold Legacy.GCNEConv.update.
  destruct (communicator_forward_shaped hc (Legacy.GCNEConv.communicator c) ag x Hcomm)
    as (x' & -> & Hnx & Hcx'); try congruence.
  simpl. unfold Legacy.GCNEConv.edge_update.
  rewrite (index_rows_ok x').
  2: { apply Forall_fmap. eapply Forall_impl; [exact Hidx|]. intros e He. simpl.
       rewrite Hnx. apply He. }
  rewrite (index_rows_ok edge_attr).
  2: { apply Forall_fmap. eapply Forall_impl; [exact Hidx|]. intros e He. apply He. }
  simpl. rewrite broadcast_matrix_same_shape; simpl.
  2: congruence.
  2: { unfold nrows. simpl. rewrite !length_map. reflexivity. }
  rewrite linear_ok by (simpl; congruence). simpl.
  unfold dropout. rewrite Hp. simpl.
  eexists. eexists. split; [reflexivity|].
  rewrite (proj1 (apply_mask_shape _ _)), (proj2 (apply_mask_shape _ _)).
  repeat split; try assumption.
  unfold nrows in *. simpl. rewrite !length_map, length_zip_with, !length_map. lia.
Qed.

Lemma legacy_loop_shaped (hc : nat) (training : option (nat -> nat -> nat -> T))
    (edge_index : list (nat * nat)) (cs : list (Legacy.GCNEConv.t T)) (x0 b0 : matrix T) :
  Forall (legacy_conv_shaped hc) cs ->
  length edge_index = nrows b0 ->
  Forall (fun e => e.1 < nrows x0 /\ e.2 < nrows b0) edge_index ->
  ncols x0 = hc -> ncols b0 = hc ->
  exists st,
    foldM (Legacy.CMPNN.conv_step training edge_index) (enumerate cs) (x0, b0) = Ok st
    /\ nrows st.1 = nrows x0 /\ ncols st.1 = hc
    /\ nrows st.2 = nrows b0 /\ ncols st.2 = hc.
Proof.
  intros Hcs Hlen Hidx Hcx Hcb.
  destruct (foldM_enumerate (Legacy.CMPNN.conv_step training edge_index)
              (fun _ st => nrows st.1 = nrows x0 /\ ncols st.1 = hc
                           /\ nrows st.2 = nrows b0 /\ ncols st.2 = hc)
              cs (x0, b0))
    as (st & Hfold & Hst).
  - simpl. repeat split; assumption.
  - intros i c st Hc (Hn1 & Hc1 & Hn2 & Hc2). unfold Legacy.CMPNN.conv_step. simpl.
    destruct (legacy_conv_forward_shaped hc c ((fun f => f i) <$> training) st.1 st.2
                edge_index (Forall_lookup_1 _ _ _ _ Hcs Hc))
      as (x' & ea' & -> & Hnx & Hcx' & Hne & Hce); try congruence.
    { rewrite Hn1, Hn2. exact Hidx. }
    eexists. split; [reflexivity|]. simpl. repeat split; congruence.
  - exists st. split; [exact Hfold|exact Hst].
Qed.

End LegacyShapes.

(** X19: the forward pass of the earlier variant.  Built with at least one
    layer, a valid policy name, a non-zero hidden width that is also the
    output width, and a dropout probability in [0, 1], the model returns,
    for N >= 1 nodes and E edges, N rows of hidden_channels entries,
    provided every edge starts at a node of the batch and the node id it
    ends at is below E, the number of edges. *)
Theorem legacy_forward_shape {T} `{Scalar T} (ip : Legacy.CMPNN.init_params T)
    (in_channels hidden_channels edge_dim : nat) (num_layers : Z)
    (communicator_name : string) (p : Q)
    (training : option (nat -> nat -> nat -> T))
    (x : matrix T) (edge_index : list (nat * nat)) (edge_attr : matrix T)
    (batch : list nat) :
  (1 <= num_layers)%Z ->
  communicator_name ∈ NodeEdgeMessageCommunicator.names ->
  hidden_channels <> 0 -> valid_p p = true ->
  (forall k, aggr_shaped (Legacy.GCNEConv.ip_aggr (Legacy.CMPNN.ip_conv ip k))) ->
  ncols x = in_channels -> 0 < nrows x ->
  ncols edge_attr = edge_dim -> length edge_index = nrows edge_attr ->
  Forall (fun e => e.1 < nrows x /\ e.2 < nrows edge_attr) edge_index ->
  length batch = nrows x ->
  exists m out,
    Legacy.CMPNN.__init__ ip in_channels hidden_channels hidden_channels edge_dim
      num_layers communicator_name p = Ok m
    /\ length (Legacy.CMPNN.convs m) = Z.to_nat num_layers
    /\ Legacy.CMPNN.forward m training x edge_index edge_attr batch = Ok out
    /\ nrows out = nrows x /\ ncols out = hidden_channels /\ wf out.
Proof.
  intros Hnl Hname Hh Hp Haggr Hcx HN Hce Hlen Hidx Hbatch.
  unfold Legacy.CMPNN.__init__.
  destruct (mapM_all_ok_length
              (fun k => Legacy.GCNEConv.__init__ (Legacy.CMPNN.ip_conv ip k) hidden_channels
                          hidden_channels communicator_name p)
              (seq 0 (Z.to_nat num_layers))) as (cs & Hcs & Hlcs).
  { intros k. unfold Legacy.GCNEConv.__init__.
    destruct (communicator_init_ok (Legacy.GCNEConv.ip_communicator (Legacy.CMPNN.ip_conv ip k))
                communicator_name hidden_channels Hname) as (c & -> & _).
    simpl. rewrite Hp. eexists. reflexivity. }
  rewrite Hcs. simpl.
  unfold BatchGRU.__init__. rewrite decide_False by exact Hh. simpl. rewrite Hp.
  rewrite length_seq in Hlcs.
  assert (Forall (legacy_conv_shaped hidden_channels) cs) as Hshaped.
  { apply mapM_ok_Forall2 in Hcs. apply Forall_lookup. intros i c Hc.
    destruct (Forall2_lookup_r _ _ _ _ _ Hcs Hc) as (k & _ & Hk).
    exact (legacy_conv_init_shaped _ _ _ _ _ (Haggr k) Hk). }
  match goal with
  | |- exists m out, Ok ?m0 = Ok m /\ _ => exists m0; remember m0 as m eqn:Hm
  end.
  assert (in_features (Legacy.CMPNN.atom_proj m) = in_channels
          /\ out_features (Legacy.CMPNN.atom_proj m) = hidden_channels
          /\ in_features (Legacy.CMPNN.bond_proj m) = edge_dim
          /\ out_features (Legacy.CMPNN.bond_proj m) = hidden_channels
          /\ Legacy.CMPNN.convs m = cs
          /\ in_features (Legacy.CMPNN.lin m) = hidden_channels * 3
          /\ out_features (Legacy.CMPNN.lin m) = hidden_channels
          /\ BatchGRU.hidden_channels (Legacy.CMPNN.gru m) = hidden_channels
          /\ length (BatchGRU.bias (Legacy.CMPNN.gru m)) = hidden_channels
          /\ in_features (Legacy.CMPNN.seq_out m) = hidden_channels * 2
          /\ out_features (Legacy.CMPNN.seq_out m) = hidden_channels
          /\ Legacy.CMPNN.seq_out_p m = p)
    as (Hai & Hao & Hbi & Hbo & Hconvs & Hli & Hlo & Hgh & Hgb & Hsi & Hso & Hsp).
  { subst m. simpl. rewrite length_map, length_seq. repeat split; reflexivity. }
  clear Hm.
  cut (exists out,
         Legacy.CMPNN.forward m training x edge_index edge_attr batch = Ok out
         /\ nrows out = nrows x /\ ncols out = hidden_channels /\ wf out).
  { intros (out & Hout). exists out. split; [reflexivity|]. split; [congruence|exact Hout]. }
  unfold Legacy.CMPNN.forward.
  rewrite linear_ok by congruence. simpl.
  rewrite linear_ok by congruence. simpl.
  rewrite Hconvs.
  destruct (legacy_loop_shaped hidden_channels training edge_index
              (take (length cs - 1) cs)
              (relu (Mat (out_features (Legacy.CMPNN.atom_proj m))
                         (map (linear_row (Legacy.CMPNN.atom_proj m)) (rows x))))
              (relu (Mat (out_features (Legacy.CMPNN.bond_proj m))
                         (map (linear_row (Legacy.CMPNN.bond_proj m)) (rows edge_attr)))))
    as (st & -> & Hn1 & Hc1 & Hn2 & Hc2).
  { apply Forall_take. exact Hshaped. }
  { unfold nrows. simpl. rewrite !length_map. exact Hlen. }
  { unfold nrows in *. simpl. rewrite !length_map. exact Hidx. }
  { exact Hao. }
  { exact Hbo. }
  assert (nrows st.1 = nrows x) as Hn1'
    by (rewrite Hn1; unfold nrows; simpl; rewrite !length_map; reflexivity).
  assert (nrows st.2 = nrows edge_attr) as Hn2'
    by (rewrite Hn2; unfold nrows; simpl; rewrite !length_map; reflexivity).
  simpl. rewrite last_lookup.
  destruct (lookup_lt_is_Some_2 cs (pred (length cs))) as [layer Hlayer]; [lia|].
  rewrite Hlayer.
  destruct (legacy_conv_forward_shaped hidden_channels layer
              ((fun f => f (length cs - 1)) <$> training) st.1 st.2 edge_index
              (Forall_lookup_1 _ _ _ _ Hshaped Hlayer))
    as (a & ea' & -> & Hna & Hca & _ & _); try congruence.
  { rewrite Hn1', Hn2'. exact Hidx. }
  simpl. rewrite decide_True.
  2: { rewrite Hn1'. unfold nrows. simpl. rewrite !length_map. reflexivity. }
  simpl. rewrite decide_True.
  2: { unfold nrows in *. simpl. rewrite length_zip_with, !length_map. lia. }
  simpl. rewrite linear_ok by (simpl; lia). simpl.
  destruct (max_item_ok (unique_counts batch)) as [M HM].
  { apply unique_counts_nonempty. intros ->. simpl in Hbatch. lia. }
  rewrite (forward_ok (Legacy.CMPNN.gru m) _ batch (wf_linear _ _)) with (M := M); simpl;
    try congruence.
  2: { unfold nrows in *. simpl.
       rewrite length_map, !length_zip_with, !length_map. lia. }
  rewrite linear_ok by (simpl; congruence). simpl.
  unfold dropout. rewrite Hsp, Hp.
  eexists. split; [reflexivity|].
  rewrite (proj1 (apply_mask_shape _ _)), (proj2 (apply_mask_shape _ _)).
  split; [|split].
  - unfold nrows. simpl. rewrite !length_map, length_imap. exact Hbatch.
  - exact Hso.
  - apply wf_apply_mask, wf_relu, wf_linear.
Qed.

Lemma legacy_forward_shape_witness :
  exists m out,
    Legacy.CMPNN.__init__ MoreSamples.legacy_ip 1 1 1 1 2 "additive" 0 = Ok m
    /\ length (Legacy.CMPNN.convs m) = 2
    /\ Legacy.CMPNN.forward m None MoreSamples.three_atoms MoreSamples.chain
         MoreSamples.chain_embed [0; 0; 0] = Ok out
    /\ nrows out = 3 /\ ncols out = 1 /\ wf out.
Proof.
  refine (legacy_forward_shape MoreSamples.legacy_ip 1 1 1 2 "additive" 0 None
            MoreSamples.three_atoms MoreSamples.chain MoreSamples.chain_embed [0; 0; 0]
            _ _ _ eq_refl _ eq_refl _ eq_refl eq_refl _ eq_refl).
  - lia.
  - apply list_elem_of_here.
  - discriminate.
  - intros k. apply message_booster_shaped.
  - unfold nrows. simpl. lia.
  - unfold nrows. simpl. repeat (constructor; [simpl; lia|]). constructor.
Defined.

(** ** The edge update inside the layer and the forward pass *)

Lemma legacy_conv_is_built :
  Legacy.GCNEConv.__init__ MoreSamples.legacy_conv_ip 1 1 "additive" 0 = Ok MoreSamples.legacy_conv.
Proof. reflexivity. Qed.



